(** * Window registry and recycling state machine of [modules/windows.js]

    A shallow embedding of the two classes of [src/modules/windows.js]:

    - [Window] (the handle wrapping one native [BrowserWindow]) with its
      methods [load], [send], [hide], [show], [close], [reuse] and the
      handlers its constructor installs on the native window;
    - [Windows] (the registry) with [create], [createPopup], [getByType],
      [_onWindowClosed] and [init].

    JavaScript objects have identity and are mutated in place, so every
    [Window] object lives in a store ([heap]) and is denoted by its index
    there; the registry, [this.loading] and [this.genericWindow] hold such
    references.  Closures registered as listeners are represented by the
    code place that creates them together with the variables they capture.
    The native toolkit (Electron) is an external collaborator: what the
    program asks of it is recorded in the [BrowserWindow] record of the
    handle, and the events it delivers are the [ev_*] functions below.

    Left out, as they touch none of the state kept here: the
    'will-navigate' veto, the re-emission of the native 'show' and 'hide'
    events and the logging.  [broadcast], and the toolkit's id of a window
    with [getById] and the ipc listener of [init], come after the rest. *)

From Stdlib Require Import ZArith Lia.
From stdpp Require Import base option list strings.

Set Warnings "-clear-no-such-hyp".

Open Scope Z_scope.
Open Scope string_scope.
Open Scope list_scope.
Open Scope nat_scope.

(** ** JavaScript objects used as string-keyed maps

    Own keys are enumerated in insertion order; assigning to an existing key
    keeps its position.  [_.find] over an object returns the first value, in
    that order, on which the predicate is truthy.  The keys meant are names
    such as "main": an object enumerates keys that look like array indices
    before the others, and stores nothing under "__proto__" (see [ownKey]). *)

Definition jsobject (A : Type) : Type := list (string * A).

Fixpoint obj_set {A : Type} (k : string) (v : A) (o : jsobject A) : jsobject A :=
  match o with
  | [] => [(k, v)]
  | (k', v') :: o' =>
      if String.eqb k' k then (k, v) :: o' else (k', v') :: obj_set k v o'
  end.

Definition _find {A : Type} (p : A -> bool) (o : jsobject A) : option A :=
  snd <$> List.find (fun kv => p (snd kv)) o.

(** A reference to a [Window] object. *)
Definition ref := nat.

(** Leaves of an options object. *)
Inductive scalar :=
| SBool (b : bool)
| SNum (n : Z)
| SStr (s : string).

(** [opts.sendData]: either a channel name or an object of channel/payload
    pairs (lines 59-69). *)
Inductive SendData :=
| SendChannel (channel : string)
| SendObject (entries : jsobject scalar).

(** A value of [ownerId] that is not [undefined]. *)
Inductive owner :=
| OwnerNull
| OwnerId (n : nat).

#[global] Instance owner_eq_dec : EqDecision owner.
Proof. solve_decision. Defined.

(** ** Options objects

    An absent key is [None].  [electronOptions] and [webPreferences] are
    nested objects; the chrome settings the program only passes on to the
    toolkit are kept as an object of scalars. *)
Module Opts.

Record WebPreferences := mkWebPreferences {
  preload : option string;
  wp_flags : jsobject scalar
}.

Record Electron := mkElectron {
  width : option Z;
  height : option Z;
  x : option Z;
  y : option Z;
  parent : option ref;
  webPreferences : option WebPreferences;
  flags : jsobject scalar
}.

Record t := mk {
  primary : option bool;
  isPopup : option bool;
  ownerId : option owner;
  isAvailable : option bool;
  url : option string;
  show : option bool;
  useWeb3 : option bool;
  sendData : option SendData;
  electronOptions : option Electron
}.

(** [{}] *)
Definition empty : t := mk None None None None None None None None None.

(** [_.deepExtend(target, source)], the deep merge of the underscore
    mixin the module relies on, on options of the shape above: keys of
    [source] win, nested objects are merged key by key.  The options are
    those with every key either absent or defined, and with strings that do
    not hold the mixin's placeholder for the target's value; a [source] that
    is [undefined] altogether makes the merge throw, which is dealt with
    where it can happen ([new_Window]). *)
Definition over {A : Type} (target source : option A) : option A :=
  match source with
  | Some v => Some v
  | None => target
  end.

Definition overWith {A : Type} (merge : A -> A -> A) (target source : option A)
  : option A :=
  match target, source with
  | Some a, Some b => Some (merge a b)
  | _, Some b => Some b
  | _, None => target
  end.

Definition extendFlags (target source : jsobject scalar) : jsobject scalar :=
  fold_left (fun acc kv => obj_set (fst kv) (snd kv) acc) source target.

Definition extendWebPreferences (a b : WebPreferences) : WebPreferences :=
  {| preload := over (preload a) (preload b);
     wp_flags := extendFlags (wp_flags a) (wp_flags b) |}.

Definition extendElectron (a b : Electron) : Electron :=
  {| width := over (width a) (width b);
     height := over (height a) (height b);
     x := over (x a) (x b);
     y := over (y a) (y b);
     parent := over (parent a) (parent b);
     webPreferences :=
       overWith extendWebPreferences (webPreferences a) (webPreferences b);
     flags := extendFlags (flags a) (flags b) |}.

Definition deepExtend (a b : t) : t :=
  {| primary := over (primary a) (primary b);
     isPopup := over (isPopup a) (isPopup b);
     ownerId := over (ownerId a) (ownerId b);
     isAvailable := over (isAvailable a) (isAvailable b);
     url := over (url a) (url b);
     show := over (show a) (show b);
     useWeb3 := over (useWeb3 a) (useWeb3 b);
     sendData := over (sendData a) (sendData b);
     electronOptions :=
       overWith extendElectron (electronOptions a) (electronOptions b) |}.

(** Truthiness of the leaves the program tests. *)
Definition truthy (b : option bool) : bool :=
  match b with
  | Some true => true
  | _ => false
  end.

Definition truthyString (u : option string) : bool :=
  match u with
  | Some u => negb (String.eqb u "")
  | None => false
  end.

Definition truthySendData (d : option SendData) : bool :=
  match d with
  | Some (SendChannel c) => negb (String.eqb c "")
  | Some (SendObject _) => true
  | None => false
  end.

End Opts.

(** ** Process-wide values the module reads *)
Record Globals := mkGlobals {
  appName : string;              (* Settings.appName *)
  interfacePopupsUrl : string;   (* global.interfacePopupsUrl *)
  mode : string;                 (* global.mode *)
  dirname : string;              (* __dirname *)
  icon : string;                 (* global.icon *)
  defaultWindow_width : Z;       (* global.defaultWindow.width *)
  defaultWindow_height : Z;
  defaultWindow_x : option Z;
  defaultWindow_y : option Z
}.

(** ** Listeners

    [webContents.once('did-finish-load', ...)] is called at two places: in
    the constructor (lines 54-76; the closure captures [opts]) and in
    [reuse] (line 191). *)
Inductive wc_listener :=
| OnContentLoaded (sendData : option SendData) (show : bool)
| OnReuseLoaded.

(** Listeners the registry attaches to a handle: the bound
    [_onWindowClosed] (line 258, on 'closed') and the closure of
    [createPopup] (lines 480-482, once on 'ready'; it captures [type]). *)
Inductive listener :=
| OnWindowClosed (wnd : ref)
| OnPopupReady (type : string).

(** A message handed to [webContents.send]. *)
Definition message : Type := string * list scalar.

(** ** The native window, as far as the program drives it *)
Record BrowserWindow := mkBrowserWindow {
  bw_options : Opts.Electron;             (* argument of [new BrowserWindow] *)
  bw_url : option string;                 (* last [loadURL] *)
  bw_size : option Z * option Z;          (* construction size, then [setSize] *)
  bw_visible : bool;                      (* [show()] / [hide()] *)
  bw_closeRequested : bool;               (* [close()] asked, not yet dispatched *)
  bw_destroyed : bool;                    (* 'closed' has been emitted *)
  bw_finishLoadOnce : list wc_listener;   (* pending once('did-finish-load') *)
  bw_received : list message              (* [webContents.send] calls *)
}.

(** ** The handle

    [isContentReady], [isShown] and [isClosed] are [undefined] until first
    assigned and are only ever tested for truthiness: [false] stands for
    both.  [callback] is an opaque function value. *)
Record Window := mkWindow {
  type : string;
  isPrimary : bool;
  isPopup : bool;
  ownerId : option owner;
  isAvailable : bool;
  isContentReady : bool;
  isShown : bool;
  isClosed : bool;
  callback : option nat;
  window : BrowserWindow;
  readyOnce : list listener;
  closedOn : list listener
}.

(** Actions dispatched to the store. *)
Inductive store_action :=
| WINDOW_CREATE_START (type : string)
| WINDOW_CREATE_FINISH (type : string)
| GENERIC_WINDOW_REUSE (type : string)
| WINDOWS_INIT_FINISH.

(** ** Program state *)
Record State := mkState {
  heap : list Window;            (* every [Window] constructed so far *)
  _windows : jsobject ref;       (* [this._windows] *)
  loading : option ref;          (* [this.loading] *)
  genericWindow : option ref;    (* [this.genericWindow] *)
  appQuit : bool;                (* [global.store.getState().ui.appQuit] *)
  dispatched : list store_action;(* [global.store.dispatch] calls, in order *)
  quitCalls : nat                (* number of [app.quit()] calls *)
}.

(** ** Field assignments *)

Definition bw_set_url (u : string) (b : BrowserWindow) : BrowserWindow :=
  mkBrowserWindow (bw_options b) (Some u) (bw_size b) (bw_visible b)
    (bw_closeRequested b) (bw_destroyed b) (bw_finishLoadOnce b) (bw_received b).

Definition bw_set_size (sz : option Z * option Z) (b : BrowserWindow) : BrowserWindow :=
  mkBrowserWindow (bw_options b) (bw_url b) sz (bw_visible b)
    (bw_closeRequested b) (bw_destroyed b) (bw_finishLoadOnce b) (bw_received b).

Definition bw_set_visible (v : bool) (b : BrowserWindow) : BrowserWindow :=
  mkBrowserWindow (bw_options b) (bw_url b) (bw_size b) v
    (bw_closeRequested b) (bw_destroyed b) (bw_finishLoadOnce b) (bw_received b).

Definition bw_set_closeRequested (v : bool) (b : BrowserWindow) : BrowserWindow :=
  mkBrowserWindow (bw_options b) (bw_url b) (bw_size b) (bw_visible b)
    v (bw_destroyed b) (bw_finishLoadOnce b) (bw_received b).

Definition bw_set_destroyed (v : bool) (b : BrowserWindow) : BrowserWindow :=
  mkBrowserWindow (bw_options b) (bw_url b) (bw_size b) (bw_visible b)
    (bw_closeRequested b) v (bw_finishLoadOnce b) (bw_received b).

Definition bw_set_finishLoadOnce (ls : list wc_listener) (b : BrowserWindow)
  : BrowserWindow :=
  mkBrowserWindow (bw_options b) (bw_url b) (bw_size b) (bw_visible b)
    (bw_closeRequested b) (bw_destroyed b) ls (bw_received b).

Definition bw_set_received (ms : list message) (b : BrowserWindow) : BrowserWindow :=
  mkBrowserWindow (bw_options b) (bw_url b) (bw_size b) (bw_visible b)
    (bw_closeRequested b) (bw_destroyed b) (bw_finishLoadOnce b) ms.

Definition set_isAvailable (v : bool) (w : Window) : Window :=
  mkWindow (type w) (isPrimary w) (isPopup w) (ownerId w) v (isContentReady w)
    (isShown w) (isClosed w) (callback w) (window w) (readyOnce w) (closedOn w).

Definition set_isContentReady (v : bool) (w : Window) : Window :=
  mkWindow (type w) (isPrimary w) (isPopup w) (ownerId w) (isAvailable w) v
    (isShown w) (isClosed w) (callback w) (window w) (readyOnce w) (closedOn w).

Definition set_isShown (v : bool) (w : Window) : Window :=
  mkWindow (type w) (isPrimary w) (isPopup w) (ownerId w) (isAvailable w)
    (isContentReady w) v (isClosed w) (callback w) (window w) (readyOnce w)
    (closedOn w).

Definition set_isClosed (v : bool) (w : Window) : Window :=
  mkWindow (type w) (isPrimary w) (isPopup w) (ownerId w) (isAvailable w)
    (isContentReady w) (isShown w) v (callback w) (window w) (readyOnce w)
    (closedOn w).

Definition set_callback (c : option nat) (w : Window) : Window :=
  mkWindow (type w) (isPrimary w) (isPopup w) (ownerId w) (isAvailable w)
    (isContentReady w) (isShown w) (isClosed w) c (window w) (readyOnce w)
    (closedOn w).

Definition set_window (b : BrowserWindow) (w : Window) : Window :=
  mkWindow (type w) (isPrimary w) (isPopup w) (ownerId w) (isAvailable w)
    (isContentReady w) (isShown w) (isClosed w) (callback w) b (readyOnce w)
    (closedOn w).

Definition set_readyOnce (ls : list listener) (w : Window) : Window :=
  mkWindow (type w) (isPrimary w) (isPopup w) (ownerId w) (isAvailable w)
    (isContentReady w) (isShown w) (isClosed w) (callback w) (window w) ls
    (closedOn w).

Definition set_closedOn (ls : list listener) (w : Window) : Window :=
  mkWindow (type w) (isPrimary w) (isPopup w) (ownerId w) (isAvailable w)
    (isContentReady w) (isShown w) (isClosed w) (callback w) (window w)
    (readyOnce w) ls.

(** A call on the native window of a handle. *)
Definition native (f : BrowserWindow -> BrowserWindow) (w : Window) : Window :=
  set_window (f (window w)) w.

Definition set_heap (h : list Window) (s : State) : State :=
  mkState h (_windows s) (loading s) (genericWindow s) (appQuit s)
    (dispatched s) (quitCalls s).

Definition set__windows (ws : jsobject ref) (s : State) : State :=
  mkState (heap s) ws (loading s) (genericWindow s) (appQuit s)
    (dispatched s) (quitCalls s).

Definition set_loading (l : option ref) (s : State) : State :=
  mkState (heap s) (_windows s) l (genericWindow s) (appQuit s)
    (dispatched s) (quitCalls s).

Definition set_genericWindow (g : option ref) (s : State) : State :=
  mkState (heap s) (_windows s) (loading s) g (appQuit s)
    (dispatched s) (quitCalls s).

Definition set_appQuit (q : bool) (s : State) : State :=
  mkState (heap s) (_windows s) (loading s) (genericWindow s) q
    (dispatched s) (quitCalls s).

(** [global.store.dispatch(a)] *)
Definition dispatch (a : store_action) (s : State) : State :=
  mkState (heap s) (_windows s) (loading s) (genericWindow s) (appQuit s)
    (dispatched s ++ [a]) (quitCalls s).

(** [app.quit()] *)
Definition app_quit (s : State) : State :=
  mkState (heap s) (_windows s) (loading s) (genericWindow s) (appQuit s)
    (dispatched s) (S (quitCalls s)).

(** In-place mutation of the object behind a reference. *)
Definition mutate (r : ref) (f : Window -> Window) (s : State) : State :=
  set_heap (alter f r (heap s)) s.

(** A method body run on the object behind [r].  Every reference the program
    holds was returned by a constructor call, so the [None] branch is never
    taken on the states the program builds (see [reachable_wf]). *)
Definition on_handle (r : ref) (body : Window -> State -> State) (s : State)
  : State :=
  match heap s !! r with
  | Some w => body w s
  | None => s
  end.

(** ** Outcome of a call that may throw *)
Inductive completion (A : Type) :=
| Return (v : A) (s : State)
| Throw (s : State).
Arguments Return {A} v s.
Arguments Throw {A} s.

(** ** Methods of [Window] *)

(** Lines 120-128. *)
Definition load (r : ref) (url : string) : State -> State :=
  on_handle r (fun w s =>
    if isClosed w then s
    else mutate r (native (bw_set_url url)) s).

(** Lines 130-141. *)
Definition send (r : ref) (channel : string) (args : list scalar)
  : State -> State :=
  on_handle r (fun w s =>
    if isClosed w || negb (isContentReady w) then s
    else mutate r
           (native (fun b => bw_set_received (bw_received b ++ [(channel, args)]) b))
           s).

(** Lines 144-155. *)
Definition hide (r : ref) : State -> State :=
  on_handle r (fun w s =>
    if isClosed w then s
    else mutate r (set_isShown false)
           (mutate r (native (bw_set_visible false)) s)).

(** Lines 158-169. *)
Definition show (r : ref) : State -> State :=
  on_handle r (fun w s =>
    if isClosed w then s
    else mutate r (set_isShown true)
           (mutate r (native (bw_set_visible true)) s)).

(** Lines 172-184.  For any other type than "genericWindow" the request is
    handed to the toolkit, which answers with the 'close' event ([ev_close]
    below). *)
Definition close (r : ref) : State -> State :=
  on_handle r (fun w s =>
    if isClosed w then s
    else if String.eqb (type w) "genericWindow" then
      mutate r (set_isAvailable true) (hide r s)
    else mutate r (native (bw_set_closeRequested true)) s).

(** Lines 186-192.  The method has no [return]: its value is [undefined].
    Reading [options.electronOptions.width] throws when
    [options.electronOptions] is [undefined]. *)
Definition reuse (r : ref) (type' : string) (options : Opts.t)
  (callback' : option nat) (s : State) : completion unit :=
  let s1 := mutate r (set_isAvailable false) s in
  let s2 := if Opts.truthyString (Opts.url options)
            then load r (default "" (Opts.url options)) s1
            else s1 in
  match Opts.electronOptions options with
  | None => Throw s2
  | Some eo =>
      let s3 := mutate r (native (bw_set_size (Opts.width eo, Opts.height eo))) s2 in
      Return tt
        (mutate r
           (native (fun b =>
                      bw_set_finishLoadOnce (bw_finishLoadOnce b ++ [OnReuseLoaded]) b))
           s3)
  end.

(** ** The registry: lookups and the shutdown policy *)

Definition deref (s : State) (r : ref) : option Window := heap s !! r.

(** The predicate of a [_.find] over [this._windows]: a test on the object
    behind each value. *)
Definition holds (s : State) (p : Window -> bool) (r : ref) : bool :=
  match deref s r with
  | Some w => p w
  | None => false
  end.

(** Lines 488-494. *)
Definition getByType (type' : string) (s : State) : option ref :=
  _find (holds s (fun w => String.eqb (type w) type')) (_windows s).

(** Lines 530-536: delete the first key whose value is [wnd] itself. *)
Fixpoint removeWindow (wnd : ref) (ws : jsobject ref) : jsobject ref :=
  match ws with
  | [] => []
  | (t, r) :: ws' => if Nat.eqb r wnd then ws' else (t, r) :: removeWindow wnd ws'
  end.

(** The test of lines 538-540. *)
Definition stillOpen (w : Window) : bool :=
  isPrimary w && negb (isClosed w) && isShown w.

(** Lines 527-547. *)
Definition _onWindowClosed (wnd : ref) (s : State) : State :=
  let s1 := set__windows (removeWindow wnd (_windows s)) s in
  match _find (holds s1 stillOpen) (_windows s1) with
  | Some _ => s1
  | None => app_quit s1
  end.

(** ** Emitting handle events *)

Definition run_listener (l : listener) (s : State) : State :=
  match l with
  | OnWindowClosed wnd => _onWindowClosed wnd s
  | OnPopupReady type' =>
      (* lines 480-482; [this.loading] was already dereferenced at line 474
         when this closure was registered for such a [type'] *)
      if String.eqb type' "genericWindow" then s
      else match loading s with
           | Some l => hide l s
           | None => s
           end
  end.

Definition emit (ls : list listener) (s : State) : State :=
  fold_left (fun acc l => run_listener l acc) ls s.

(** ** Events delivered by the toolkit *)

(** Lines 59-69. *)
Definition sendInitialData (r : ref) (d : option SendData) (s : State) : State :=
  if Opts.truthySendData d then
    match d with
    | Some (SendChannel c) => send r c [] s
    | Some (SendObject entries) =>
        fold_left (fun acc kv => send r (fst kv) [snd kv] acc) entries s
    | None => s
    end
  else s.

(** [emit('ready')]: the once-listeners are detached, then called. *)
Definition emit_ready (r : ref) : State -> State :=
  on_handle r (fun w s => emit (readyOnce w) (mutate r (set_readyOnce []) s)).

Definition run_wc_listener (r : ref) (l : wc_listener) (s : State) : State :=
  match l with
  | OnContentLoaded d sh =>
      (* lines 54-76 *)
      let s1 := mutate r (set_isContentReady true) s in
      let s2 := sendInitialData r d s1 in
      let s3 := if sh then show r s2 else s2 in
      emit_ready r s3
  | OnReuseLoaded => show r s   (* line 191 *)
  end.

(** 'did-finish-load' on the web contents of [r]: the pending once-listeners
    are detached and called in registration order.  A destroyed native
    window delivers no events. *)
Definition ev_didFinishLoad (r : ref) : State -> State :=
  on_handle r (fun w s =>
    if bw_destroyed (window w) then s
    else
      fold_left (fun acc l => run_wc_listener r l acc)
        (bw_finishLoadOnce (window w))
        (mutate r (native (bw_set_finishLoadOnce [])) s)).

(** 'closed' on the native window (lines 85-93, registered with [once]). *)
Definition ev_closed (r : ref) : State -> State :=
  on_handle r (fun w s =>
    if bw_destroyed (window w) then s
    else
      let s1 := mutate r (native (bw_set_destroyed true)) s in
      let s2 := mutate r (set_isShown false) s1 in
      let s3 := mutate r (set_isClosed true) s2 in
      let s4 := mutate r (set_isContentReady false) s3 in
      emit (closedOn w) s4).

(** 'close' on the native window: a request to close, from the user, from
    [window.close()] or from the application quitting (lines 95-105).  When
    the handler calls [e.preventDefault()] the window stays; otherwise the
    handle re-emits 'close' (nothing in this module listens to it) and the
    toolkit goes on to destroy the window and to emit 'closed'. *)
Definition ev_close (r : ref) : State -> State :=
  on_handle r (fun w s =>
    if bw_destroyed (window w) then s
    else
      let s1 := mutate r (native (bw_set_closeRequested false)) s in
      let continueUsingApp := negb (appQuit s1) in
      if String.eqb (type w) "genericWindow" && continueUsingApp then close r s1
      else ev_closed r s1).

(** The listener [createPopup] adds to the handle it returns (line 480). *)
Definition awaitReady (type' : string) (w : Window) : Window :=
  set_readyOnce (readyOnce w ++ [OnPopupReady type']) w.

Section Registry.

Variable G : Globals.

(** ** The [Window] constructor, lines 8-118 *)

Definition baseElectronOptions : Opts.Electron :=
  {| Opts.width := Some 1100%Z;
     Opts.height := Some 720%Z;
     Opts.x := None;
     Opts.y := None;
     Opts.parent := None;
     Opts.webPreferences :=
       Some {| Opts.preload := None;
               Opts.wp_flags :=
                 [("nodeIntegration", SBool false); ("webaudio", SBool true);
                  ("webgl", SBool false); ("webSecurity", SBool false);
                  ("textAreasAreResizable", SBool true)] |};
     Opts.flags :=
       [("title", SStr (appName G)); ("show", SBool false);
        ("icon", SStr (icon G)); ("titleBarStyle", SStr "hidden-inset");
        ("backgroundColor", SStr "#F6F6F6"); ("acceptFirstMouse", SBool true);
        ("darkTheme", SBool true)] |}.

Definition flagSet (k : string) (fl : jsobject scalar) : bool :=
  match List.find (fun kv => String.eqb (fst kv) k) fl with
  | Some (_, SBool true) => true
  | _ => false
  end.

Definition new_BrowserWindow (eo : Opts.Electron) : BrowserWindow :=
  {| bw_options := eo;
     bw_url := None;
     bw_size := (Opts.width eo, Opts.height eo);
     bw_visible := flagSet "show" (Opts.flags eo);
     bw_closeRequested := false;
     bw_destroyed := false;
     bw_finishLoadOnce := [];
     bw_received := [] |}.

(** The object the constructor leaves once line 42 has merged
    [opts.electronOptions], here [eo], into the base options: lines 13-21
    and 44-117. *)
Definition constructed (type' : string) (opts : Opts.t) (eo : Opts.Electron)
  : Window :=
  let electronOptions := Opts.extendElectron baseElectronOptions eo in
  let bw := new_BrowserWindow electronOptions in
  let bw := bw_set_finishLoadOnce
              [OnContentLoaded (Opts.sendData opts) (Opts.truthy (Opts.show opts))]
              bw in
  (* lines 115-117: the handle is not closed, so [load] reaches [loadURL] *)
  let bw := if Opts.truthyString (Opts.url opts)
            then bw_set_url (default "" (Opts.url opts)) bw
            else bw in
  {| type := type';
     isPrimary := Opts.truthy (Opts.primary opts);
     isPopup := Opts.truthy (Opts.isPopup opts);
     ownerId := Opts.ownerId opts;
     isAvailable := Opts.truthy (Opts.isAvailable opts);
     isContentReady := false;
     isShown := false;
     isClosed := false;
     callback := None;
     window := bw;
     readyOnce := [];
     closedOn := [] |}.

(** [new Window(mgr, type, opts)].  Line 42 hands [opts.electronOptions] to
    [_.deepExtend] as the object to merge in, and the merge throws a
    [TypeError] when that is [undefined] (it asks for the keys of its
    argument): [None].  Nothing has been built by then. *)
Definition new_Window (type' : string) (opts : Opts.t) : option Window :=
  match Opts.electronOptions opts with
  | Some eo => Some (constructed type' opts eo)
  | None => None
  end.

(** ** Per-type presets, lines 270-422 *)

Definition preset (primary' : option bool) (url' : option string)
  (show' useWeb3' : option bool) (eo : Opts.Electron) : Opts.t :=
  {| Opts.primary := primary'; Opts.isPopup := None; Opts.ownerId := None;
     Opts.isAvailable := None; Opts.url := url'; Opts.show := show';
     Opts.useWeb3 := useWeb3'; Opts.sendData := None;
     Opts.electronOptions := Some eo |}.

Definition sized (w h : Z) (wp : option Opts.WebPreferences)
  (fl : jsobject scalar) : Opts.Electron :=
  {| Opts.width := Some w; Opts.height := Some h; Opts.x := None;
     Opts.y := None; Opts.parent := None; Opts.webPreferences := wp;
     Opts.flags := fl |}.

(** Line 296: the table of lines 271-285 indexed by [global.mode].  There
    is no entry for a mode other than these two (see [supportedMode]). *)
Definition mainWebPreferences : option Opts.WebPreferences :=
  if String.eqb (mode G) "mist" then
    Some {| Opts.preload := Some (dirname G +:+ "/preloader/mistUI.js");
            Opts.wp_flags :=
              [("nodeIntegration", SBool true);
               ("overlay-fullscreen-video", SBool true);
               ("overlay-scrollbars", SBool true);
               ("experimentalFeatures", SBool true)] |}
  else if String.eqb (mode G) "wallet" then
    Some {| Opts.preload := Some (dirname G +:+ "/preloader/walletMain.js");
            Opts.wp_flags :=
              [("overlay-fullscreen-video", SBool true);
               ("overlay-scrollbars", SBool true)] |}
  else None.

Definition getDefaultOptionsForType (type' : string) : Opts.t :=
  if String.eqb type' "main" then
    preset (Some true) None None None
      {| Opts.width := Some (Z.max (defaultWindow_width G) 500);
         Opts.height := Some (Z.max (defaultWindow_height G) 440);
         Opts.x := defaultWindow_x G;
         Opts.y := defaultWindow_y G;
         Opts.parent := None;
         Opts.webPreferences := mainWebPreferences;
         Opts.flags := [] |}
  else if String.eqb type' "splash" then
    preset (Some true)
      (Some (interfacePopupsUrl G +:+ "#splashScreen_" +:+ mode G))
      (Some true) None
      (sized 400 230
         (Some {| Opts.preload := Some (dirname G +:+ "/preloader/splashScreen.js");
                  Opts.wp_flags := [] |})
         [("resizable", SBool false); ("backgroundColor", SStr "#F6F6F6");
          ("useContentSize", SBool true); ("frame", SBool false)])
  else if String.eqb type' "loading" then
    preset None (Some (interfacePopupsUrl G +:+ "#loadingWindow"))
      (Some false) None
      (sized 100 80 None
         [("title", SStr ""); ("alwaysOnTop", SBool true);
          ("resizable", SBool false); ("center", SBool true);
          ("frame", SBool false); ("useContentSize", SBool true);
          ("titleBarStyle", SStr ""); ("skipTaskbar", SBool true)])
  else if String.eqb type' "onboardingScreen" then
    preset (Some true) None None None (sized 576 442 None [])
  else if String.eqb type' "about" then
    preset None None None None
      (sized 420 230 None [("alwaysOnTop", SBool true)])
  else if String.eqb type' "remix" then
    preset None (Some "https://remix.ethereum.org") None None
      (sized 1024 720 None
         [("center", SBool true); ("frame", SBool true);
          ("resizable", SBool true); ("titleBarStyle", SStr "default")])
  else if String.eqb type' "importAccount" then
    preset None None None None
      (sized 600 370 None [("alwaysOnTop", SBool true)])
  else if String.eqb type' "requestAccount" then
    preset None None None None
      (sized 420 230 None [("alwaysOnTop", SBool true)])
  else if String.eqb type' "connectAccount" then
    preset None None None None
      (sized 460 520 None
         [("maximizable", SBool false); ("minimizable", SBool false);
          ("alwaysOnTop", SBool true)])
  else if String.eqb type' "sendTransactionConfirmation" then
    preset None None None None
      (sized 580 550 None
         [("alwaysOnTop", SBool true); ("enableLargerThanScreen", SBool false);
          ("resizable", SBool true)])
  else if String.eqb type' "updateAvailable" then
    preset None None None (Some false)
      (sized 580 250 None
         [("alwaysOnTop", SBool true); ("resizable", SBool false);
          ("maximizable", SBool false)])
  else if String.eqb type' "clientUpdateAvailable" then
    preset None None None (Some false)
      (sized 600 340 None
         [("alwaysOnTop", SBool false); ("resizable", SBool false);
          ("maximizable", SBool false)])
  else Opts.empty.

(** ** [create], lines 240-267 *)

(** The options [create] works with (line 243); a missing [opts] argument
    is [Opts.empty]. *)
Definition createOptions (type' : string) (opts : Opts.t) : Opts.t :=
  Opts.deepExtend (getDefaultOptionsForType type') opts.

(** Lines 253-266: construct, register under [type'], listen for 'closed',
    keep the callback.  When the constructor throws, line 257 assigns
    nothing and the exception leaves [create]. *)
Definition createFresh (type' : string) (options : Opts.t)
  (callback' : option nat) (s : State) : completion ref :=
  match new_Window type' options with
  | None => Throw s
  | Some w =>
      let wnd := length (heap s) in
      let s1 := set_heap (heap s ++ [w]) s in
      let s2 := set__windows (obj_set type' wnd (_windows s1)) s1 in
      let s3 := mutate wnd (fun w => set_closedOn (closedOn w ++ [OnWindowClosed wnd]) w) s2 in
      let s4 := match callback' with
                | Some c => mutate wnd (set_callback (Some c)) s3
                | None => s3
                end in
      Return wnd (dispatch (WINDOW_CREATE_FINISH type') s4)
  end.

(** Lines 245-247: the handle found by type, when its owner is the
    requested one. *)
Definition existingFor (type' : string) (options : Opts.t) (s : State)
  : option ref :=
  match getByType type' s with
  | Some existing =>
      if holds s (fun w => bool_decide (ownerId w = Opts.ownerId options)) existing
      then Some existing
      else None
  | None => None
  end.

Definition create (type' : string) (opts : Opts.t) (callback' : option nat)
  (s : State) : completion ref :=
  let s0 := dispatch (WINDOW_CREATE_START type') s in
  let options := createOptions type' opts in
  match existingFor type' options s0 with
  | Some existing => Return existing s0
  | None => createFresh type' options callback' s0
  end.

(** ** [createPopup], lines 425-485 *)

Definition defaultPopupOpts (type' : string) : Opts.t :=
  {| Opts.primary := None;
     Opts.isPopup := None;
     Opts.ownerId := Some OwnerNull;
     Opts.isAvailable := None;
     Opts.url := Some (interfacePopupsUrl G +:+ "#" +:+ type');
     Opts.show := Some true;
     Opts.useWeb3 := Some true;
     Opts.sendData := None;
     Opts.electronOptions :=
       Some {| Opts.width := Some 400%Z;
               Opts.height := Some 400%Z;
               Opts.x := None;
               Opts.y := None;
               Opts.parent := None;
               Opts.webPreferences :=
                 Some {| Opts.preload := None;
                         Opts.wp_flags := [("textAreasAreResizable", SBool false)] |};
               Opts.flags :=
                 [("title", SStr ""); ("resizable", SBool false);
                  ("center", SBool true); ("useContentSize", SBool true);
                  ("titleBarStyle", SStr "hidden");
                  ("autoHideMenuBar", SBool true)] |} |}.

Definition withElectron (f : Opts.Electron -> Opts.Electron) (o : Opts.t) : Opts.t :=
  Opts.mk (Opts.primary o) (Opts.isPopup o) (Opts.ownerId o) (Opts.isAvailable o)
    (Opts.url o) (Opts.show o) (Opts.useWeb3 o) (Opts.sendData o)
    (f <$> Opts.electronOptions o).

Definition setParent (p : ref) (eo : Opts.Electron) : Opts.Electron :=
  Opts.mkElectron (Opts.width eo) (Opts.height eo) (Opts.x eo) (Opts.y eo)
    (Some p) (Opts.webPreferences eo) (Opts.flags eo).

Definition setPreload (script : string) (eo : Opts.Electron) : Opts.Electron :=
  Opts.mkElectron (Opts.width eo) (Opts.height eo) (Opts.x eo) (Opts.y eo)
    (Opts.parent eo)
    ((fun wp => Opts.mkWebPreferences (Some script) (Opts.wp_flags wp))
       <$> Opts.webPreferences eo)
    (Opts.flags eo).

Definition markPopup (o : Opts.t) : Opts.t :=
  Opts.mk (Opts.primary o) (Some true) (Opts.ownerId o) (Opts.isAvailable o)
    (Opts.url o) (Opts.show o) (Opts.useWeb3 o) (Opts.sendData o)
    (Opts.electronOptions o).

(** Lines 426-465: the merged options of a popup.  [electronOptions] and
    its [webPreferences] come from [defaultPopupOpts], so the assignments
    of lines 454, 462 and 464 always find them
    ([popupOptions_electron]). *)
Definition popupOptions (type' : string) (options : Opts.t) (s : State) : Opts.t :=
  let opts :=
    Opts.deepExtend
      (Opts.deepExtend (defaultPopupOpts type') (getDefaultOptionsForType type'))
      options in
  let opts :=
    match getByType "main" s with
    | Some parent' => withElectron (setParent parent') opts
    | None => opts
    end in
  let opts := markPopup opts in
  if Opts.truthy (Opts.useWeb3 opts)
  then withElectron (setPreload (dirname G +:+ "/preloader/popupWindows.js")) opts
  else withElectron (setPreload (dirname G +:+ "/preloader/popupWindowsNoWeb3.js")) opts.

(** The recycling test of lines 468-469: the pooled handle, when there is
    one and it is available. *)
Definition availableGeneric (s : State) : option ref :=
  match getByType "genericWindow" s with
  | Some g => if holds s isAvailable g then Some g else None
  | None => None
  end.

(** Line 474.  [this.loading.show()] throws when [this.loading] is
    [undefined]: [None]. *)
Definition showLoading (type' : string) (s : State) : option State :=
  if String.eqb type' "genericWindow" then Some s
  else match loading s with
       | Some l => Some (show l s)
       | None => None
       end.

(** The value returned is a handle or [undefined]. *)
Definition createPopup (type' : string) (options : Opts.t)
  (callback' : option nat) (s : State) : completion (option ref) :=
  let opts := popupOptions type' options s in
  match availableGeneric s with
  | Some g =>
      (* lines 470-471: [reuse] returns nothing, and that is returned *)
      match reuse g type' opts callback' (dispatch (GENERIC_WINDOW_REUSE type') s) with
      | Return _ s' => Return None s'
      | Throw s' => Throw s'
      end
  | None =>
      match showLoading type' s with
      | None => Throw s
      | Some s1 =>
          match create type' opts callback' s1 with
          | Return wnd s2 => Return (Some wnd) (mutate wnd (awaitReady type') s2)
          | Throw s2 => Throw s2
          end
      end
  end.

(** ** [init], lines 202-237

    The listener that centers the loading window when it is shown does not
    touch the state modelled here; the ipc listener that records the
    toolkit's id of a window is [onSetWindowId] below. *)
Definition genericWindowOptions : Opts.t :=
  {| Opts.primary := None; Opts.isPopup := None; Opts.ownerId := None;
     Opts.isAvailable := Some true; Opts.url := None; Opts.show := Some false;
     Opts.useWeb3 := None; Opts.sendData := None;
     Opts.electronOptions :=
       Some (Opts.mkElectron None None None None None None
               [("isShown", SBool false)]) |}.

Definition init (s : State) : completion unit :=
  match create "loading" Opts.empty None s with
  | Throw s1 => Throw s1
  | Return l s1 =>
      let s2 := set_loading (Some l) s1 in
      match createPopup "genericWindow" genericWindowOptions None s2 with
      | Return g s3 => Return tt (dispatch WINDOWS_INIT_FINISH (set_genericWindow g s3))
      | Throw s3 => Throw s3
      end
  end.

End Registry.

(** The state of a freshly constructed registry (lines 197-199), the
    application not quitting. *)
Definition initial : State :=
  {| heap := []; _windows := []; loading := None; genericWindow := None;
     appQuit := false; dispatched := []; quitCalls := 0 |}.

(** ** Traces

    What can happen to the module: calls of its interface and events of the
    toolkit and the store. *)
Inductive action :=
| Init
| Create (type' : string) (opts : Opts.t) (callback' : option nat)
| CreatePopup (type' : string) (opts : Opts.t) (callback' : option nat)
| Load (r : ref) (url : string)
| Send (r : ref) (channel : string) (args : list scalar)
| Show (r : ref)
| Hide (r : ref)
| Close (r : ref)
| DidFinishLoad (r : ref)
| CloseRequest (r : ref)
| Closed (r : ref)
| Quitting (q : bool).

Definition step (G : Globals) (a : action) (s : State) : completion unit :=
  match a with
  | Init => init G s
  | Create t o c =>
      match create G t o c s with
      | Return _ s' => Return tt s'
      | Throw s' => Throw s'
      end
  | CreatePopup t o c =>
      match createPopup G t o c s with
      | Return _ s' => Return tt s'
      | Throw s' => Throw s'
      end
  | Load r u => Return tt (load r u s)
  | Send r c a => Return tt (send r c a s)
  | Show r => Return tt (show r s)
  | Hide r => Return tt (hide r s)
  | Close r => Return tt (close r s)
  | DidFinishLoad r => Return tt (ev_didFinishLoad r s)
  | CloseRequest r => Return tt (ev_close r s)
  | Closed r => Return tt (ev_closed r s)
  | Quitting q => Return tt (set_appQuit q s)
  end.

(** A trace runs until a call throws. *)
Fixpoint run (G : Globals) (tr : list action) (s : State) : completion unit :=
  match tr with
  | [] => Return tt s
  | a :: tr' =>
      match step G a s with
      | Return _ s' => run G tr' s'
      | Throw s' => Throw s'
      end
  end.

Definition final {A : Type} (c : completion A) : State :=
  match c with
  | Return _ s => s
  | Throw s => s
  end.

(** * Vocabulary of the proofs *)

(** ** Calls that leave the identity of every handle alone

    [keeps w w'] relates a handle before and after such a call: what the
    constructor fixed stays, and so do [isClosed] and the 'closed' listeners.
    Only availability, visibility, readiness, the native window's content
    and the pending 'ready' listeners may differ. *)

Definition popupReady (l : listener) : Prop :=
  match l with
  | OnPopupReady _ => True
  | OnWindowClosed _ => False
  end.

Record keeps (w w' : Window) : Prop := mkKeeps {
  keeps_type : type w' = type w;
  keeps_isPrimary : isPrimary w' = isPrimary w;
  keeps_isPopup : isPopup w' = isPopup w;
  keeps_ownerId : ownerId w' = ownerId w;
  keeps_callback : callback w' = callback w;
  keeps_isClosed : isClosed w' = isClosed w;
  keeps_closedOn : closedOn w' = closedOn w;
  keeps_destroyed : bw_destroyed (window w') = bw_destroyed (window w);
  keeps_options : bw_options (window w') = bw_options (window w);
  keeps_readyOnce : Forall popupReady (readyOnce w) -> Forall popupReady (readyOnce w')
}.

(** [quiet s s']: the registry, its two distinguished slots, the quit
    counter and the quitting flag are those of [s], no object has been
    constructed, and every handle keeps its identity.  Only the dispatch log
    may have grown. *)
Record quiet (s s' : State) : Prop := mkQuiet {
  quiet_windows : _windows s' = _windows s;
  quiet_loading : loading s' = loading s;
  quiet_generic : genericWindow s' = genericWindow s;
  quiet_appQuit : appQuit s' = appQuit s;
  quiet_quitCalls : quitCalls s' = quitCalls s;
  quiet_length : length (heap s') = length (heap s);
  quiet_keeps : forall r w, deref s r = Some w ->
                            exists w', deref s' r = Some w' /\ keeps w w'
}.

(** ** Well-formed states

    The registry is an object (no key twice); a registered handle exists, is
    registered under its own type and is not closed; every handle carries
    exactly the 'closed' listener [create] bound to it, only [createPopup]'s
    closures wait for its 'ready' event, and it counts as closed exactly
    when its native window is gone. *)

Record handle_ok (r : ref) (w : Window) : Prop := mkHandleOk {
  ok_closedOn : closedOn w = [OnWindowClosed r];
  ok_readyOnce : Forall popupReady (readyOnce w);
  ok_destroyed : bw_destroyed (window w) = isClosed w
}.

Record wf (s : State) : Prop := mkWf {
  wf_keys : List.NoDup (map fst (_windows s));
  wf_entries : forall k r, In (k, r) (_windows s) ->
               exists w, deref s r = Some w /\ type w = k /\ isClosed w = false;
  wf_handles : forall r w, deref s r = Some w -> handle_ok r w
}.

(** What lines 85-93 assign, as one update of the handle. *)
Definition closedHandle (w : Window) : Window :=
  set_isContentReady false
    (set_isClosed true (set_isShown false (native (bw_set_destroyed true) w))).

(** The object [createFresh] leaves in the store: the handle constructed
    with the electron options [eo], with the registry's 'closed' listener and
    the callback, if any. *)
Definition freshHandle (G : Globals) (type' : string) (options : Opts.t)
  (eo : Opts.Electron) (callback' : option nat) (wnd : ref) : Window :=
  let w := constructed G type' options eo in
  let w := set_closedOn (closedOn w ++ [OnWindowClosed wnd]) w in
  match callback' with
  | Some c => set_callback (Some c) w
  | None => w
  end.

(** The state [createFresh] leaves when the constructor has returned. *)
Definition registered (G : Globals) (type' : string) (options : Opts.t)
  (eo : Opts.Electron) (callback' : option nat) (s : State) : State :=
  dispatch (WINDOW_CREATE_FINISH type')
    (set__windows (obj_set type' (length (heap s)) (_windows s))
       (set_heap (heap s ++ [freshHandle G type' options eo callback' (length (heap s))])
          s)).

(** The value of a call that returned. *)
Definition returned {A : Type} (c : completion A) : option A :=
  match c with
  | Return v _ => Some v
  | Throw _ => None
  end.

(** The states the module can be in: whatever its callers and the toolkit
    do, starting from a fresh registry. *)
Inductive reachable (G : Globals) : State -> Prop :=
| reachable_initial : reachable G initial
| reachable_step a s : reachable G s -> reachable G (final (step G a s)).

(** * A concrete installation, used in the examples *)

Definition mist : Globals :=
  {| appName := "Mist";
     interfacePopupsUrl := "file:///app/interface/index.html";
     mode := "mist";
     dirname := "/app/modules";
     icon := "/app/icons/icon.png";
     defaultWindow_width := 1100%Z;
     defaultWindow_height := 720%Z;
     defaultWindow_x := None;
     defaultWindow_y := None |}.

(** After [init]: the loading window is handle 0, the pooled generic window
    handle 1. *)
Definition booted : State := final (run mist [Init] initial).

(** What [close] leaves of a "genericWindow" handle (lines 176-177). *)
Definition pooled (w : Window) : Window :=
  set_isAvailable true (set_isShown false (native (bw_set_visible false) w)).

(** What [reuse] leaves of an open handle (lines 188-191), given the
    [electronOptions] of its [options] argument. *)
Definition reused (options : Opts.t) (eo : Opts.Electron) (w : Window) : Window :=
  let w1 := set_isAvailable false w in
  let w2 := if Opts.truthyString (Opts.url options)
            then native (bw_set_url (default "" (Opts.url options))) w1
            else w1 in
  let w3 := native (bw_set_size (Opts.width eo, Opts.height eo)) w2 in
  native (fun b => bw_set_finishLoadOnce (bw_finishLoadOnce b ++ [OnReuseLoaded]) b) w3.

(** Is some registered handle of [s] primary, shown and not closed? *)
Definition primaryOpen (s : State) : Prop :=
  exists k r w, In (k, r) (_windows s) /\ deref s r = Some w
                /\ isPrimary w = true /\ isClosed w = false /\ isShown w = true.

(** [local r s s']: a quiet step that touched no handle but [r] and left the
    listeners waiting for the 'ready' event of [r] in place. *)
Record local (r : ref) (s s' : State) : Prop := mkLocal {
  local_quiet : quiet s s';
  local_others : forall r', r' <> r -> deref s' r' = deref s r';
  local_ready : forall w, deref s r = Some w ->
                          exists w', deref s' r = Some w' /\ readyOnce w' = readyOnce w
}.

(** "about" has been opened twice from [booted]: the first call recycled the
    pooled window (handle 1), the second constructed handle 2. *)
Definition busy : State :=
  final (run mist [Init; CreatePopup "about" Opts.empty None;
                   CreatePopup "about" Opts.empty None] initial).

(** The scenario of C7: after [init], "main" is created (handle 2) and
    shown, "about" is opened -- the pooled window, handle 1, is recycled --
    and then closed by [closeAbout]. *)
Definition scenario (closeAbout : action) : list action :=
  [Init; Create "main" Opts.empty None; Show 2;
   CreatePopup "about" Opts.empty None; DidFinishLoad 1; closeAbout].

(** [booted] with "main" created and shown. *)
Definition mainShown : State :=
  final (run mist [Init; Create "main" Opts.empty None; Show 2] initial).

(** * Further vocabulary *)

(** [constant w w']: a handle at two moments of its life.  What the
    constructor and [create] fixed is what it was, and a closed handle is
    still closed. *)
Record constant (w w' : Window) : Prop := mkConstant {
  constant_type : type w' = type w;
  constant_isPrimary : isPrimary w' = isPrimary w;
  constant_isPopup : isPopup w' = isPopup w;
  constant_ownerId : ownerId w' = ownerId w;
  constant_callback : callback w' = callback w;
  constant_options : bw_options (window w') = bw_options (window w);
  constant_closed : isClosed w = true -> isClosed w' = true
}.

(** [grows s s']: every handle of [s] is a handle of [s'], under the same
    reference. *)
Definition grows (s s' : State) : Prop :=
  forall r w, deref s r = Some w -> exists w', deref s' r = Some w' /\ constant w w'.

(** The actions through which the toolkit reports a window closing. *)
Definition closeEvent (a : action) : bool :=
  match a with
  | CloseRequest _ | Closed _ => true
  | _ => false
  end.

(** [show()] or [hide()], by the visibility asked for. *)
Definition setVisible (r : ref) (visible : bool) : State -> State :=
  if visible then show r else hide r.

(** Is [a] a call of one of the methods [load], [send], [show], [hide],
    [close] on the handle [r]? *)
Definition methodCall (r : ref) (a : action) : bool :=
  match a with
  | Load r' _ | Send r' _ _ | Show r' | Hide r' | Close r' => Nat.eqb r' r
  | _ => false
  end.

(** The cases of the [switch] of lines 287-421. *)
Definition knownTypes : list string :=
  ["main"; "splash"; "loading"; "onboardingScreen"; "about"; "remix";
   "importAccount"; "requestAccount"; "connectAccount";
   "sendTransactionConfirmation"; "updateAvailable"; "clientUpdateAvailable"].

(** The modes the "main" preset provides for: line 296 indexes a table with
    these two keys by [global.mode].  For any other mode the preset has
    [webPreferences: undefined], which the merges of lines 42 and 446 refuse
    to combine with an object. *)
Definition supportedMode (G : Globals) : Prop :=
  mode G = "mist" \/ mode G = "wallet".

(** A type that [this._windows[type] = wnd] stores as an own key of the
    registry: the assignment to "__proto__" sets the prototype instead. *)
Definition ownKey (type' : string) : Prop := type' <> "__proto__".

(** ** [broadcast], lines 506-514 *)
Definition broadcast (channel : string) (args : list scalar) (s : State) : State :=
  fold_left (fun acc kv => send (snd kv) channel args acc) (_windows s) s.

(** A handle whose web contents has been handed the messages [ms]. *)
Definition receives (ms : list message) (w : Window) : Window :=
  native (fun b => bw_set_received (bw_received b ++ ms) b) w.

(** The messages the constructor's closure sends when the content has
    loaded (lines 59-69): none for a falsy [sendData], the channel alone
    for a string, one message per own key, in order, for an object. *)
Definition initialMessages (d : option SendData) : list message :=
  match d with
  | Some (SendChannel c) => if String.eqb c "" then [] else [(c, [])]
  | Some (SendObject entries) => map (fun kv => (fst kv, [snd kv])) entries
  | None => []
  end.

(** ** The toolkit's id of a window

    [wnd.id] is the one field of a handle that only the registry assigns,
    from outside the class.  It is kept beside the store, as a function of
    the handle's reference; [None] is [undefined]. *)
Definition Ids : Type := ref -> option nat.

(** Lines 219-234, the ipc listener [init] installs.  [sender] is the handle
    whose native window [BrowserWindow.fromWebContents] returns for the
    sending web contents, if it is the window of a handle at all; the
    registry is searched for the handle with that very window. *)
Definition onSetWindowId (sender : option ref) (id : nat) (s : State)
  (ids : Ids) : Ids :=
  match sender with
  | Some bwnd =>
      match _find (fun r => Nat.eqb r bwnd) (_windows s) with
      | Some wnd => fun r => if Nat.eqb r wnd then Some id else ids r
      | None => ids
      end
  | None => ids
  end.

(** Lines 497-503.  The comparison is [===]: an [undefined] argument matches
    a handle whose id is not set. *)
Definition getById (id : option nat) (s : State) (ids : Ids) : option ref :=
  _find (fun r => bool_decide (ids r = id)) (_windows s).

(** * Properties *)

(** ** The store *)

Lemma deref_mutate r f s r' :
  deref (mutate r f s) r' =
  if decide (r = r') then f <$> deref s r' else deref s r'.
Proof.
  unfold deref, mutate; simpl.
  destruct (decide (r = r')) as [->|Hne].
  - apply list_lookup_alter_eq.
  - by apply list_lookup_alter_ne.
Qed.

Lemma deref_mutate_eq r f s : deref (mutate r f s) r = f <$> deref s r.
Proof. rewrite deref_mutate. by rewrite decide_True. Qed.

Lemma deref_mutate_ne r f s r' :
  r <> r' -> deref (mutate r f s) r' = deref s r'.
Proof. intros. rewrite deref_mutate. by rewrite decide_False. Qed.

Lemma deref_dispatch a s r : deref (dispatch a s) r = deref s r.
Proof. reflexivity. Qed.

Lemma deref_valid s r w : deref s r = Some w -> r < length (heap s).
Proof. apply lookup_lt_Some. Qed.

Lemma on_handle_some r body s w :
  deref s r = Some w -> on_handle r body s = body w s.
Proof. unfold on_handle, deref. by intros ->. Qed.

Lemma on_handle_none r body s :
  deref s r = None -> on_handle r body s = s.
Proof. unfold on_handle, deref. by intros ->. Qed.


Lemma keeps_refl w : keeps w w.
Proof. by constructor. Qed.

Lemma keeps_trans w1 w2 w3 : keeps w1 w2 -> keeps w2 w3 -> keeps w1 w3.
Proof.
  intros [] []; constructor; try congruence; auto.
Qed.


Lemma quiet_refl s : quiet s s.
Proof. constructor; eauto using keeps_refl. Qed.

Lemma quiet_trans s1 s2 s3 : quiet s1 s2 -> quiet s2 s3 -> quiet s1 s3.
Proof.
  intros [] []; constructor; try congruence.
  intros r w Hw.
  destruct (quiet_keeps0 r w Hw) as (w2 & Hw2 & K12).
  destruct (quiet_keeps1 r w2 Hw2) as (w3 & Hw3 & K23).
  eauto using keeps_trans.
Qed.

Lemma quiet_mutate r f s :
  (forall w, keeps w (f w)) -> quiet s (mutate r f s).
Proof.
  intros Hf. constructor; try reflexivity.
  - simpl. apply length_alter.
  - intros r' w Hw. rewrite deref_mutate.
    destruct (decide (r = r')); rewrite Hw; simpl; eauto using keeps_refl.
Qed.

Lemma keeps_awaitReady t w : keeps w (awaitReady t w).
Proof.
  constructor; try reflexivity.
  simpl. intros Hall. apply Forall_app. split; [done|]. by constructor.
Qed.

Lemma quiet_dispatch a s : quiet s (dispatch a s).
Proof. constructor; eauto using keeps_refl. Qed.

Lemma quiet_on_handle r body s :
  (forall w s0, quiet s0 (body w s0)) -> quiet s (on_handle r body s).
Proof.
  intros Hb. unfold on_handle. destruct (heap s !! r); auto using quiet_refl.
Qed.

Lemma quiet_fold {A : Type} (f : State -> A -> State) (l : list A) s :
  (forall a s0, quiet s0 (f s0 a)) -> quiet s (fold_left f l s).
Proof.
  intros Hf. revert s.
  induction l as [|a l IH]; intros s; simpl; [apply quiet_refl|].
  eapply quiet_trans; [apply Hf|apply IH].
Qed.

Create HintDb quiet.
#[local] Hint Resolve quiet_refl quiet_dispatch quiet_mutate : quiet.

Ltac keeps_field := intros ?; constructor; reflexivity || auto.

Lemma quiet_load r u s : quiet s (load r u s).
Proof.
  apply quiet_on_handle. intros w s0.
  destruct (isClosed w); [apply quiet_refl|].
  apply quiet_mutate. keeps_field.
Qed.

Lemma quiet_send r c a s : quiet s (send r c a s).
Proof.
  apply quiet_on_handle. intros w s0.
  destruct (isClosed w || negb (isContentReady w)); [apply quiet_refl|].
  apply quiet_mutate. keeps_field.
Qed.

Lemma quiet_hide r s : quiet s (hide r s).
Proof.
  apply quiet_on_handle. intros w s0.
  destruct (isClosed w); [apply quiet_refl|].
  eapply quiet_trans; apply quiet_mutate; keeps_field.
Qed.

Lemma quiet_show r s : quiet s (show r s).
Proof.
  apply quiet_on_handle. intros w s0.
  destruct (isClosed w); [apply quiet_refl|].
  eapply quiet_trans; apply quiet_mutate; keeps_field.
Qed.

Lemma quiet_close r s : quiet s (close r s).
Proof.
  apply quiet_on_handle. intros w s0.
  destruct (isClosed w); [apply quiet_refl|].
  destruct (String.eqb (type w) "genericWindow").
  - eapply quiet_trans; [apply quiet_hide|apply quiet_mutate; keeps_field].
  - apply quiet_mutate. keeps_field.
Qed.

Lemma quiet_reuse r t o c s : quiet s (final (reuse r t o c s)).
Proof.
  unfold reuse.
  assert (quiet s
            (if Opts.truthyString (Opts.url o)
             then load r (default "" (Opts.url o)) (mutate r (set_isAvailable false) s)
             else mutate r (set_isAvailable false) s)) as Q2.
  { destruct (Opts.truthyString (Opts.url o)).
    - eapply quiet_trans; [|apply quiet_load]. apply quiet_mutate. keeps_field.
    - apply quiet_mutate. keeps_field. }
  destruct (Opts.electronOptions o); simpl; [|exact Q2].
  eapply quiet_trans; [exact Q2|].
  eapply quiet_trans; apply quiet_mutate; keeps_field.
Qed.

#[local] Hint Resolve quiet_load quiet_send quiet_hide quiet_show quiet_close : quiet.

(** ** Objects used as maps *)

Lemma obj_set_keys {A : Type} (k : string) (v : A) (o : jsobject A) k' :
  In k' (map fst (obj_set k v o)) <-> k' = k \/ In k' (map fst o).
Proof.
  induction o as [|[k0 v0] o IH]; simpl.
  - naive_solver.
  - destruct (String.eqb_spec k0 k) as [->|Hne]; simpl; [naive_solver|].
    rewrite IH. naive_solver.
Qed.

Lemma obj_set_NoDup {A : Type} (k : string) (v : A) (o : jsobject A) :
  List.NoDup (map fst o) -> List.NoDup (map fst (obj_set k v o)).
Proof.
  induction o as [|[k0 v0] o IH]; simpl; intros Hnd.
  - constructor; [simpl; tauto|constructor].
  - inversion_clear Hnd as [|? ? Hnotin Hnd'].
    destruct (String.eqb_spec k0 k) as [->|Hne]; simpl.
    + by constructor.
    + constructor; [|auto].
      rewrite obj_set_keys. naive_solver.
Qed.

Lemma obj_set_In {A : Type} (k : string) (v : A) (o : jsobject A) k' v' :
  List.NoDup (map fst o) ->
  In (k', v') (obj_set k v o) ->
  (k' = k /\ v' = v) \/ (k' <> k /\ In (k', v') o).
Proof.
  induction o as [|[k0 v0] o IH]; simpl; intros Hnd.
  - naive_solver.
  - inversion_clear Hnd as [|? ? Hnotin Hnd'].
    destruct (String.eqb_spec k0 k) as [->|Hne]; simpl.
    + intros [Heq|Hin]; [naive_solver|].
      right. split; [|by right].
      intros ->. apply Hnotin. by apply (in_map fst _ (k, v')).
    + intros [Heq|Hin]; [naive_solver|].
      destruct (IH Hnd' Hin); naive_solver.
Qed.

Lemma obj_set_In_new {A : Type} (k : string) (v : A) (o : jsobject A) :
  In (k, v) (obj_set k v o).
Proof.
  induction o as [|[k0 v0] o IH]; simpl; [tauto|].
  destruct (String.eqb k0 k); simpl; tauto.
Qed.

Lemma removeWindow_In wnd ws k r :
  In (k, r) (removeWindow wnd ws) -> In (k, r) ws.
Proof.
  induction ws as [|[k0 r0] ws IH]; simpl; [tauto|].
  destruct (Nat.eqb r0 wnd); simpl; naive_solver.
Qed.

Lemma removeWindow_other wnd ws k r :
  r <> wnd -> In (k, r) ws -> In (k, r) (removeWindow wnd ws).
Proof.
  intros Hne. induction ws as [|[k0 r0] ws IH]; simpl; [tauto|].
  destruct (Nat.eqb_spec r0 wnd) as [->|]; simpl; naive_solver.
Qed.

Lemma removeWindow_keys wnd ws k :
  In k (map fst (removeWindow wnd ws)) -> In k (map fst ws).
Proof.
  rewrite !in_map_iff. intros ([k' r] & <- & Hin).
  exists (k', r). eauto using removeWindow_In.
Qed.

Lemma removeWindow_NoDup wnd ws :
  List.NoDup (map fst ws) -> List.NoDup (map fst (removeWindow wnd ws)).
Proof.
  induction ws as [|[k0 r0] ws IH]; simpl; intros Hnd; [constructor|].
  inversion_clear Hnd as [|? ? Hnotin Hnd'].
  destruct (Nat.eqb r0 wnd); simpl; [done|].
  constructor; [|auto].
  intros Hin. by apply Hnotin, (removeWindow_keys wnd).
Qed.

Lemma removeWindow_gone wnd ws :
  List.NoDup (map snd ws) -> ~ In wnd (map snd (removeWindow wnd ws)).
Proof.
  induction ws as [|[k0 r0] ws IH]; simpl; intros Hnd; [tauto|].
  inversion_clear Hnd as [|? ? Hnotin Hnd'].
  destruct (Nat.eqb_spec r0 wnd) as [->|Hne]; simpl; [done|].
  intros [?|Hin]; [done|]. by apply IH.
Qed.

Lemma removeWindow_absent wnd ws :
  ~ In wnd (map snd ws) -> removeWindow wnd ws = ws.
Proof.
  induction ws as [|[k0 r0] ws IH]; simpl; intros Hnotin; [done|].
  destruct (Nat.eqb_spec r0 wnd) as [->|Hne]; [tauto|].
  f_equal. apply IH. tauto.
Qed.

(** ** [_.find] over the registry *)

Lemma _find_Some {A : Type} (p : A -> bool) (o : jsobject A) v :
  _find p o = Some v -> exists k, In (k, v) o /\ p v = true.
Proof.
  unfold _find. destruct (List.find _ o) as [[k v']|] eqn:Hf; simpl; [|done].
  intros [= <-]. apply find_some in Hf. naive_solver.
Qed.

Lemma _find_None {A : Type} (p : A -> bool) (o : jsobject A) :
  _find p o = None <-> forall k v, In (k, v) o -> p v = false.
Proof.
  unfold _find. split.
  - destruct (List.find _ o) eqn:Hf; simpl; [done|].
    intros _ k v Hin. by apply (find_none _ _ Hf (k, v)).
  - intros Hall. destruct (List.find _ o) as [[k v]|] eqn:Hf; simpl; [|done].
    apply find_some in Hf as [Hin Hp]. simpl in Hp.
    rewrite (Hall k v Hin) in Hp. done.
Qed.

Lemma _find_ext {A : Type} (p q : A -> bool) (o : jsobject A) :
  (forall k v, In (k, v) o -> p v = q v) -> _find p o = _find q o.
Proof.
  unfold _find. induction o as [|[k v] o IH]; simpl; intros Hext; [done|].
  rewrite <- (Hext k v) by tauto.
  destruct (p v); [done|]. apply IH. intros k' v' Hin. apply (Hext k'). tauto.
Qed.

Lemma _find_is_Some {A : Type} (p : A -> bool) (o : jsobject A) k v :
  In (k, v) o -> p v = true -> is_Some (_find p o).
Proof.
  intros Hin Hp. destruct (_find p o) eqn:Hf; [eauto|].
  rewrite _find_None in Hf. rewrite (Hf k v Hin) in Hp. done.
Qed.

(** When the predicate singles out one key, the value under that key is
    found. *)
Lemma _find_key {A : Type} (p : A -> bool) (o : jsobject A) k v :
  List.NoDup (map fst o) ->
  (forall k' v', In (k', v') o -> p v' = String.eqb k' k) ->
  In (k, v) o ->
  _find p o = Some v.
Proof.
  unfold _find. induction o as [|[k0 v0] o IH]; simpl; intros Hnd Hp Hin; [done|].
  inversion_clear Hnd as [|? ? Hnotin Hnd'].
  rewrite (Hp k0 v0) by tauto.
  destruct (String.eqb_spec k0 k) as [->|Hne]; simpl.
  - destruct Hin as [[= ->]|Hin]; [done|].
    exfalso. apply Hnotin. by apply (in_map fst _ (k, v)).
  - apply IH; [done| |naive_solver].
    intros k' v' Hin'. apply Hp. tauto.
Qed.

Lemma holds_quiet s s' (p : Window -> bool) r :
  quiet s s' ->
  (forall w w', keeps w w' -> p w' = p w) ->
  is_Some (deref s r) ->
  holds s' p r = holds s p r.
Proof.
  intros Q Hp [w Hw]. unfold holds.
  destruct (quiet_keeps _ _ Q r w Hw) as (w' & Hw' & K).
  rewrite Hw, Hw'. eauto.
Qed.


Lemma wf_initial : wf initial.
Proof.
  constructor; simpl.
  - constructor.
  - tauto.
  - intros r w. unfold deref. simpl. by rewrite lookup_nil.
Qed.

Lemma quiet_back s s' r w' :
  quiet s s' -> deref s' r = Some w' -> exists w, deref s r = Some w /\ keeps w w'.
Proof.
  intros Q Hw'.
  assert (is_Some (deref s r)) as [w Hw].
  { apply lookup_lt_is_Some. rewrite <- (quiet_length _ _ Q).
    by apply (deref_valid s' r w'). }
  destruct (quiet_keeps _ _ Q r w Hw) as (w2 & Hw2 & K).
  exists w. split; [done|]. congruence.
Qed.

Lemma handle_ok_keeps r w w' : handle_ok r w -> keeps w w' -> handle_ok r w'.
Proof.
  intros [] []. constructor; try congruence; auto.
Qed.

Lemma wf_quiet s s' : wf s -> quiet s s' -> wf s'.
Proof.
  intros [Hk He Hh] Q. constructor.
  - by rewrite (quiet_windows _ _ Q).
  - intros k r Hin. rewrite (quiet_windows _ _ Q) in Hin.
    destruct (He k r Hin) as (w & Hw & Ht & Hc).
    destruct (quiet_keeps _ _ Q r w Hw) as (w' & Hw' & K).
    exists w'. destruct K. repeat split; congruence.
  - intros r w' Hw'.
    destruct (quiet_back _ _ _ _ Q Hw') as (w & Hw & K).
    eauto using handle_ok_keeps.
Qed.

Lemma wf_same_key s k1 k2 r :
  wf s -> In (k1, r) (_windows s) -> In (k2, r) (_windows s) -> k1 = k2.
Proof.
  intros W H1 H2.
  destruct (wf_entries _ W k1 r H1) as (w1 & Hw1 & <- & _).
  destruct (wf_entries _ W k2 r H2) as (w2 & Hw2 & <- & _).
  congruence.
Qed.

Lemma NoDup_values {A : Type} (o : jsobject A) :
  List.NoDup (map fst o) ->
  (forall k1 k2 v, In (k1, v) o -> In (k2, v) o -> k1 = k2) ->
  List.NoDup (map snd o).
Proof.
  induction o as [|[k v] o IH]; simpl; intros Hnd Hsame; [constructor|].
  inversion_clear Hnd as [|? ? Hnotin Hnd'].
  constructor.
  - rewrite in_map_iff. intros ([k' v'] & Heq & Hin). simpl in Heq. subst v'.
    apply Hnotin. rewrite (Hsame k k' v); [|tauto|tauto].
    by apply (in_map fst _ (k', v)).
  - apply IH; [done|]. intros k1 k2 v' H1 H2. apply (Hsame k1 k2 v'); tauto.
Qed.

Lemma wf_values s : wf s -> List.NoDup (map snd (_windows s)).
Proof.
  intros W. apply NoDup_values; [apply W|].
  intros k1 k2 r. apply wf_same_key, W.
Qed.

(** In a well-formed state the lookup by type is the lookup by key. *)
Lemma wf_getByType s k r :
  wf s -> In (k, r) (_windows s) -> getByType k s = Some r.
Proof.
  intros W Hin. unfold getByType.
  apply (_find_key _ _ k); [apply W| |done].
  intros k' r' Hin'. unfold holds.
  destruct (wf_entries _ W k' r' Hin') as (w & -> & <- & _). done.
Qed.

Lemma getByType_Some t s r :
  getByType t s = Some r ->
  exists k w, In (k, r) (_windows s) /\ deref s r = Some w /\ type w = t.
Proof.
  unfold getByType. intros Hf.
  apply _find_Some in Hf as (k & Hin & Hp). unfold holds in Hp.
  destruct (deref s r) as [w|] eqn:Hw; [|done].
  apply String.eqb_eq in Hp. eauto.
Qed.

Lemma wf_getByType_In s t r :
  wf s -> getByType t s = Some r -> In (t, r) (_windows s).
Proof.
  intros W Hg. apply getByType_Some in Hg as (k & w & Hin & Hw & Ht).
  destruct (wf_entries _ W k r Hin) as (w' & Hw' & Hk & _).
  congruence.
Qed.

Lemma getByType_quiet t s s' :
  wf s -> quiet s s' -> getByType t s' = getByType t s.
Proof.
  intros W Q. unfold getByType. rewrite (quiet_windows _ _ Q).
  apply _find_ext. intros k r Hin.
  apply (holds_quiet s s'); [done| |].
  - intros w w' K. by rewrite (keeps_type _ _ K).
  - destruct (wf_entries _ W k r Hin) as (w & Hw & _). eauto.
Qed.

(** ** The shutdown policy keeps states well-formed *)

Lemma heap_onWindowClosed wnd s : heap (_onWindowClosed wnd s) = heap s.
Proof.
  unfold _onWindowClosed. by destruct (_find _ _).
Qed.

Lemma windows_onWindowClosed wnd s :
  _windows (_onWindowClosed wnd s) = removeWindow wnd (_windows s).
Proof.
  unfold _onWindowClosed. by destruct (_find _ _).
Qed.

Lemma deref_onWindowClosed wnd s r : deref (_onWindowClosed wnd s) r = deref s r.
Proof. unfold deref. by rewrite heap_onWindowClosed. Qed.

Lemma wf_onWindowClosed wnd s : wf s -> wf (_onWindowClosed wnd s).
Proof.
  intros W. constructor.
  - rewrite windows_onWindowClosed. apply removeWindow_NoDup, W.
  - intros k r. rewrite windows_onWindowClosed, deref_onWindowClosed.
    intros Hin. apply (wf_entries _ W), (removeWindow_In wnd), Hin.
  - intros r w. rewrite deref_onWindowClosed. apply W.
Qed.

(** ** Events *)

Lemma quiet_run_listener l s : popupReady l -> quiet s (run_listener l s).
Proof.
  destruct l as [wnd|t]; simpl; [tauto|]. intros _.
  destruct (String.eqb t "genericWindow"); [apply quiet_refl|].
  destruct (loading s); auto with quiet.
Qed.

Lemma quiet_emit ls s : Forall popupReady ls -> quiet s (emit ls s).
Proof.
  unfold emit. intros Hall. revert s.
  induction Hall as [|l ls Hl _ IH]; intros s; simpl; [apply quiet_refl|].
  eapply quiet_trans; [by apply quiet_run_listener|apply IH].
Qed.

Lemma quiet_emit_ready r s : wf s -> quiet s (emit_ready r s).
Proof.
  intros W. unfold emit_ready, on_handle.
  destruct (heap s !! r) as [w|] eqn:Hw; [|apply quiet_refl].
  eapply quiet_trans; [|apply quiet_emit, (wf_handles _ W r w Hw)].
  apply quiet_mutate. intros w0. constructor; try reflexivity.
  intros _. constructor.
Qed.

Lemma quiet_fold_wf {A : Type} (f : State -> A -> State) (l : list A) s :
  (forall a s0, wf s0 -> quiet s0 (f s0 a)) -> wf s -> quiet s (fold_left f l s).
Proof.
  intros Hf. revert s.
  induction l as [|a l IH]; intros s W; simpl; [apply quiet_refl|].
  eapply quiet_trans; [by apply Hf|].
  apply IH. eapply wf_quiet; [exact W|by apply Hf].
Qed.

Lemma quiet_sendInitialData r d s : quiet s (sendInitialData r d s).
Proof.
  unfold sendInitialData.
  destruct (Opts.truthySendData d); [|apply quiet_refl].
  destruct d as [[c|entries]|]; auto with quiet.
  apply quiet_fold. auto with quiet.
Qed.

Lemma quiet_run_wc_listener r l s : wf s -> quiet s (run_wc_listener r l s).
Proof.
  intros W. destruct l as [d sh|]; simpl; [|apply quiet_show].
  assert (quiet s (mutate r (set_isContentReady true) s)) as Q1
    by (apply quiet_mutate; keeps_field).
  assert (quiet s (sendInitialData r d (mutate r (set_isContentReady true) s))) as Q2
    by (eapply quiet_trans; [exact Q1|apply quiet_sendInitialData]).
  destruct sh.
  - assert (quiet s (show r (sendInitialData r d
                               (mutate r (set_isContentReady true) s)))) as Q3
      by (eapply quiet_trans; [exact Q2|apply quiet_show]).
    eapply quiet_trans; [exact Q3|]. apply quiet_emit_ready. eauto using wf_quiet.
  - eapply quiet_trans; [exact Q2|]. apply quiet_emit_ready. eauto using wf_quiet.
Qed.

Lemma quiet_ev_didFinishLoad r s : wf s -> quiet s (ev_didFinishLoad r s).
Proof.
  intros W. unfold ev_didFinishLoad, on_handle.
  destruct (heap s !! r) as [w|]; [|apply quiet_refl].
  destruct (bw_destroyed (window w)); [apply quiet_refl|].
  assert (quiet s (mutate r (native (bw_set_finishLoadOnce [])) s)) as Q1
    by (apply quiet_mutate; keeps_field).
  eapply quiet_trans; [exact Q1|].
  apply quiet_fold_wf; [|eauto using wf_quiet].
  intros l s0. apply quiet_run_wc_listener.
Qed.


Lemma mutate_mutate r f g s : mutate r f (mutate r g s) = mutate r (f ∘ g) s.
Proof.
  unfold mutate, set_heap; simpl. f_equal. apply list_alter_alter_eq.
Qed.

Lemma ev_closed_unfold r s w :
  deref s r = Some w -> bw_destroyed (window w) = false ->
  ev_closed r s = emit (closedOn w) (mutate r closedHandle s).
Proof.
  intros Hw Hd. unfold ev_closed. rewrite (on_handle_some _ _ _ _ Hw), Hd.
  by rewrite !mutate_mutate.
Qed.

Lemma wf_ev_closed r s : wf s -> wf (ev_closed r s).
Proof.
  intros W. destruct (deref s r) as [w|] eqn:Hw;
    [|by unfold ev_closed; rewrite on_handle_none].
  destruct (bw_destroyed (window w)) eqn:Hd.
  { unfold ev_closed. by rewrite (on_handle_some _ _ _ _ Hw), Hd. }
  rewrite (ev_closed_unfold _ _ _ Hw Hd).
  rewrite (ok_closedOn _ _ (wf_handles _ W r w Hw)). simpl.
  constructor.
  - rewrite windows_onWindowClosed. apply removeWindow_NoDup, W.
  - intros k r'. rewrite windows_onWindowClosed, deref_onWindowClosed. simpl.
    intros Hin.
    assert (r' <> r) as Hne.
    { intros ->. apply (removeWindow_gone r (_windows s) (wf_values _ W)).
      by apply (in_map snd _ (k, r)). }
    rewrite deref_mutate_ne by done.
    apply (wf_entries _ W), (removeWindow_In r), Hin.
  - intros r' w'. rewrite deref_onWindowClosed, deref_mutate.
    destruct (decide (r = r')) as [<-|Hne]; [|apply W].
    rewrite Hw. intros [= <-].
    destruct (wf_handles _ W r w Hw). by constructor.
Qed.

Lemma wf_ev_close r s : wf s -> wf (ev_close r s).
Proof.
  intros W. unfold ev_close, on_handle.
  destruct (heap s !! r) as [w|]; [|done].
  destruct (bw_destroyed (window w)); [done|].
  assert (wf (mutate r (native (bw_set_closeRequested false)) s)) as W1.
  { eapply wf_quiet; [exact W|]. apply quiet_mutate. keeps_field. }
  destruct (String.eqb (type w) "genericWindow" && negb (appQuit _)).
  - eapply wf_quiet; [exact W1|apply quiet_close].
  - by apply wf_ev_closed.
Qed.

(** ** Construction *)

Section Construction.

Variable G : Globals.


Lemma createFresh_eq t o eo c s :
  Opts.electronOptions o = Some eo ->
  createFresh G t o c s = Return (length (heap s)) (registered G t o eo c s).
Proof.
  intros He. unfold createFresh, new_Window, registered, freshHandle.
  rewrite He. f_equal.
  destruct c as [c|]; unfold mutate, dispatch, set__windows, set_heap; simpl;
    repeat (rewrite alter_app_r_alt by lia; rewrite Nat.sub_diag; simpl);
    reflexivity.
Qed.

Lemma createFresh_throws t o c s :
  Opts.electronOptions o = None -> createFresh G t o c s = Throw s.
Proof. intros He. unfold createFresh, new_Window. by rewrite He. Qed.

Lemma wf_same s s' :
  heap s' = heap s -> _windows s' = _windows s -> wf s -> wf s'.
Proof.
  intros Hh Hw [Hk He Hr]. unfold deref in *.
  constructor; unfold deref; rewrite ?Hh, ?Hw; auto.
Qed.

Lemma deref_registered_old t o eo c s r w :
  deref s r = Some w -> deref (registered G t o eo c s) r = Some w.
Proof.
  intros Hw. unfold deref, registered in *. simpl.
  rewrite lookup_app_l; [done|]. by apply lookup_lt_Some in Hw.
Qed.

Lemma deref_registered_new t o eo c s :
  deref (registered G t o eo c s) (length (heap s)) =
  Some (freshHandle G t o eo c (length (heap s))).
Proof.
  unfold deref, registered. simpl.
  by rewrite list_lookup_middle.
Qed.

Lemma deref_registered_inv t o eo c s r w :
  deref (registered G t o eo c s) r = Some w ->
  deref s r = Some w \/
  (r = length (heap s) /\ w = freshHandle G t o eo c (length (heap s))).
Proof.
  unfold deref, registered. simpl.
  rewrite lookup_app_Some. intros [?|[Hge Hw]]; [by left|right].
  apply list_lookup_singleton_Some in Hw as [Hz <-].
  split; [lia|done].
Qed.

Lemma constructed_destroyed t o eo :
  bw_destroyed (window (constructed G t o eo)) = false.
Proof.
  unfold constructed. simpl. by destruct (Opts.truthyString (Opts.url o)).
Qed.

Lemma freshHandle_ok t o eo c wnd : handle_ok wnd (freshHandle G t o eo c wnd).
Proof.
  unfold freshHandle.
  destruct c; constructor; try reflexivity; try apply Forall_nil_2;
    apply constructed_destroyed.
Qed.

Lemma freshHandle_type t o eo c wnd : type (freshHandle G t o eo c wnd) = t.
Proof. unfold freshHandle. by destruct c. Qed.

Lemma freshHandle_isClosed t o eo c wnd :
  isClosed (freshHandle G t o eo c wnd) = false.
Proof. unfold freshHandle. by destruct c. Qed.

Lemma wf_registered t o eo c s : wf s -> wf (registered G t o eo c s).
Proof.
  intros W. constructor.
  - unfold registered. simpl. apply obj_set_NoDup, W.
  - intros k r Hin.
    assert (In (k, r) (obj_set t (length (heap s)) (_windows s))) as Hin'
      by exact Hin.
    apply obj_set_In in Hin' as [[-> ->]|[Hne Hold]]; [| |apply W].
    + exists (freshHandle G t o eo c (length (heap s))).
      rewrite deref_registered_new.
      by rewrite freshHandle_type, freshHandle_isClosed.
    + destruct (wf_entries _ W k r Hold) as (w & Hw & Ht & Hc).
      exists w. eauto using deref_registered_old.
  - intros r w Hw.
    apply deref_registered_inv in Hw as [Hw|[-> ->]]; [by apply W|].
    apply freshHandle_ok.
Qed.

Lemma wf_createFresh t o c s : wf s -> wf (final (createFresh G t o c s)).
Proof.
  intros W. destruct (Opts.electronOptions o) as [eo|] eqn:He.
  - rewrite (createFresh_eq _ _ _ _ _ He). by apply wf_registered.
  - by rewrite (createFresh_throws _ _ _ _ He).
Qed.

Lemma wf_create t o c s : wf s -> wf (final (create G t o c s)).
Proof.
  intros W. unfold create.
  assert (wf (dispatch (WINDOW_CREATE_START t) s)) as W0
    by (eapply wf_quiet; [exact W|apply quiet_dispatch]).
  destruct (existingFor _ _ _); [done|].
  by apply wf_createFresh.
Qed.

Lemma wf_createPopup t o c s : wf s -> wf (final (createPopup G t o c s)).
Proof.
  intros W. unfold createPopup.
  destruct (availableGeneric s) as [g|].
  - set (s0 := dispatch (GENERIC_WINDOW_REUSE t) s).
    assert (wf (final (reuse g t (popupOptions G t o s) c s0))) as Wr.
    { eapply wf_quiet; [exact W|].
      eapply quiet_trans; [apply quiet_dispatch|apply quiet_reuse]. }
    by destruct (reuse g t _ c s0).
  - assert (forall s1, wf s1 ->
              wf (final (match create G t (popupOptions G t o s) c s1 with
                         | Return wnd s2 =>
                             Return (Some wnd) (mutate wnd (awaitReady t) s2)
                         | Throw s2 => Throw s2
                         end))) as Hrest.
    { intros s1 W1.
      pose proof (wf_create t (popupOptions G t o s) c s1 W1) as W2.
      destruct (create G t (popupOptions G t o s) c s1) as [wnd s2|s2];
        simpl in *; [|done].
      eapply wf_quiet; [exact W2|]. apply quiet_mutate, keeps_awaitReady. }
    unfold showLoading.
    destruct (String.eqb t "genericWindow"); [by apply Hrest|].
    destruct (loading s) as [l|]; [|done].
    apply Hrest. eapply wf_quiet; [exact W|apply quiet_show].
Qed.

Lemma wf_init s : wf s -> wf (final (init G s)).
Proof.
  intros W. unfold init.
  pose proof (wf_create "loading" Opts.empty None s W) as W1.
  destruct (create G "loading" Opts.empty None s) as [l s1|s1]; simpl in W1;
    [|done].
  assert (wf (set_loading (Some l) s1)) as W2 by (by apply (wf_same s1)).
  pose proof (wf_createPopup "genericWindow" (genericWindowOptions) None _ W2) as W3.
  destruct (createPopup G "genericWindow" genericWindowOptions None _) as [g s3|s3];
    simpl in *; [|done].
  by apply (wf_same s3).
Qed.

Lemma wf_step a s : wf s -> wf (final (step G a s)).
Proof.
  intros W. destruct a; simpl.
  - by apply wf_init.
  - pose proof (wf_create type' opts callback' s W) as W'.
    by destruct (create G type' opts callback' s).
  - pose proof (wf_createPopup type' opts callback' s W) as W'.
    by destruct (createPopup G type' opts callback' s).
  - eapply wf_quiet; [exact W|apply quiet_load].
  - eapply wf_quiet; [exact W|apply quiet_send].
  - eapply wf_quiet; [exact W|apply quiet_show].
  - eapply wf_quiet; [exact W|apply quiet_hide].
  - eapply wf_quiet; [exact W|apply quiet_close].
  - eapply wf_quiet; [exact W|by apply quiet_ev_didFinishLoad].
  - by apply wf_ev_close.
  - by apply wf_ev_closed.
  - by apply (wf_same s).
Qed.


Lemma reachable_wf s : reachable G s -> wf s.
Proof.
  induction 1 as [|a s _ IH]; [apply wf_initial|by apply wf_step].
Qed.

Lemma run_final_reachable tr s :
  reachable G s -> reachable G (final (run G tr s)).
Proof.
  revert s. induction tr as [|a tr IH]; intros s R; simpl; [done|].
  pose proof (reachable_step G a s R) as R'.
  destruct (step G a s) as [[] s'|s']; simpl in *; [by apply IH|done].
Qed.

End Construction.

Lemma booted_reachable : reachable mist booted.
Proof. apply run_final_reachable, reachable_initial. Qed.

Lemma booted_wf : wf booted.
Proof. apply (reachable_wf mist), booted_reachable. Qed.

(** ** The shutdown decision *)

Lemma stillOpen_true w :
  stillOpen w = true <-> isPrimary w = true /\ isClosed w = false /\ isShown w = true.
Proof.
  unfold stillOpen. destruct (isPrimary w), (isClosed w), (isShown w); naive_solver.
Qed.

Lemma anyOpen_Some s :
  is_Some (_find (holds s stillOpen) (_windows s)) <-> primaryOpen s.
Proof.
  split.
  - intros [r Hf]. apply _find_Some in Hf as (k & Hin & Hp).
    unfold holds in Hp. destruct (deref s r) as [w|] eqn:Hw; [|done].
    exists k, r, w. by rewrite <- stillOpen_true.
  - intros (k & r & w & Hin & Hw & Hopen).
    apply (_find_is_Some _ _ k r Hin). unfold holds. rewrite Hw.
    by apply stillOpen_true.
Qed.

Lemma windows_mutate r f s : _windows (mutate r f s) = _windows s.
Proof. reflexivity. Qed.

Lemma onWindowClosed_quit wnd s :
  (primaryOpen (_onWindowClosed wnd s) /\
   quitCalls (_onWindowClosed wnd s) = quitCalls s)
  \/ (~ primaryOpen (_onWindowClosed wnd s) /\
      quitCalls (_onWindowClosed wnd s) = S (quitCalls s)).
Proof.
  set (s1 := set__windows (removeWindow wnd (_windows s)) s).
  pose proof (anyOpen_Some s1) as Hopen.
  unfold _onWindowClosed. fold s1.
  destruct (_find (holds s1 stillOpen) (_windows s1)) as [r|] eqn:Hf.
  - left. split; [|done]. apply Hopen. eauto.
  - right. split; [|done].
    intros Hp. apply Hopen in Hp as [? ?]. done.
Qed.

(** C2. When the registry processes the closed event of a handle, the
    handle is removed from the windows map (every other entry stays), and
    then [app.quit()] is called -- once -- if and only if no remaining
    registered handle is primary, not closed and shown.  A primary handle
    that is hidden but not closed counts like a closed one: if every
    remaining primary handle is hidden or closed, the application quits.
    The state is the one the listener is called in: the handle itself has
    been marked closed by then (lines 88-90), and all that is asked of the
    registry is that no handle is registered twice. *)
Theorem onWindowClosed_quits_iff_no_primary_open (wnd : ref) (s : State) :
  List.NoDup (map snd (_windows s)) ->
  _windows (_onWindowClosed wnd s) = removeWindow wnd (_windows s)
  /\ ~ In wnd (map snd (_windows (_onWindowClosed wnd s)))
  /\ (forall k r, r <> wnd ->
        In (k, r) (_windows s) -> In (k, r) (_windows (_onWindowClosed wnd s)))
  /\ heap (_onWindowClosed wnd s) = heap s
  /\ (quitCalls (_onWindowClosed wnd s) = S (quitCalls s) <->
      ~ exists k r w,
          In (k, r) (_windows (_onWindowClosed wnd s))
          /\ deref (_onWindowClosed wnd s) r = Some w
          /\ isPrimary w = true /\ isClosed w = false /\ isShown w = true)
  /\ (quitCalls (_onWindowClosed wnd s) = quitCalls s <->
      exists k r w,
        In (k, r) (_windows (_onWindowClosed wnd s))
        /\ deref (_onWindowClosed wnd s) r = Some w
        /\ isPrimary w = true /\ isClosed w = false /\ isShown w = true)
  /\ ((forall k r w,
         In (k, r) (_windows (_onWindowClosed wnd s)) ->
         deref (_onWindowClosed wnd s) r = Some w ->
         isPrimary w = true -> isShown w = false \/ isClosed w = true) ->
      quitCalls (_onWindowClosed wnd s) = S (quitCalls s)).
Proof.
  intros W.
  pose proof (onWindowClosed_quit wnd s) as Hq.
  fold (primaryOpen (_onWindowClosed wnd s)).
  repeat split.
  - apply windows_onWindowClosed.
  - rewrite windows_onWindowClosed. apply removeWindow_gone, W.
  - intros k r Hne Hin. rewrite windows_onWindowClosed.
    by apply removeWindow_other.
  - apply heap_onWindowClosed.
  - intros Hs. destruct Hq as [[_ He]|[Hn _]]; [lia|done].
  - intros Hn. destruct Hq as [[Hp _]|[_ He]]; [done|done].
  - intros He. destruct Hq as [[Hp _]|[_ Hs]]; [done|lia].
  - intros Hp. destruct Hq as [[_ He]|[Hn _]]; [done|done].
  - intros Hall. destruct Hq as [[Hp _]|[_ Hs]]; [|done].
    destruct Hp as (k & r & w & Hin & Hw & Hpr & Hc & Hsh).
    destruct (Hall k r w Hin Hw Hpr); congruence.
Qed.

(** The toolkit reports 'closed' for the loading window of [booted]: the
    handler of lines 85-93 marks handle 0 closed and the registry's listener
    runs in that state.  Nothing primary is open, the application quits. *)
Lemma onWindowClosed_quits_iff_no_primary_open_witness :
  ev_closed 0 booted = _onWindowClosed 0 (mutate 0 closedHandle booted)
  /\ (isClosed <$> deref (mutate 0 closedHandle booted) 0) = Some true
  /\ List.NoDup (map snd (_windows (mutate 0 closedHandle booted)))
  /\ quitCalls (_onWindowClosed 0 (mutate 0 closedHandle booted)) = 1
  /\ ~ In 0 (map snd (_windows (_onWindowClosed 0 (mutate 0 closedHandle booted)))).
Proof.
  assert (List.NoDup (map snd (_windows (mutate 0 closedHandle booted)))) as Hnd
    by (rewrite windows_mutate; exact (wf_values booted booted_wf)).
  pose proof (onWindowClosed_quits_iff_no_primary_open 0
                (mutate 0 closedHandle booted) Hnd)
    as (_ & Hgone & _ & _ & _ & _ & Hquit).
  split; [by vm_compute|]. split; [by vm_compute|].
  split; [exact Hnd|]. split; [|exact Hgone].
  apply Hquit. vm_compute. intros k r w [[= <- <-]|[]] [= <-]. discriminate.
Defined.

(** C6 does not hold as stated: in [booted] the loading window (handle 0) is
    not primary, and no primary window is registered; when the user closes
    it, the registry processes its closed event and calls [app.quit()]. *)
Lemma nonprimary_closed_quits_counterexample :
  (isPrimary <$> deref booted 0) = Some false
  /\ quitCalls booted = 0
  /\ quitCalls (_onWindowClosed 0 booted) = 1
  /\ quitCalls (final (run mist [Init; CloseRequest 0] initial)) = 1.
Proof. vm_compute. auto. Qed.

(** C6, amended.  Processing the closed event of a non-primary handle does
    not call [app.quit()] exactly when some registered handle is primary,
    shown and not closed; when there is none, it does call it (once). *)
Theorem nonprimary_closed_quits_iff_no_primary_open (wnd : ref) (w : Window)
  (s : State) :
  deref s wnd = Some w ->
  isPrimary w = false ->
  (quitCalls (_onWindowClosed wnd s) = quitCalls s <->
   exists k r p, In (k, r) (_windows s) /\ deref s r = Some p
                 /\ isPrimary p = true /\ isClosed p = false /\ isShown p = true)
  /\ (quitCalls (_onWindowClosed wnd s) = S (quitCalls s) <->
      ~ exists k r p, In (k, r) (_windows s) /\ deref s r = Some p
                      /\ isPrimary p = true /\ isClosed p = false /\ isShown p = true).
Proof.
  intros Hw Hnp.
  fold (primaryOpen s).
  assert (primaryOpen (_onWindowClosed wnd s) <-> primaryOpen s) as Hsame.
  { unfold primaryOpen. setoid_rewrite windows_onWindowClosed.
    setoid_rewrite deref_onWindowClosed.
    split; intros (k & r & p & Hin & Hp & Hpr & Hrest).
    - exists k, r, p. eauto using removeWindow_In.
    - exists k, r, p. split; [|done].
      apply removeWindow_other; [|done]. intros ->. congruence. }
  destruct (onWindowClosed_quit wnd s) as [[Hp He]|[Hn Hs]].
  - split; split; intros; try lia; try tauto.
  - split; split; intros; try lia; try tauto.
Qed.

(** While "main" is shown, closing the loading window does not quit. *)
Lemma nonprimary_closed_quits_iff_no_primary_open_witness :
  (isPrimary <$> deref mainShown 0) = Some false
  /\ quitCalls (_onWindowClosed 0 mainShown) = quitCalls mainShown.
Proof.
  split; [reflexivity|].
  assert (exists w, deref mainShown 0 = Some w /\ isPrimary w = false)
    as (w & Hw & Hp) by (vm_compute; eauto).
  apply (nonprimary_closed_quits_iff_no_primary_open 0 w mainShown Hw Hp).
  assert (exists p, deref mainShown 2 = Some p
                    /\ isPrimary p = true /\ isClosed p = false /\ isShown p = true)
    as (p & Hp2 & Hrest) by (vm_compute; eauto 10).
  exists "main", 2, p. split; [|done].
  vm_compute. tauto.
Defined.

(** ** [send] *)

(** C8. A [send] on a handle that is closed or whose content is not ready
    returns normally and changes nothing: the message reaches no queue, so
    whatever happens afterwards -- the content finishing to load and 'ready'
    firing included -- happens as if the call had not been made. *)
Theorem send_dropped_when_closed_or_not_ready (G : Globals) (r : ref)
  (w : Window) (channel : string) (args : list scalar) (s : State) :
  deref s r = Some w ->
  isClosed w = true \/ isContentReady w = false ->
  step G (Send r channel args) s = Return tt s
  /\ send r channel args s = s
  /\ ev_didFinishLoad r (send r channel args s) = ev_didFinishLoad r s
  /\ (forall tr, run G tr (send r channel args s) = run G tr s).
Proof.
  intros Hw Hdrop.
  assert (send r channel args s = s) as Hs.
  { unfold send. rewrite (on_handle_some _ _ _ _ Hw).
    destruct Hdrop as [-> | ->]; [done|].
    by rewrite orb_true_r. }
  simpl. rewrite Hs. auto.
Qed.

(** The pooled window of [booted] has not finished loading. *)
Lemma send_dropped_when_closed_or_not_ready_witness :
  (isContentReady <$> deref booted 1) = Some false
  /\ send 1 "uiAction_test" [SNum 1] booted = booted
  /\ ev_didFinishLoad 1 (send 1 "uiAction_test" [SNum 1] booted)
     = ev_didFinishLoad 1 booted.
Proof.
  assert (exists w, deref booted 1 = Some w /\ isContentReady w = false)
    as (w & Hw & Hr) by (vm_compute; eauto).
  destruct (send_dropped_when_closed_or_not_ready
              mist 1 w "uiAction_test" [SNum 1] booted Hw (or_intror Hr))
    as (_ & Hs & Hl & _).
  split; [reflexivity|]. split; [exact Hs|exact Hl].
Defined.

(** On an open handle whose content is ready the message is handed to the
    web contents. *)
Lemma send_delivered r w channel args s :
  deref s r = Some w -> isClosed w = false -> isContentReady w = true ->
  (bw_received ∘ window <$> deref (send r channel args s) r)
  = Some (bw_received (window w) ++ [(channel, args)]).
Proof.
  intros Hw Hc Hr. unfold send.
  rewrite (on_handle_some _ _ _ _ Hw), Hc, Hr. simpl.
  by rewrite deref_mutate_eq, Hw.
Qed.

(** ** Closing the pooled window *)

Lemma hide_open r w s :
  deref s r = Some w -> isClosed w = false ->
  hide r s = mutate r (set_isShown false ∘ native (bw_set_visible false)) s.
Proof.
  intros Hw Hc. unfold hide.
  by rewrite (on_handle_some _ _ _ _ Hw), Hc, mutate_mutate.
Qed.

Lemma show_open r w s :
  deref s r = Some w -> isClosed w = false ->
  show r s = mutate r (set_isShown true ∘ native (bw_set_visible true)) s.
Proof.
  intros Hw Hc. unfold show.
  by rewrite (on_handle_some _ _ _ _ Hw), Hc, mutate_mutate.
Qed.

Lemma close_generic r w s :
  deref s r = Some w -> type w = "genericWindow" -> isClosed w = false ->
  close r s = mutate r pooled s.
Proof.
  intros Hw Ht Hc. unfold close.
  rewrite (on_handle_some _ _ _ _ Hw), Hc, Ht. simpl.
  by rewrite (hide_open r w s Hw Hc), mutate_mutate.
Qed.

Lemma ev_close_generic r w s :
  deref s r = Some w -> type w = "genericWindow" -> isClosed w = false ->
  bw_destroyed (window w) = false -> appQuit s = false ->
  ev_close r s = mutate r (pooled ∘ native (bw_set_closeRequested false)) s.
Proof.
  intros Hw Ht Hc Hd Hq. unfold ev_close.
  rewrite (on_handle_some _ _ _ _ Hw), Hd, Ht. simpl. rewrite Hq. simpl.
  rewrite (close_generic r (native (bw_set_closeRequested false) w)); try done.
  - by rewrite mutate_mutate.
  - by rewrite deref_mutate_eq, Hw.
Qed.

(** C3. A handle of type "genericWindow" that is open, in an application
    that is not quitting, receives a close request -- its [close()] method
    is called, or the toolkit delivers the native 'close' event.  Either way
    [isClosed] stays false, the handle ends hidden and available, its native
    window is neither destroyed nor asked to close, the registry keeps its
    entries, no other handle changes and [app.quit()] is not called; so the
    same holds of any further close request. *)
Theorem genericWindow_close_request_hides (r : ref) (w : Window) (s s' : State) :
  deref s r = Some w ->
  type w = "genericWindow" ->
  appQuit s = false ->
  isClosed w = false ->
  bw_destroyed (window w) = false ->
  s' = close r s \/ s' = ev_close r s ->
  (exists w',
     deref s' r = Some w'
     /\ isClosed w' = false
     /\ isShown w' = false
     /\ isAvailable w' = true
     /\ type w' = "genericWindow"
     /\ bw_visible (window w') = false
     /\ bw_destroyed (window w') = false
     /\ (bw_closeRequested (window w') = true -> bw_closeRequested (window w) = true))
  /\ _windows s' = _windows s
  /\ length (heap s') = length (heap s)
  /\ (forall r', r' <> r -> deref s' r' = deref s r')
  /\ quitCalls s' = quitCalls s
  /\ appQuit s' = appQuit s.
Proof.
  intros Hw Ht Hq Hc Hd [-> | ->].
  - rewrite (close_generic r w s Hw Ht Hc). split.
    + exists (pooled w). rewrite deref_mutate_eq, Hw. by repeat split.
    + repeat split; [apply length_alter|].
      intros r' Hne. by apply deref_mutate_ne.
  - rewrite (ev_close_generic r w s Hw Ht Hc Hd Hq). split.
    + exists (pooled (native (bw_set_closeRequested false) w)).
      rewrite deref_mutate_eq, Hw. by repeat split.
    + repeat split; [apply length_alter|].
      intros r' Hne. by apply deref_mutate_ne.
Qed.

(** The user clicks the close control of the pooled window of [booted]. *)
Lemma genericWindow_close_request_hides_witness :
  (type <$> deref booted 1) = Some "genericWindow"
  /\ appQuit booted = false
  /\ (isClosed <$> deref (ev_close 1 booted) 1) = Some false
  /\ _windows (ev_close 1 booted) = _windows booted.
Proof.
  assert (exists w, deref booted 1 = Some w /\ type w = "genericWindow"
                    /\ isClosed w = false /\ bw_destroyed (window w) = false)
    as (w & Hw & Ht & Hc & Hd) by (vm_compute; eauto 10).
  destruct (genericWindow_close_request_hides 1 w booted (ev_close 1 booted)
              Hw Ht eq_refl Hc Hd (or_intror eq_refl))
    as ((w' & Hw' & Hc' & _) & Hreg & _).
  split; [reflexivity|]. split; [reflexivity|]. split; [|exact Hreg].
  by rewrite Hw', <- Hc'.
Defined.

(** ** [create] and its dedup check *)

Section Create.

Variable G : Globals.

Lemma preset_ownerId t : Opts.ownerId (getDefaultOptionsForType G t) = None.
Proof.
  unfold getDefaultOptionsForType.
  repeat (match goal with
          | |- context [if ?b then _ else _] => destruct b
          end; try reflexivity).
Qed.

(** The owner [create] compares with is the caller's: no preset names
    one. *)
Lemma createOptions_ownerId t opts :
  Opts.ownerId (createOptions G t opts) = Opts.ownerId opts.
Proof.
  unfold createOptions. simpl. rewrite preset_ownerId.
  by destruct (Opts.ownerId opts).
Qed.

Lemma existingFor_registered t options s r w :
  wf s -> In (t, r) (_windows s) -> deref s r = Some w ->
  ownerId w = Opts.ownerId options ->
  existingFor t options s = Some r.
Proof.
  intros W Hin Hw Ho. unfold existingFor.
  rewrite (wf_getByType s t r W Hin). unfold holds. rewrite Hw.
  by rewrite bool_decide_eq_true_2.
Qed.

Lemma existingFor_Some t options s r :
  existingFor t options s = Some r ->
  exists k w, In (k, r) (_windows s) /\ deref s r = Some w /\ type w = t
              /\ ownerId w = Opts.ownerId options.
Proof.
  unfold existingFor. destruct (getByType t s) as [e|] eqn:Hg; [|done].
  destruct (holds s _ e) eqn:Hh; [|done]. intros [= ->].
  apply getByType_Some in Hg as (k & w & Hin & Hw & Ht).
  unfold holds in Hh. rewrite Hw in Hh. apply bool_decide_eq_true_1 in Hh.
  eauto 10.
Qed.

Lemma create_existing t opts c s r w :
  wf s -> In (t, r) (_windows s) -> deref s r = Some w ->
  ownerId w = Opts.ownerId opts ->
  create G t opts c s = Return r (dispatch (WINDOW_CREATE_START t) s).
Proof.
  intros W Hin Hw Ho. unfold create.
  rewrite (existingFor_registered t (createOptions G t opts) _ r w); try done.
  - eapply wf_quiet; [exact W|apply quiet_dispatch].
  - by rewrite createOptions_ownerId.
Qed.

Lemma create_fresh t opts c s :
  existingFor t (createOptions G t opts) s = None ->
  create G t opts c s =
  createFresh G t (createOptions G t opts) c (dispatch (WINDOW_CREATE_START t) s).
Proof.
  intros He. unfold create.
  change (existingFor t (createOptions G t opts) (dispatch (WINDOW_CREATE_START t) s))
    with (existingFor t (createOptions G t opts) s).
  by rewrite He.
Qed.

(** C5. [create(T, opts)] is called while a window of type [T] is
    registered whose [ownerId] is the requested one.  The call returns
    that handle; apart from the CREATE_START notice sent to the store the
    state is the one before the call: no handle or native window is
    constructed, the existing handle is the object it was, and the
    registry maps what it mapped. *)
Theorem create_returns_existing_for_same_owner (T : string) (opts : Opts.t)
  (callback' : option nat) (s : State) (k : string) (r : ref) (w : Window) :
  wf s ->
  In (k, r) (_windows s) ->
  deref s r = Some w ->
  type w = T ->
  ownerId w = Opts.ownerId opts ->
  create G T opts callback' s = Return r (dispatch (WINDOW_CREATE_START T) s)
  /\ heap (final (create G T opts callback' s)) = heap s
  /\ _windows (final (create G T opts callback' s)) = _windows s
  /\ deref (final (create G T opts callback' s)) r = Some w.
Proof.
  intros W Hin Hw Ht Ho.
  assert (k = T) as ->.
  { destruct (wf_entries _ W k r Hin) as (w' & Hw' & <- & _). congruence. }
  rewrite (create_existing T opts callback' s r w W Hin Hw Ho).
  by repeat split.
Qed.

(** The handle [create] returns is registered under the type asked for and
    has the owner asked for. *)
Lemma create_returned t opts c s r s1 :
  wf s -> create G t opts c s = Return r s1 ->
  exists w, In (t, r) (_windows s1) /\ deref s1 r = Some w
            /\ type w = t /\ ownerId w = Opts.ownerId opts.
Proof.
  intros W. unfold create.
  destruct (existingFor t (createOptions G t opts) _) as [e|] eqn:He.
  - intros [= -> <-].
    apply existingFor_Some in He as (k & w & Hin & Hw & Ht & Ho).
    assert (wf (dispatch (WINDOW_CREATE_START t) s)) as W0
      by (eapply wf_quiet; [exact W|apply quiet_dispatch]).
    destruct (wf_entries _ W0 k r Hin) as (w' & Hw' & Hk & _).
    assert (k = t) as -> by congruence.
    exists w. rewrite createOptions_ownerId in Ho.
    by repeat split.
  - destruct (Opts.electronOptions (createOptions G t opts)) as [eo|] eqn:Heo;
      [|by rewrite (createFresh_throws _ _ _ _ _ Heo)].
    rewrite (createFresh_eq _ _ _ _ _ _ Heo). intros [= <- <-].
    exists (freshHandle G t (createOptions G t opts) eo c (length (heap s))).
    split; [|split; [|split]].
    + unfold registered. simpl. apply obj_set_In_new.
    + apply (deref_registered_new G t _ eo c (dispatch (WINDOW_CREATE_START t) s)).
    + apply freshHandle_type.
    + unfold freshHandle. destruct c; simpl; apply createOptions_ownerId.
Qed.

(** Asking twice for the same type and owner gives the same handle, and
    the second call constructs nothing. *)
Lemma create_twice_same_handle t opts c c' s r s1 :
  wf s -> create G t opts c s = Return r s1 ->
  create G t opts c' s1 = Return r (dispatch (WINDOW_CREATE_START t) s1).
Proof.
  intros W Hc.
  pose proof (wf_create G t opts c s W) as W1. rewrite Hc in W1. simpl in W1.
  destruct (create_returned _ _ _ _ _ _ W Hc) as (w & Hin & Hw & _ & Ho).
  exact (create_existing t opts c' _ _ w W1 Hin Hw Ho).
Qed.

End Create.

(** The loading window of [booted] was created without an owner; asking for
    it again returns handle 0. *)
Lemma create_returns_existing_for_same_owner_witness :
  wf booted
  /\ In ("loading", 0) (_windows booted)
  /\ create mist "loading" Opts.empty None booted
     = Return 0 (dispatch (WINDOW_CREATE_START "loading") booted).
Proof.
  assert (exists w, deref booted 0 = Some w /\ type w = "loading"
                    /\ ownerId w = Opts.ownerId Opts.empty)
    as (w & Hw & Ht & Ho) by (vm_compute; eauto).
  assert (In ("loading", 0) (_windows booted)) as Hin by (vm_compute; tauto).
  destruct (create_returns_existing_for_same_owner
              mist "loading" Opts.empty None booted "loading" 0 w
              booted_wf Hin Hw Ht Ho) as (Hc & _).
  split; [exact booted_wf|]. split; [exact Hin|exact Hc].
Defined.

(** ** [reuse] and the recycling path of [createPopup] *)

Lemma load_open r w u s :
  deref s r = Some w -> isClosed w = false ->
  load r u s = mutate r (native (bw_set_url u)) s.
Proof.
  intros Hw Hc. unfold load. by rewrite (on_handle_some _ _ _ _ Hw), Hc.
Qed.

Lemma reuse_open r t options c s w eo :
  deref s r = Some w -> isClosed w = false ->
  Opts.electronOptions options = Some eo ->
  reuse r t options c s = Return tt (mutate r (reused options eo) s).
Proof.
  intros Hw Hc He. unfold reuse. rewrite He. f_equal.
  destruct (Opts.truthyString (Opts.url options)) eqn:Hu.
  - rewrite (load_open r (set_isAvailable false w));
      [|by rewrite deref_mutate_eq, Hw|done].
    rewrite !mutate_mutate. unfold mutate. f_equal.
    apply list_alter_ext; [|done]. intros w0 _. unfold reused. by rewrite Hu.
  - rewrite !mutate_mutate. unfold mutate. f_equal.
    apply list_alter_ext; [|done]. intros w0 _. unfold reused. by rewrite Hu.
Qed.

Lemma append_nonempty a b : b <> "" -> a +:+ b <> "".
Proof. destruct a; simpl; [done|discriminate]. Qed.

Section Popup.

Variable G : Globals.

Lemma popupOptions_electron t options s :
  exists eo, Opts.electronOptions (popupOptions G t options s) = Some eo
             /\ is_Some (Opts.width eo) /\ is_Some (Opts.height eo).
Proof.
  unfold popupOptions.
  set (merged := Opts.deepExtend
                   (Opts.deepExtend (defaultPopupOpts G t)
                      (getDefaultOptionsForType G t)) options).
  assert (exists eo, Opts.electronOptions merged = Some eo
                     /\ is_Some (Opts.width eo) /\ is_Some (Opts.height eo))
    as (eo & He & Hwd & Hht).
  { unfold merged. simpl.
    destruct (Opts.electronOptions (getDefaultOptionsForType G t)) as [pe|];
      destruct (Opts.electronOptions options) as [oe|]; simpl;
      eexists; (split; [reflexivity|]); simpl;
      repeat match goal with
             | |- context [Opts.over _ ?x] => destruct x; simpl
             end; eauto. }
  clearbody merged.
  destruct (getByType "main" s) as [p|];
    destruct (Opts.truthy _); simpl; rewrite He; simpl; eauto.
Qed.

(** Unless the caller overrides it, a popup has a URL to load. *)
Lemma popupOptions_url t options s :
  Opts.url options = None ->
  Opts.truthyString (Opts.url (popupOptions G t options s)) = true.
Proof.
  intros Hu.
  assert (forall o, Opts.url (popupOptions G t o s)
                    = Opts.url (Opts.deepExtend
                                  (Opts.deepExtend (defaultPopupOpts G t)
                                     (getDefaultOptionsForType G t)) o))
    as ->.
  { intros o. unfold popupOptions.
    destruct (getByType "main" s); destruct (Opts.truthy _); reflexivity. }
  simpl. rewrite Hu. simpl.
  assert (forall a b, b <> "" -> negb (String.eqb (a +:+ b) "") = true) as Hne.
  { intros a b Hb. apply negb_true_iff, String.eqb_neq.
    by apply append_nonempty. }
  unfold getDefaultOptionsForType.
  repeat (match goal with
          | |- context [if String.eqb t ?c then _ else _] =>
              destruct (String.eqb t c)
          end; simpl; try reflexivity; try (by apply Hne)).
Qed.

Lemma availableGeneric_Some s g :
  wf s -> availableGeneric s = Some g ->
  In ("genericWindow", g) (_windows s)
  /\ exists w, deref s g = Some w /\ type w = "genericWindow"
               /\ isAvailable w = true /\ isClosed w = false.
Proof.
  intros W. unfold availableGeneric.
  destruct (getByType "genericWindow" s) as [g'|] eqn:Hg; [|done].
  destruct (holds s isAvailable g') eqn:Ha; [|done]. intros [= ->].
  pose proof (wf_getByType_In _ _ _ W Hg) as Hin.
  destruct (wf_entries _ W _ _ Hin) as (w & Hw & Ht & Hc).
  split; [done|]. exists w. unfold holds in Ha. rewrite Hw in Ha. done.
Qed.

Lemma availableGeneric_registered s g w :
  wf s -> In ("genericWindow", g) (_windows s) -> deref s g = Some w ->
  isAvailable w = true -> availableGeneric s = Some g.
Proof.
  intros W Hin Hw Ha. unfold availableGeneric.
  rewrite (wf_getByType _ _ _ W Hin). unfold holds. by rewrite Hw, Ha.
Qed.

Lemma createPopup_recycle t options c s g w eo :
  wf s -> availableGeneric s = Some g -> deref s g = Some w ->
  Opts.electronOptions (popupOptions G t options s) = Some eo ->
  createPopup G t options c s =
  Return None (mutate g (reused (popupOptions G t options s) eo)
                 (dispatch (GENERIC_WINDOW_REUSE t) s)).
Proof.
  intros W Ha Hw He.
  destruct (availableGeneric_Some s g W Ha) as (_ & w' & Hw' & _ & _ & Hc).
  unfold createPopup. rewrite Ha.
  rewrite (reuse_open g t _ c _ w' eo); done.
Qed.

End Popup.

(** A pending [reuse] listener shows the handle when the content has
    loaded, whatever the listeners registered before it do. *)
Lemma didFinishLoad_shows_reused g w ls s :
  wf s -> deref s g = Some w -> isClosed w = false ->
  bw_finishLoadOnce (window w) = ls ++ [OnReuseLoaded] ->
  (isShown <$> deref (ev_didFinishLoad g s) g) = Some true.
Proof.
  intros W Hw Hc Hls.
  pose proof (ok_destroyed _ _ (wf_handles _ W g w Hw)) as Hd. rewrite Hc in Hd.
  unfold ev_didFinishLoad. rewrite (on_handle_some _ _ _ _ Hw), Hd, Hls.
  rewrite fold_left_app. simpl.
  set (s0 := mutate g (native (bw_set_finishLoadOnce [])) s).
  set (sk := fold_left (fun acc l => run_wc_listener g l acc) ls s0).
  assert (quiet s s0) as Q0 by (apply quiet_mutate; keeps_field).
  assert (quiet s sk) as Qk.
  { eapply quiet_trans; [exact Q0|]. apply quiet_fold_wf; [|eauto using wf_quiet].
    intros l s1. apply quiet_run_wc_listener. }
  destruct (quiet_keeps _ _ Qk g w Hw) as (wk & Hwk & K).
  rewrite (show_open g wk sk Hwk); [|by rewrite (keeps_isClosed _ _ K)].
  by rewrite deref_mutate_eq, Hwk.
Qed.

(** C1. [createPopup(type, options)] is called while a generic pooled
    window is registered and available.  The call does not throw, and its
    effect is that of [reuse(type, opts)] on the pooled handle, [opts] being
    the merged options: no handle and no native window is constructed, the
    registry and every other handle are as before; the pooled handle is no
    longer available, its native window -- the same one, not destroyed --
    has been asked to load the merged URL (when it is a non-empty string, as
    it is whenever the caller gives none) and has the merged size, and a
    listener is pending that shows the handle when the content has finished
    loading. *)
Theorem createPopup_recycles_available_generic (G : Globals) (type' : string)
  (options : Opts.t) (callback' : option nat) (s : State) (g : ref) (w : Window) :
  wf s ->
  In ("genericWindow", g) (_windows s) ->
  deref s g = Some w ->
  isAvailable w = true ->
  exists v s' eo w',
    createPopup G type' options callback' s = Return v s'
    /\ reuse g type' (popupOptions G type' options s) callback'
         (dispatch (GENERIC_WINDOW_REUSE type') s) = Return tt s'
    /\ Opts.electronOptions (popupOptions G type' options s) = Some eo
    /\ length (heap s') = length (heap s)
    /\ _windows s' = _windows s
    /\ (forall r, r <> g -> deref s' r = deref s r)
    /\ deref s' g = Some w'
    /\ isAvailable w' = false
    /\ isClosed w' = false
    /\ bw_url (window w') =
         (if Opts.truthyString (Opts.url (popupOptions G type' options s))
          then Opts.url (popupOptions G type' options s)
          else bw_url (window w))
    /\ (Opts.url options = None ->
        Opts.truthyString (Opts.url (popupOptions G type' options s)) = true)
    /\ bw_size (window w') = (Opts.width eo, Opts.height eo)
    /\ bw_finishLoadOnce (window w') = bw_finishLoadOnce (window w) ++ [OnReuseLoaded]
    /\ bw_options (window w') = bw_options (window w)
    /\ bw_destroyed (window w') = false
    /\ (isShown <$> deref (ev_didFinishLoad g s') g) = Some true.
Proof.
  intros W Hin Hw Ha.
  pose proof (availableGeneric_registered s g w W Hin Hw Ha) as Hav.
  destruct (wf_entries _ W _ _ Hin) as (w0 & Hw0 & _ & Hc).
  assert (w0 = w) as -> by congruence.
  pose proof (ok_destroyed _ _ (wf_handles _ W g w Hw)) as Hd. rewrite Hc in Hd.
  destruct (popupOptions_electron G type' options s) as (eo & He & _).
  set (opts := popupOptions G type' options s) in *.
  set (s' := mutate g (reused opts eo) (dispatch (GENERIC_WINDOW_REUSE type') s)).
  assert (deref s' g = Some (reused opts eo w)) as Hw'
    by (unfold s'; rewrite deref_mutate_eq, deref_dispatch; by rewrite Hw).
  assert (bw_finishLoadOnce (window (reused opts eo w))
          = bw_finishLoadOnce (window w) ++ [OnReuseLoaded]) as Hls
    by (unfold reused; by destruct (Opts.truthyString (Opts.url opts))).
  assert (isClosed (reused opts eo w) = false) as Hc'
    by (unfold reused; by destruct (Opts.truthyString (Opts.url opts))).
  assert (wf s') as W'.
  { pose proof (wf_createPopup G type' options callback' s W) as W'.
    by rewrite (createPopup_recycle G type' options callback' s g w eo) in W'. }
  exists None, s', eo, (reused opts eo w).
  split; [by apply (createPopup_recycle G type' options callback' s g w eo)|].
  split; [by apply (reuse_open g type' opts callback' _ w eo)|].
  split; [done|].
  split; [apply length_alter|].
  split; [done|].
  split; [intros r Hne; unfold s'; by rewrite deref_mutate_ne|].
  split; [done|].
  split; [unfold reused; by destruct (Opts.truthyString (Opts.url opts))|].
  split; [done|].
  split.
  { unfold reused. destruct (Opts.truthyString (Opts.url opts)) eqn:Hu; [|done].
    simpl. destruct (Opts.url opts); done. }
  split; [apply popupOptions_url|].
  split; [unfold reused; by destruct (Opts.truthyString (Opts.url opts))|].
  split; [done|].
  split; [unfold reused; by destruct (Opts.truthyString (Opts.url opts))|].
  split; [unfold reused; by destruct (Opts.truthyString (Opts.url opts))|].
  by apply (didFinishLoad_shows_reused g (reused opts eo w) (bw_finishLoadOnce (window w))).
Qed.

(** "about" is opened from [booted]: the pooled window (handle 1) becomes
    it, and two handles remain. *)
Lemma createPopup_recycles_available_generic_witness :
  wf booted
  /\ In ("genericWindow", 1) (_windows booted)
  /\ (isAvailable <$> deref booted 1) = Some true
  /\ length (heap (final (createPopup mist "about" Opts.empty None booted))) = 2
  /\ (isAvailable <$> deref (final (createPopup mist "about" Opts.empty None booted)) 1)
     = Some false.
Proof.
  assert (exists w, deref booted 1 = Some w /\ isAvailable w = true)
    as (w & Hw & Ha) by (vm_compute; eauto).
  assert (In ("genericWindow", 1) (_windows booted)) as Hin by (vm_compute; tauto).
  destruct (createPopup_recycles_available_generic
              mist "about" Opts.empty None booted 1 w booted_wf Hin Hw Ha)
    as (v & s' & eo & w' & Hcp & _ & _ & Hlen & _ & _ & Hw' & Ha' & _).
  split; [exact booted_wf|]. split; [exact Hin|]. split; [reflexivity|].
  rewrite Hcp. simpl. split; [exact Hlen|].
  by rewrite Hw', <- Ha'.
Defined.

(** ** The fresh-creation path of [createPopup] *)

Section FreshPopup.

Variable G : Globals.

(** The merged options of a popup always carry [electronOptions], so the
    constructor does not throw on them: [create] returns. *)
Lemma createOptions_popup_electron t options s :
  is_Some (Opts.electronOptions (createOptions G t (popupOptions G t options s))).
Proof.
  destruct (popupOptions_electron G t options s) as (eo & He & _).
  unfold createOptions. simpl. rewrite He.
  by destruct (Opts.electronOptions (getDefaultOptionsForType G t)).
Qed.

Lemma create_popup_returns t options c s s1 :
  exists wnd s2, create G t (popupOptions G t options s) c s1 = Return wnd s2.
Proof.
  unfold create. destruct (existingFor _ _ _) as [e|]; [eauto|].
  destruct (createOptions_popup_electron t options s) as [eo He].
  rewrite (createFresh_eq _ _ _ _ _ _ He). eauto.
Qed.

Lemma existingFor_quiet t options s s' :
  wf s -> quiet s s' -> existingFor t options s' = existingFor t options s.
Proof.
  intros W Q. unfold existingFor. rewrite (getByType_quiet t s s' W Q).
  destruct (getByType t s) as [e|] eqn:Hg; [|done].
  rewrite (holds_quiet s s'); [done|done| |].
  - intros w w' K. by rewrite (keeps_ownerId _ _ K).
  - apply getByType_Some in Hg as (k & w & _ & Hw & _). eauto.
Qed.

Lemma showLoading_quiet t s s1 : showLoading t s = Some s1 -> quiet s s1.
Proof.
  unfold showLoading. destruct (String.eqb t "genericWindow").
  - intros [= <-]. apply quiet_refl.
  - destruct (loading s); [|done]. intros [= <-]. apply quiet_show.
Qed.

Lemma showLoading_generic s : showLoading "genericWindow" s = Some s.
Proof. reflexivity. Qed.

Lemma showLoading_other t s l :
  t <> "genericWindow" -> loading s = Some l -> showLoading t s = Some (show l s).
Proof.
  intros Hne Hl. unfold showLoading.
  apply String.eqb_neq in Hne. by rewrite Hne, Hl.
Qed.

Lemma createPopup_fresh t options c s s1 wnd s2 :
  availableGeneric s = None -> showLoading t s = Some s1 ->
  create G t (popupOptions G t options s) c s1 = Return wnd s2 ->
  createPopup G t options c s = Return (Some wnd) (mutate wnd (awaitReady t) s2).
Proof.
  intros Ha Hs Hc. unfold createPopup. by rewrite Ha, Hs, Hc.
Qed.

Lemma createPopup_throws t options c s :
  availableGeneric s = None -> showLoading t s = None ->
  createPopup G t options c s = Throw s.
Proof. intros Ha Hs. unfold createPopup. by rewrite Ha, Hs. Qed.

End FreshPopup.

(** C4 does not hold as stated: "about" is opened from [booted] on the
    recycling path; the call returns [undefined], not a handle, the pooled
    handle still has type "genericWindow", and no handle of type "about"
    can be looked up. *)
Lemma createPopup_recycled_type_counterexample :
  availableGeneric booted = Some 1
  /\ (exists s', createPopup mist "about" Opts.empty None booted = Return None s'
                 /\ (type <$> deref s' 1) = Some "genericWindow"
                 /\ getByType "about" s' = None).
Proof.
  split; [reflexivity|].
  eexists. split; [vm_compute; reflexivity|]. split; reflexivity.
Qed.

(** C4, amended.  On the fresh-creation path [createPopup] returns the
    resulting handle: a handle of the requested type, registered under that
    type.  On the recycling path the pooled handle keeps its type
    "genericWindow" -- and its [isPrimary], [isPopup], [ownerId] and
    [callback] -- and stays the handle registered under "genericWindow". *)
Theorem createPopup_fresh_returns_handle_recycled_keeps_type (G : Globals)
  (type' : string) (options : Opts.t) (callback' : option nat) (s : State) :
  wf s ->
  (forall s1,
     availableGeneric s = None -> showLoading type' s = Some s1 ->
     exists wnd s' w,
       createPopup G type' options callback' s = Return (Some wnd) s'
       /\ In (type', wnd) (_windows s')
       /\ deref s' wnd = Some w
       /\ type w = type')
  /\ (forall g w,
        availableGeneric s = Some g -> deref s g = Some w ->
        exists w',
          deref (final (createPopup G type' options callback' s)) g = Some w'
          /\ type w' = "genericWindow"
          /\ isPrimary w' = isPrimary w
          /\ isPopup w' = isPopup w
          /\ ownerId w' = ownerId w
          /\ callback w' = callback w
          /\ In ("genericWindow", g)
               (_windows (final (createPopup G type' options callback' s)))
          /\ getByType "genericWindow" (final (createPopup G type' options callback' s))
             = Some g).
Proof.
  intros W. split.
  - intros s1 Ha Hs.
    assert (wf s1) as W1 by eauto using wf_quiet, showLoading_quiet.
    destruct (create_popup_returns G type' options callback' s s1)
      as (wnd & s2 & Hc).
    destruct (create_returned G type' (popupOptions G type' options s)
                callback' s1 wnd s2 W1 Hc) as (w & Hin & Hw & Ht & _).
    rewrite (createPopup_fresh G type' options callback' s s1 wnd s2 Ha Hs Hc).
    eexists _, _, (awaitReady type' w).
    split; [reflexivity|]. split; [done|].
    split; [by rewrite deref_mutate_eq, Hw|done].
  - intros g w Ha Hw.
    destruct (availableGeneric_Some s g W Ha) as (Hin & w0 & Hw0 & Ht & _).
    assert (w0 = w) as -> by congruence.
    destruct (popupOptions_electron G type' options s) as (eo & He & _).
    rewrite (createPopup_recycle G type' options callback' s g w eo W Ha Hw He).
    simpl.
    set (opts := popupOptions G type' options s).
    assert (quiet s (mutate g (reused opts eo) (dispatch (GENERIC_WINDOW_REUSE type') s)))
      as Q.
    { eapply quiet_trans; [apply quiet_dispatch|].
      apply quiet_mutate. intros w1. unfold reused.
      destruct (Opts.truthyString (Opts.url opts)); by constructor. }
    destruct (quiet_keeps _ _ Q g w Hw) as (w' & Hw' & K).
    exists w'. destruct K.
    split; [exact Hw'|].
    do 5 (split; [congruence|]).
    split; [exact Hin|].
    rewrite (getByType_quiet _ s _ W Q). by apply wf_getByType.
Qed.

(** "about" is opened from [booted]: the pooled handle is recycled and keeps
    its type. *)
Lemma createPopup_fresh_returns_handle_recycled_keeps_type_witness :
  wf booted
  /\ (type <$> deref (final (createPopup mist "about" Opts.empty None booted)) 1)
     = Some "genericWindow".
Proof.
  split; [exact booted_wf|].
  assert (exists w, deref booted 1 = Some w) as (w & Hw) by (vm_compute; eauto).
  destruct (createPopup_fresh_returns_handle_recycled_keeps_type
              mist "about" Opts.empty None booted booted_wf) as (_ & Hrec).
  destruct (Hrec 1 w eq_refl Hw) as (w' & Hw' & Ht & _).
  by rewrite Hw', <- Ht.
Defined.

(** ** The callback argument *)

Lemma quiet_callback s s' r :
  quiet s s' -> (callback <$> deref s' r) = (callback <$> deref s r).
Proof.
  intros Q. destruct (deref s r) as [w|] eqn:Hw.
  - destruct (quiet_keeps _ _ Q r w Hw) as (w' & -> & K). simpl.
    by rewrite (keeps_callback _ _ K).
  - destruct (deref s' r) as [w'|] eqn:Hw'; [|done].
    destruct (quiet_back _ _ _ _ Q Hw') as (w & Hw0 & _). congruence.
Qed.

(** C10.  On the recycling path the callback passed to [createPopup] has no
    effect: the outcome is the same for every callback argument, and no
    handle's [callback] field changes.  On the fresh-creation path -- no
    generic window available, no window of that type and owner registered --
    [create] stores the callback in the [callback] field of the handle it
    constructs and returns. *)
Theorem createPopup_callback_dropped_when_recycling (G : Globals)
  (type' : string) (options : Opts.t) (c : nat) (s : State) :
  wf s ->
  (forall g,
     availableGeneric s = Some g ->
     (forall c', createPopup G type' options c' s
                 = createPopup G type' options (Some c) s)
     /\ (forall r,
           (callback <$> deref (final (createPopup G type' options (Some c) s)) r)
           = (callback <$> deref s r)))
  /\ (forall s1,
        availableGeneric s = None ->
        showLoading type' s = Some s1 ->
        existingFor type' (createOptions G type' (popupOptions G type' options s)) s
        = None ->
        exists wnd s' w,
          createPopup G type' options (Some c) s = Return (Some wnd) s'
          /\ wnd = length (heap s)
          /\ deref s' wnd = Some w
          /\ callback w = Some c).
Proof.
  intros W. split.
  - intros g Ha. split.
    + intros c'. unfold createPopup. by rewrite Ha.
    + intros r. apply quiet_callback.
      unfold createPopup. rewrite Ha.
      set (s0 := dispatch (GENERIC_WINDOW_REUSE type') s).
      pose proof (quiet_reuse g type' (popupOptions G type' options s) (Some c) s0) as Q.
      assert (quiet s s0) as Q0 by apply quiet_dispatch.
      destruct (reuse g type' _ (Some c) s0); simpl in *; eauto using quiet_trans.
  - intros s1 Ha Hs He.
    pose proof (showLoading_quiet _ _ _ Hs) as Q.
    destruct (createOptions_popup_electron G type' options s) as [eo Heo].
    set (opts := popupOptions G type' options s) in *.
    set (s0 := dispatch (WINDOW_CREATE_START type') s1).
    assert (create G type' opts (Some c) s1
            = Return (length (heap s0))
                (registered G type' (createOptions G type' opts) eo (Some c) s0))
      as Hc.
    { rewrite (create_fresh G type' opts (Some c) s1)
        by (by rewrite (existingFor_quiet type' _ s s1 W Q)).
      by apply createFresh_eq. }
    rewrite (createPopup_fresh G type' options (Some c) s s1 _ _ Ha Hs Hc).
    eexists _, _, (awaitReady type' (freshHandle G type' (createOptions G type' opts)
                                       eo (Some c) (length (heap s0)))).
    split; [reflexivity|].
    split; [apply (quiet_length _ _ Q)|].
    split; [|done].
    by rewrite deref_mutate_eq, deref_registered_new.
Qed.

(** "about" is opened from [booted] with a callback: the pooled handle is
    recycled, and its [callback] field stays unset. *)
Lemma createPopup_callback_dropped_when_recycling_witness :
  wf booted
  /\ availableGeneric booted = Some 1
  /\ createPopup mist "about" Opts.empty None booted
     = createPopup mist "about" Opts.empty (Some 7) booted
  /\ (callback <$> deref (final (createPopup mist "about" Opts.empty (Some 7) booted)) 1)
     = Some None.
Proof.
  destruct (createPopup_callback_dropped_when_recycling
              mist "about" Opts.empty 7 booted booted_wf) as (Hrec & _).
  destruct (Hrec 1 eq_refl) as (Hsame & Hcb).
  split; [exact booted_wf|]. split; [reflexivity|].
  split; [apply Hsame|]. rewrite Hcb. reflexivity.
Defined.

(** ** Steps local to one handle *)

Lemma local_refl r s : local r s s.
Proof. constructor; eauto using quiet_refl. Qed.

Lemma local_trans r s1 s2 s3 : local r s1 s2 -> local r s2 s3 -> local r s1 s3.
Proof.
  intros [Q1 O1 R1] [Q2 O2 R2]. constructor.
  - eauto using quiet_trans.
  - intros r' Hne. rewrite O2, O1; done.
  - intros w Hw. destruct (R1 w Hw) as (w2 & Hw2 & E2).
    destruct (R2 w2 Hw2) as (w3 & Hw3 & E3). exists w3. split; congruence.
Qed.

Lemma local_mutate r f s :
  (forall w, keeps w (f w)) -> (forall w, readyOnce (f w) = readyOnce w) ->
  local r s (mutate r f s).
Proof.
  intros Hk Hr. constructor.
  - by apply quiet_mutate.
  - intros r' Hne. by apply deref_mutate_ne.
  - intros w Hw. exists (f w). by rewrite deref_mutate_eq, Hw.
Qed.

Lemma local_on_handle r body s :
  (forall w s0, local r s0 (body w s0)) -> local r s (on_handle r body s).
Proof.
  intros Hb. unfold on_handle. destruct (heap s !! r); auto using local_refl.
Qed.

Lemma local_send r c a s : local r s (send r c a s).
Proof.
  apply local_on_handle. intros w s0.
  destruct (isClosed w || negb (isContentReady w)); [apply local_refl|].
  apply local_mutate; [keeps_field|done].
Qed.

Lemma local_show r s : local r s (show r s).
Proof.
  apply local_on_handle. intros w s0.
  destruct (isClosed w); [apply local_refl|].
  eapply local_trans; apply local_mutate; try done; keeps_field.
Qed.

Lemma local_sendInitialData r d s : local r s (sendInitialData r d s).
Proof.
  unfold sendInitialData.
  destruct (Opts.truthySendData d); [|apply local_refl].
  destruct d as [[c|entries]|]; auto using local_send, local_refl.
  revert s. induction entries as [|kv entries IH]; intros s; simpl;
    [apply local_refl|].
  eapply local_trans; [apply local_send|apply IH].
Qed.

(** The first 'did-finish-load' of a handle on which exactly one closure is
    waiting for 'ready': up to changes local to the handle, the event runs
    that closure. *)
Lemma didFinishLoad_first r w d sh l s :
  deref s r = Some w ->
  bw_destroyed (window w) = false ->
  bw_finishLoadOnce (window w) = [OnContentLoaded d sh] ->
  readyOnce w = [l] ->
  exists s0,
    ev_didFinishLoad r s = run_listener l s0
    /\ quiet s s0
    /\ (forall r', r' <> r -> deref s0 r' = deref s r').
Proof.
  intros Hw Hd Hls Hr.
  unfold ev_didFinishLoad. rewrite (on_handle_some _ _ _ _ Hw), Hd, Hls. simpl.
  set (s1 := mutate r (set_isContentReady true)
               (mutate r (native (bw_set_finishLoadOnce [])) s)).
  set (s2 := sendInitialData r d s1).
  set (s3 := if sh then show r s2 else s2).
  assert (local r s s1) as L1
    by (eapply local_trans; apply local_mutate; try done; keeps_field).
  assert (local r s s3) as L.
  { eapply local_trans; [exact L1|].
    eapply local_trans; [apply local_sendInitialData|].
    unfold s3. destruct sh; [apply local_show|apply local_refl]. }
  destruct (local_ready _ _ _ L w Hw) as (w3 & Hw3 & Hr3).
  unfold emit_ready. rewrite (on_handle_some _ _ _ _ Hw3), Hr3, Hr. simpl.
  exists (mutate r (set_readyOnce []) s3). split; [done|]. split.
  - eapply quiet_trans; [apply (local_quiet _ _ _ L)|].
    apply quiet_mutate. intros w0. constructor; try reflexivity.
    intros _. constructor.
  - intros r' Hne. rewrite deref_mutate_ne by done. by apply (local_others _ _ _ L).
Qed.

(** ** The loading indicator around a fresh popup *)

Section Bracket.

Variable G : Globals.

Lemma freshHandle_finishLoadOnce t o eo c wnd :
  bw_finishLoadOnce (window (freshHandle G t o eo c wnd))
  = [OnContentLoaded (Opts.sendData o) (Opts.truthy (Opts.show o))].
Proof.
  unfold freshHandle, constructed.
  destruct c; simpl; by destruct (Opts.truthyString (Opts.url o)).
Qed.

Lemma freshHandle_readyOnce t o eo c wnd :
  readyOnce (freshHandle G t o eo c wnd) = [].
Proof. unfold freshHandle. by destruct c. Qed.

Lemma create_old t opts c s r w :
  deref s r = Some w -> deref (final (create G t opts c s)) r = Some w.
Proof.
  intros Hw. unfold create. destruct (existingFor _ _ _); [done|].
  destruct (Opts.electronOptions (createOptions G t opts)) as [eo|] eqn:He.
  - rewrite (createFresh_eq _ _ _ _ _ _ He). by apply deref_registered_old.
  - by rewrite (createFresh_throws _ _ _ _ _ He).
Qed.

(** The two outcomes of [create] in a state [s1] that a quiet step
    separates from [s]. *)
Lemma create_cases t opts c s s1 :
  wf s -> quiet s s1 ->
  match existingFor t (createOptions G t opts) s with
  | Some e =>
      create G t opts c s1 = Return e (dispatch (WINDOW_CREATE_START t) s1)
      /\ is_Some (deref s1 e)
  | None =>
      create G t opts c s1 =
      createFresh G t (createOptions G t opts) c (dispatch (WINDOW_CREATE_START t) s1)
  end.
Proof.
  intros W Q.
  pose proof (existingFor_quiet t (createOptions G t opts) s s1 W Q) as E.
  destruct (existingFor t (createOptions G t opts) s) as [e|] eqn:He.
  - split.
    + unfold create.
      change (existingFor t (createOptions G t opts)
                (dispatch (WINDOW_CREATE_START t) s1))
        with (existingFor t (createOptions G t opts) s1).
      by rewrite E.
    + apply existingFor_Some in E as (k & w & _ & Hw & _). eauto.
  - by apply create_fresh.
Qed.

Lemma isShown_awaitReady r t s r' :
  (isShown <$> deref (mutate r (awaitReady t) s) r') = (isShown <$> deref s r').
Proof.
  rewrite deref_mutate. destruct (decide (r = r')); [|done].
  by destruct (deref s r').
Qed.

(** C9, amended.  [createPopup(type, options)] takes the non-recycling
    path.  It creates at most one handle: none when [create] finds a
    registered window of that type with the requested owner and returns
    it, exactly one otherwise; either way a closure waiting for 'ready' is
    added to the returned handle.  For a type other than "genericWindow",
    with an open loading window: the loading window is shown before
    [create] runs and is still shown when the call returns, and when a
    freshly created handle finishes loading and emits 'ready' it is
    hidden.  For the type "genericWindow" no handle but the returned one
    changes, at the call or when a freshly created handle emits 'ready':
    the loading window is neither shown nor hidden. *)
Theorem createPopup_fresh_path_creates_at_most_one (type' : string)
  (options : Opts.t) (callback' : option nat) (s : State) :
  wf s ->
  availableGeneric s = None ->
  (forall s1,
     showLoading type' s = Some s1 ->
     exists wnd s' w,
       createPopup G type' options callback' s = Return (Some wnd) s'
       /\ deref s' wnd = Some w
       /\ In (OnPopupReady type') (readyOnce w)
       /\ match existingFor type'
                  (createOptions G type' (popupOptions G type' options s)) s with
          | Some e => wnd = e /\ length (heap s') = length (heap s)
          | None => wnd = length (heap s) /\ length (heap s') = S (length (heap s))
          end)
  /\ (forall l lw,
        type' <> "genericWindow" ->
        loading s = Some l -> deref s l = Some lw -> isClosed lw = false ->
        showLoading type' s = Some (show l s)
        /\ (isShown <$> deref (show l s) l) = Some true
        /\ (exists wnd s2,
              create G type' (popupOptions G type' options s) callback' (show l s)
              = Return wnd s2
              /\ createPopup G type' options callback' s =
                 Return (Some wnd) (mutate wnd (awaitReady type') s2))
        /\ (isShown <$> deref (final (createPopup G type' options callback' s)) l)
           = Some true
        /\ (existingFor type'
              (createOptions G type' (popupOptions G type' options s)) s = None ->
            (isShown <$> deref (ev_didFinishLoad (length (heap s))
                                  (final (createPopup G type' options callback' s))) l)
            = Some false))
  /\ (type' = "genericWindow" ->
      exists wnd s',
        createPopup G type' options callback' s = Return (Some wnd) s'
        /\ (forall r, r <> wnd -> r < length (heap s) -> deref s' r = deref s r)
        /\ (existingFor type'
              (createOptions G type' (popupOptions G type' options s)) s = None ->
            forall r, r < length (heap s) ->
                      deref (ev_didFinishLoad wnd s') r = deref s r)).
Proof.
  intros W Ha.
  set (opts := popupOptions G type' options s).
  set (copts := createOptions G type' opts).
  (* the state after a fresh creation from [s1], and what the new handle is *)
  assert (forall s1, quiet s s1 ->
            existingFor type' copts s = None ->
            exists s2,
              create G type' opts callback' s1 = Return (length (heap s)) s2
              /\ let s' := mutate (length (heap s)) (awaitReady type') s2 in
                 length (heap s') = S (length (heap s))
                 /\ loading s' = loading s1
                 /\ (forall r, r < length (heap s) -> deref s' r = deref s1 r)
                 /\ exists w, deref s' (length (heap s)) = Some w
                              /\ readyOnce w = [OnPopupReady type']
                              /\ bw_destroyed (window w) = false
                              /\ exists d sh, bw_finishLoadOnce (window w)
                                              = [OnContentLoaded d sh]) as Hfresh.
  { intros s1 Q He.
    pose proof (create_cases type' opts callback' s s1 W Q) as Hc.
    fold copts in Hc. rewrite He in Hc.
    pose proof (quiet_length _ _ Q) as Hlen.
    destruct (createOptions_popup_electron G type' options s) as [eo Heo].
    fold opts in Heo. fold copts in Heo.
    rewrite (createFresh_eq G _ _ _ _ _ Heo) in Hc.
    change (heap (dispatch (WINDOW_CREATE_START type') s1)) with (heap s1) in Hc.
    rewrite Hlen in Hc.
    eexists. split; [exact Hc|].
    unfold registered.
    change (heap (dispatch (WINDOW_CREATE_START type') s1)) with (heap s1).
    rewrite Hlen. simpl.
    split; [rewrite length_alter, length_app; simpl; lia|].
    split; [done|].
    split.
    - intros r Hr. rewrite deref_mutate_ne by lia.
      unfold deref. simpl. rewrite lookup_app_l by lia. done.
    - exists (awaitReady type'
                (freshHandle G type' copts eo callback' (length (heap s)))).
      split.
      + rewrite deref_mutate_eq. unfold deref. simpl.
        rewrite lookup_app_r by lia. by rewrite Hlen, Nat.sub_diag.
      + split; [unfold awaitReady; simpl; by rewrite freshHandle_readyOnce|].
        split.
        { change (bw_destroyed (window (freshHandle G type' copts eo callback'
                                          (length (heap s)))) = false).
          rewrite (ok_destroyed _ _ (freshHandle_ok G _ _ _ _ _)).
          apply freshHandle_isClosed. }
        eexists _, _. apply freshHandle_finishLoadOnce. }
  split; [|split].
  - intros s1 Hs.
    pose proof (showLoading_quiet _ _ _ Hs) as Q.
    pose proof (create_cases type' opts callback' s s1 W Q) as Hc. fold copts in Hc.
    destruct (existingFor type' copts s) as [e|] eqn:He.
    + destruct Hc as (Hc & w & Hw).
      rewrite (createPopup_fresh G type' options callback' s s1 _ _ Ha Hs Hc).
      eexists e, _, (awaitReady type' w).
      split; [reflexivity|].
      split; [by rewrite deref_mutate_eq, deref_dispatch, Hw|].
      split; [simpl; apply in_or_app; right; by left|].
      split; [done|]. simpl. rewrite length_alter. apply (quiet_length _ _ Q).
    + destruct (Hfresh s1 Q eq_refl) as (s2 & Hcr & Hlen & _ & _ & w & Hw & Hr & _).
      rewrite (createPopup_fresh G type' options callback' s s1 _ _ Ha Hs Hcr).
      eexists (length (heap s)), _, w.
      split; [reflexivity|]. split; [done|].
      split; [rewrite Hr; by left|done].
  - intros l lw Hne Hl Hlw Hc.
    pose proof (showLoading_other type' s l Hne Hl) as Hs.
    pose proof (showLoading_quiet _ _ _ Hs) as Q.
    assert ((isShown <$> deref (show l s) l) = Some true) as Hshown.
    { rewrite (show_open l lw s Hlw Hc). by rewrite deref_mutate_eq, Hlw. }
    destruct (create_popup_returns G type' options callback' s (show l s))
      as (wnd & s2 & Hcr).
    pose proof (createPopup_fresh G type' options callback' s _ _ _ Ha Hs Hcr) as Hcp.
    split; [done|]. split; [done|].
    split; [by exists wnd, s2|].
    split.
    + rewrite Hcp. simpl. rewrite isShown_awaitReady.
      destruct (deref (show l s) l) as [lw'|] eqn:Hlw'; [|done].
      pose proof (create_old type' opts callback' _ l lw' Hlw') as Hold.
      fold opts in Hcr. rewrite Hcr in Hold. simpl in Hold. by rewrite Hold.
    + intros He.
      destruct (Hfresh (show l s) Q He)
        as (s2' & Hcr' & _ & Hload & Hold & w & Hw & Hr & Hd & d & sh & Hls).
      fold opts in Hcr. rewrite Hcr' in Hcr. injection Hcr as <- <-.
      rewrite Hcp. simpl.
      destruct (didFinishLoad_first _ w d sh _ _ Hw Hd Hls Hr)
        as (s0 & -> & Q0 & Hothers).
      assert (l < length (heap s)) as Hlt by (by apply (deref_valid s l lw)).
      destruct (quiet_keeps _ _ Q l lw Hlw) as (lw1 & Hlw1 & K1).
      assert (deref s0 l = Some lw1) as Hlw0.
      { rewrite Hothers by lia. by rewrite Hold. }
      simpl. apply String.eqb_neq in Hne. rewrite Hne.
      rewrite (quiet_loading _ _ Q0), Hload, (quiet_loading _ _ Q), Hl.
      rewrite (hide_open l lw1 s0 Hlw0); [|by rewrite (keeps_isClosed _ _ K1)].
      by rewrite deref_mutate_eq, Hlw0.
  - intros ->.
    pose proof (showLoading_generic s) as Hs.
    pose proof (create_cases "genericWindow" opts callback' s s W (quiet_refl s)) as Hc.
    fold copts in Hc.
    destruct (existingFor "genericWindow" copts s) as [e|] eqn:He.
    + destruct Hc as (Hc & _).
      rewrite (createPopup_fresh G "genericWindow" options callback' s s _ _ Ha Hs Hc).
      eexists _, _. split; [reflexivity|]. split; [|done].
      intros r Hne _. by rewrite deref_mutate_ne.
    + destruct (Hfresh s (quiet_refl s) eq_refl)
        as (s2 & Hcr & _ & _ & Hold & w & Hw & Hr & Hd & d & sh & Hls).
      rewrite (createPopup_fresh G "genericWindow" options callback' s s _ _ Ha Hs Hcr).
      eexists _, _. split; [reflexivity|]. split.
      * intros r _ Hlt. by apply Hold.
      * intros _ r Hlt.
        destruct (didFinishLoad_first _ w d sh _ _ Hw Hd Hls Hr)
          as (s0 & -> & _ & Hothers).
        simpl. rewrite Hothers by lia. by apply Hold.
Qed.

End Bracket.

(** C9 does not hold as stated: in [busy] the generic window is taken and a
    window "about" with the requested owner is registered; another
    [createPopup("about")] takes the non-recycling path, shows the loading
    window and returns the existing handle 2 -- no handle is created. *)
Lemma createPopup_fresh_path_counterexample :
  availableGeneric busy = None
  /\ length (heap busy) = 3
  /\ (exists s', createPopup mist "about" Opts.empty None busy = Return (Some 2) s'
                 /\ length (heap s') = 3
                 /\ (isShown <$> deref s' 0) = Some true).
Proof.
  split; [reflexivity|]. split; [reflexivity|].
  eexists. split; [vm_compute; reflexivity|]. split; reflexivity.
Qed.

(** From [busy], "remix" is opened: one handle is constructed. *)
Lemma createPopup_fresh_path_creates_at_most_one_witness :
  wf busy
  /\ availableGeneric busy = None
  /\ exists wnd s',
       createPopup mist "remix" Opts.empty None busy = Return (Some wnd) s'
       /\ wnd = 3 /\ length (heap s') = 4.
Proof.
  assert (wf busy) as W
    by (apply (reachable_wf mist), run_final_reachable, reachable_initial).
  split; [exact W|]. split; [reflexivity|].
  destruct (createPopup_fresh_path_creates_at_most_one
              mist "remix" Opts.empty None busy W eq_refl) as (Hone & _).
  destruct (Hone (show 0 busy) eq_refl) as (wnd & s' & w & Hcp & _ & _ & Hcase).
  exists wnd, s'. split; [exact Hcp|exact Hcase].
Defined.

(** ** The scenario *)

(** C7 does not hold as stated: after the scenario, hiding "main" leaves the
    count of [app.quit()] calls at 0 -- [hide] only hides, and nothing
    evaluates the shutdown condition until a closed event is processed. *)
Lemma scenario_hide_main_counterexample :
  (exists s, run mist (scenario (Close 1) ++ [Hide 2]) initial = Return tt s
             /\ (isShown <$> deref s 2) = Some false
             /\ quitCalls s = 0)
  /\ quitCalls (final (run mist (scenario (CloseRequest 1) ++ [Hide 2]) initial)) = 0.
Proof.
  split; [|reflexivity].
  eexists. split; [vm_compute; reflexivity|]. split; reflexivity.
Qed.

(** C7, amended.  In the scenario -- "about" closed through its [close()]
    method or through the native close control -- the application has not
    quit when "about" is closed and "main" is still shown; hiding "main"
    does not call [app.quit()] either; with "main" hidden, [app.quit()] is
    called exactly once when the registry next processes a closed event,
    that of "main" itself or of the loading window. *)
Theorem scenario_quits_at_next_closed_event (G : Globals) (closeAbout : action)
  (x : ref) :
  closeAbout = Close 1 \/ closeAbout = CloseRequest 1 ->
  x = 0 \/ x = 2 ->
  (exists s, run G (scenario closeAbout) initial = Return tt s
             /\ quitCalls s = 0
             /\ (stillOpen <$> deref s 2) = Some true
             /\ (isClosed <$> deref s 1) = Some false
             /\ (isShown <$> deref s 1) = Some false
             /\ (isAvailable <$> deref s 1) = Some true)
  /\ (exists s, run G (scenario closeAbout ++ [Hide 2]) initial = Return tt s
                /\ quitCalls s = 0
                /\ (isShown <$> deref s 2) = Some false)
  /\ (exists s, run G (scenario closeAbout ++ [Hide 2; CloseRequest x]) initial
                = Return tt s
                /\ quitCalls s = 1).
Proof.
  (* the only test on [G] along the way is whether a URL built from
     [interfacePopupsUrl G] is the empty string *)
  destruct G as [an [|ch url] md dn ic ww wh wx wy];
    intros [-> | ->] [-> | ->];
    (split; [|split]); eexists; (split; [vm_compute; reflexivity|]);
    repeat split.
Qed.

Lemma scenario_quits_at_next_closed_event_witness :
  quitCalls (final (run mist (scenario (CloseRequest 1) ++ [Hide 2]) initial)) = 0
  /\ quitCalls (final (run mist (scenario (CloseRequest 1)
                                   ++ [Hide 2; CloseRequest 2]) initial)) = 1.
Proof.
  destruct (scenario_quits_at_next_closed_event mist (CloseRequest 1) 2
              (or_intror eq_refl) (or_intror eq_refl))
    as (_ & (s1 & Hr1 & Hq1 & _) & (s2 & Hr2 & Hq2)).
  rewrite Hr1, Hr2. split; [exact Hq1|exact Hq2].
Defined.

(** * The life of a handle, along any trace *)

Lemma constant_refl w : constant w w.
Proof. by constructor. Qed.

Lemma constant_trans w1 w2 w3 : constant w1 w2 -> constant w2 w3 -> constant w1 w3.
Proof. intros [] []. constructor; try congruence. auto. Qed.

Lemma keeps_constant w w' : keeps w w' -> constant w w'.
Proof. intros []. constructor; try done. congruence. Qed.

Lemma grows_refl s : grows s s.
Proof. intros r w Hw. eauto using constant_refl. Qed.

Lemma grows_trans s1 s2 s3 : grows s1 s2 -> grows s2 s3 -> grows s1 s3.
Proof.
  intros G12 G23 r w Hw.
  destruct (G12 r w Hw) as (w2 & Hw2 & C12).
  destruct (G23 r w2 Hw2) as (w3 & Hw3 & C23).
  eauto using constant_trans.
Qed.

Lemma grows_quiet s s' : quiet s s' -> grows s s'.
Proof.
  intros Q r w Hw. destruct (quiet_keeps _ _ Q r w Hw) as (w' & Hw' & K).
  eauto using keeps_constant.
Qed.

Lemma grows_heap s s' : heap s' = heap s -> grows s s'.
Proof.
  intros Hh r w Hw. exists w. split; [|apply constant_refl].
  unfold deref in *. by rewrite Hh.
Qed.

Lemma grows_mutate r f s : (forall w, constant w (f w)) -> grows s (mutate r f s).
Proof.
  intros Hf r' w Hw. rewrite deref_mutate.
  destruct (decide (r = r')); rewrite Hw; simpl; eauto using constant_refl.
Qed.

Lemma grows_fold {A : Type} (f : State -> A -> State) (l : list A) s :
  (forall a s0, grows s0 (f s0 a)) -> grows s (fold_left f l s).
Proof.
  intros Hf. revert s.
  induction l as [|a l IH]; intros s; simpl; [apply grows_refl|].
  eapply grows_trans; [apply Hf|apply IH].
Qed.

Lemma grows_run_listener l s : grows s (run_listener l s).
Proof.
  destruct l as [wnd|t]; simpl.
  - apply grows_heap, heap_onWindowClosed.
  - destruct (String.eqb t "genericWindow"); [apply grows_refl|].
    destruct (loading s); [apply grows_quiet, quiet_hide|apply grows_refl].
Qed.

Lemma grows_emit ls s : grows s (emit ls s).
Proof. apply grows_fold. intros l s0. apply grows_run_listener. Qed.

Lemma grows_emit_ready r s : grows s (emit_ready r s).
Proof.
  unfold emit_ready, on_handle.
  destruct (heap s !! r) as [w|]; [|apply grows_refl].
  eapply grows_trans; [|apply grows_emit].
  apply grows_mutate. intros w0. by constructor.
Qed.

Lemma grows_run_wc_listener r l s : grows s (run_wc_listener r l s).
Proof.
  destruct l as [d sh|]; simpl; [|apply grows_quiet, quiet_show].
  eapply grows_trans; [|apply grows_emit_ready].
  apply grows_quiet.
  assert (quiet s (sendInitialData r d (mutate r (set_isContentReady true) s))) as Q.
  { eapply quiet_trans; [|apply quiet_sendInitialData].
    apply quiet_mutate. keeps_field. }
  destruct sh; [|done]. eapply quiet_trans; [exact Q|apply quiet_show].
Qed.

Lemma grows_ev_didFinishLoad r s : grows s (ev_didFinishLoad r s).
Proof.
  unfold ev_didFinishLoad, on_handle.
  destruct (heap s !! r) as [w|]; [|apply grows_refl].
  destruct (bw_destroyed (window w)); [apply grows_refl|].
  eapply grows_trans; [|apply grows_fold; intros l s0; apply grows_run_wc_listener].
  apply grows_mutate. intros w0. by constructor.
Qed.

Lemma grows_ev_closed r s : grows s (ev_closed r s).
Proof.
  unfold ev_closed, on_handle.
  destruct (heap s !! r) as [w|]; [|apply grows_refl].
  destruct (bw_destroyed (window w)); [apply grows_refl|].
  eapply grows_trans; [|apply grows_emit].
  rewrite !mutate_mutate. apply grows_mutate. intros w0. by constructor.
Qed.

Lemma grows_ev_close r s : grows s (ev_close r s).
Proof.
  unfold ev_close, on_handle.
  destruct (heap s !! r) as [w|]; [|apply grows_refl].
  destruct (bw_destroyed (window w)); [apply grows_refl|].
  eapply grows_trans;
    [apply (grows_mutate r (native (bw_set_closeRequested false)));
     intros w0; by constructor|].
  destruct (String.eqb (type w) "genericWindow" && negb (appQuit _)).
  - apply grows_quiet, quiet_close.
  - apply grows_ev_closed.
Qed.

Lemma grows_create G t o c s : grows s (final (create G t o c s)).
Proof.
  intros r w Hw. exists w. split; [|apply constant_refl].
  by apply create_old.
Qed.

Lemma grows_createPopup G t o c s : grows s (final (createPopup G t o c s)).
Proof.
  unfold createPopup. destruct (availableGeneric s) as [g|].
  - pose proof (quiet_reuse g t (popupOptions G t o s) c
                  (dispatch (GENERIC_WINDOW_REUSE t) s)) as Q.
    destruct (reuse g t _ c _); simpl in *;
      apply grows_quiet; (eapply quiet_trans; [apply quiet_dispatch|exact Q]).
  - destruct (showLoading t s) as [s1|] eqn:Hs; [|apply grows_refl].
    pose proof (grows_create G t (popupOptions G t o s) c s1) as Gc.
    destruct (create G t (popupOptions G t o s) c s1) as [wnd s2|s2]; simpl in *;
      (eapply grows_trans; [apply grows_quiet, (showLoading_quiet _ _ _ Hs)|]);
      [|exact Gc].
    eapply grows_trans; [exact Gc|].
    apply grows_quiet, quiet_mutate, keeps_awaitReady.
Qed.

Lemma grows_init G s : grows s (final (init G s)).
Proof.
  unfold init.
  pose proof (grows_create G "loading" Opts.empty None s) as G1.
  destruct (create G "loading" Opts.empty None s) as [l s1|s1]; simpl in G1;
    [|exact G1].
  pose proof (grows_createPopup G "genericWindow" genericWindowOptions None
                (set_loading (Some l) s1)) as G2.
  assert (grows s (set_loading (Some l) s1)) as G1'
    by (eapply grows_trans; [exact G1|by apply grows_heap]).
  destruct (createPopup G "genericWindow" genericWindowOptions None _) as [g s3|s3];
    simpl in *; [|eauto using grows_trans].
  eapply grows_trans; [exact G1'|]. eapply grows_trans; [exact G2|].
  by apply grows_heap.
Qed.

Lemma grows_step G a s : grows s (final (step G a s)).
Proof.
  destruct a; simpl.
  - apply grows_init.
  - pose proof (grows_create G type' opts callback' s) as Gc.
    by destruct (create G type' opts callback' s).
  - pose proof (grows_createPopup G type' opts callback' s) as Gp.
    by destruct (createPopup G type' opts callback' s).
  - apply grows_quiet, quiet_load.
  - apply grows_quiet, quiet_send.
  - apply grows_quiet, quiet_show.
  - apply grows_quiet, quiet_hide.
  - apply grows_quiet, quiet_close.
  - apply grows_ev_didFinishLoad.
  - apply grows_ev_close.
  - apply grows_ev_closed.
  - by apply grows_heap.
Qed.

Lemma grows_run G tr s : grows s (final (run G tr s)).
Proof.
  revert s. induction tr as [|a tr IH]; intros s; simpl; [apply grows_refl|].
  pose proof (grows_step G a s) as Gs.
  destruct (step G a s) as [[] s'|s']; simpl in *; [|done].
  eapply grows_trans; [exact Gs|apply IH].
Qed.

(** X1. Whatever calls and events follow -- from any state, along any
    trace, thrown exceptions included -- a handle keeps its reference and
    its [type], [isPrimary], [isPopup], [ownerId], [callback] and the
    options its native window was constructed with: [reuse] in particular
    changes none of them. *)
Theorem handle_identity_is_immutable (G : Globals) (tr : list action)
  (s : State) (r : ref) (w : Window) :
  deref s r = Some w ->
  exists w',
    deref (final (run G tr s)) r = Some w'
    /\ type w' = type w
    /\ isPrimary w' = isPrimary w
    /\ isPopup w' = isPopup w
    /\ ownerId w' = ownerId w
    /\ callback w' = callback w
    /\ bw_options (window w') = bw_options (window w).
Proof.
  intros Hw. destruct (grows_run G tr s r w Hw) as (w' & Hw' & []).
  exists w'. by repeat split.
Qed.

Lemma handle_identity_is_immutable_witness :
  (type <$> deref booted 1) = Some "genericWindow"
  /\ (type <$> deref (final (run mist [CreatePopup "about" Opts.empty None;
                                       DidFinishLoad 1; Close 1] booted)) 1)
     = Some "genericWindow".
Proof.
  split; [reflexivity|].
  assert (exists w, deref booted 1 = Some w /\ type w = "genericWindow")
    as (w & Hw & Ht) by (vm_compute; eauto).
  destruct (handle_identity_is_immutable
              mist [CreatePopup "about" Opts.empty None; DidFinishLoad 1; Close 1]
              booted 1 w Hw) as (w' & Hw' & Ht' & _).
  rewrite Hw'. simpl. by rewrite Ht', Ht.
Defined.

(** X2. [isClosed] is terminal: once a handle is closed, no call of the
    interface and no event of the toolkit makes it open again, along any
    trace from any state. *)
Theorem closed_is_terminal (G : Globals) (tr : list action) (s : State)
  (r : ref) (w : Window) :
  deref s r = Some w ->
  isClosed w = true ->
  (isClosed <$> deref (final (run G tr s)) r) = Some true.
Proof.
  intros Hw Hc. destruct (grows_run G tr s r w Hw) as (w' & Hw' & C).
  rewrite Hw'. simpl. f_equal. by apply (constant_closed _ _ C).
Qed.

Lemma closed_is_terminal_witness :
  (isClosed <$> deref (ev_close 0 booted) 0) = Some true
  /\ (isClosed <$> deref (final (run mist [Show 0; Load 0 "file:///x"; Init]
                                   (ev_close 0 booted))) 0) = Some true.
Proof.
  split; [reflexivity|].
  assert (exists w, deref (ev_close 0 booted) 0 = Some w /\ isClosed w = true)
    as (w & Hw & Hc) by (vm_compute; eauto).
  apply (closed_is_terminal mist [Show 0; Load 0 "file:///x"; Init]
           (ev_close 0 booted) 0 w Hw Hc).
Defined.

(** * The registry along any trace *)

Lemma NoDup_key_value {A : Type} (o : jsobject A) k v v' :
  List.NoDup (map fst o) -> In (k, v) o -> In (k, v') o -> v = v'.
Proof.
  induction o as [|[k0 v0] o IH]; simpl; intros Hnd H1 H2; [done|].
  inversion_clear Hnd as [|? ? Hnotin Hnd'].
  destruct H1 as [E1|H1], H2 as [E2|H2].
  - congruence.
  - injection E1 as -> ->. exfalso. apply Hnotin. by apply (in_map fst _ (k, v')).
  - injection E2 as -> ->. exfalso. apply Hnotin. by apply (in_map fst _ (k, v)).
  - by apply IH.
Qed.

Lemma removeWindow_key_gone wnd ws k :
  List.NoDup (map fst ws) -> List.NoDup (map snd ws) -> In (k, wnd) ws ->
  ~ In k (map fst (removeWindow wnd ws)).
Proof.
  induction ws as [|[k0 r0] ws IH]; simpl; intros Hk Hv Hin; [done|].
  inversion_clear Hk as [|? ? Hknot Hk'].
  inversion_clear Hv as [|? ? Hvnot Hv'].
  destruct (Nat.eqb_spec r0 wnd) as [->|Hne].
  - destruct Hin as [[= ->]|Hin]; [done|].
    exfalso. apply Hvnot. by apply (in_map snd _ (k, wnd)).
  - destruct Hin as [[= _ E]|Hin]; [done|].
    simpl. intros [->|Hin']; [|by apply IH].
    apply Hknot. by apply (in_map fst _ (k, wnd)).
Qed.

(** X3. In every state the module can reach, a registered handle exists, is
    registered under its own type and under no other key, is not closed and
    has its native window; the registry holds one handle per type, and
    [getByType] finds it. *)
Theorem registered_handles_are_open (G : Globals) (s : State) (k : string)
  (r : ref) :
  reachable G s ->
  In (k, r) (_windows s) ->
  (exists w, deref s r = Some w /\ type w = k /\ isClosed w = false
             /\ bw_destroyed (window w) = false)
  /\ getByType k s = Some r
  /\ (forall k', In (k', r) (_windows s) -> k' = k)
  /\ (forall r', In (k, r') (_windows s) -> r' = r).
Proof.
  intros R Hin. pose proof (reachable_wf G s R) as W.
  split; [|split; [|split]].
  - destruct (wf_entries _ W k r Hin) as (w & Hw & Ht & Hc).
    exists w. repeat split; try done.
    by rewrite (ok_destroyed _ _ (wf_handles _ W r w Hw)).
  - by apply wf_getByType.
  - intros k' Hin'. by apply (wf_same_key s k' k r).
  - intros r' Hin'. by apply (NoDup_key_value (_windows s) k r' r (wf_keys _ W)).
Qed.

Lemma registered_handles_are_open_witness :
  In ("genericWindow", 1) (_windows busy)
  /\ getByType "genericWindow" busy = Some 1
  /\ (isClosed <$> deref busy 1) = Some false.
Proof.
  assert (reachable mist busy) as R
    by apply run_final_reachable, reachable_initial.
  assert (In ("genericWindow", 1) (_windows busy)) as Hin by (vm_compute; tauto).
  destruct (registered_handles_are_open mist busy "genericWindow" 1 R Hin)
    as ((w & Hw & _ & Hc & _) & Hg & _).
  split; [exact Hin|]. split; [exact Hg|]. by rewrite Hw, <- Hc.
Defined.

(** ** Who calls [app.quit()] *)

Lemma quitCalls_ev_closed r s :
  wf s ->
  quitCalls (ev_closed r s) = quitCalls s
  \/ quitCalls (ev_closed r s) = S (quitCalls s).
Proof.
  intros W. destruct (deref s r) as [w|] eqn:Hw;
    [|left; by unfold ev_closed; rewrite on_handle_none].
  destruct (bw_destroyed (window w)) eqn:Hd.
  { left. unfold ev_closed. by rewrite (on_handle_some _ _ _ _ Hw), Hd. }
  rewrite (ev_closed_unfold _ _ _ Hw Hd).
  rewrite (ok_closedOn _ _ (wf_handles _ W r w Hw)). simpl.
  destruct (onWindowClosed_quit r (mutate r closedHandle s)) as [[_ E]|[_ E]];
    rewrite E; auto.
Qed.

Lemma quitCalls_create G t o c s :
  quitCalls (final (create G t o c s)) = quitCalls s.
Proof.
  unfold create. destruct (existingFor _ _ _); [done|].
  destruct (Opts.electronOptions (createOptions G t o)) as [eo|] eqn:He.
  - by rewrite (createFresh_eq _ _ _ _ _ _ He).
  - by rewrite (createFresh_throws _ _ _ _ _ He).
Qed.

Lemma quitCalls_createPopup G t o c s :
  quitCalls (final (createPopup G t o c s)) = quitCalls s.
Proof.
  unfold createPopup. destruct (availableGeneric s) as [g|].
  - pose proof (quiet_reuse g t (popupOptions G t o s) c
                  (dispatch (GENERIC_WINDOW_REUSE t) s)) as Q.
    apply quiet_quitCalls in Q. by destruct (reuse g t _ c _).
  - destruct (showLoading t s) as [s1|] eqn:Hs; [|done].
    pose proof (quitCalls_create G t (popupOptions G t o s) c s1) as E.
    destruct (create G t (popupOptions G t o s) c s1) as [wnd s2|s2]; simpl in *;
      rewrite E; apply (quiet_quitCalls _ _ (showLoading_quiet _ _ _ Hs)).
Qed.

Lemma quitCalls_init G s : quitCalls (final (init G s)) = quitCalls s.
Proof.
  unfold init.
  pose proof (quitCalls_create G "loading" Opts.empty None s) as E1.
  destruct (create G "loading" Opts.empty None s) as [l s1|s1]; simpl in E1;
    [|exact E1].
  pose proof (quitCalls_createPopup G "genericWindow" genericWindowOptions None
                (set_loading (Some l) s1)) as E2.
  destruct (createPopup G "genericWindow" genericWindowOptions None _) as [g s3|s3];
    simpl in *; congruence.
Qed.

(** X4. In a well-formed state, one call or event calls [app.quit()] at most
    once, and only the toolkit's close events -- the native 'close' request
    and 'closed' -- can: creating, showing, hiding, loading, sending,
    [close()] and the content finishing to load never quit the
    application. *)
Theorem only_close_events_quit (G : Globals) (a : action) (s : State) :
  wf s ->
  (closeEvent a = false -> quitCalls (final (step G a s)) = quitCalls s)
  /\ (quitCalls (final (step G a s)) = quitCalls s
      \/ quitCalls (final (step G a s)) = S (quitCalls s)).
Proof.
  intros W.
  assert (closeEvent a = false -> quitCalls (final (step G a s)) = quitCalls s) as Hq.
  { destruct a; simpl; try done; intros _.
    - apply quitCalls_init.
    - pose proof (quitCalls_create G type' opts callback' s) as E.
      by destruct (create G type' opts callback' s).
    - pose proof (quitCalls_createPopup G type' opts callback' s) as E.
      by destruct (createPopup G type' opts callback' s).
    - apply (quiet_quitCalls _ _ (quiet_load r url s)).
    - apply (quiet_quitCalls _ _ (quiet_send r channel args s)).
    - apply (quiet_quitCalls _ _ (quiet_show r s)).
    - apply (quiet_quitCalls _ _ (quiet_hide r s)).
    - apply (quiet_quitCalls _ _ (quiet_close r s)).
    - apply (quiet_quitCalls _ _ (quiet_ev_didFinishLoad r s W)). }
  split; [exact Hq|].
  destruct (closeEvent a) eqn:Ha; [|by left; apply Hq].
  destruct a; try discriminate; simpl.
  - unfold ev_close, on_handle.
    destruct (heap s !! r) as [w|]; [|by left].
    destruct (bw_destroyed (window w)); [by left|].
    set (s1 := mutate r (native (bw_set_closeRequested false)) s).
    assert (quiet s s1) as Q1 by (apply quiet_mutate; keeps_field).
    destruct (String.eqb (type w) "genericWindow" && negb (appQuit s1)).
    + left. apply (quiet_quitCalls _ _ (quiet_close r s1)).
    + apply (quitCalls_ev_closed r s1). eauto using wf_quiet.
  - by apply quitCalls_ev_closed.
Qed.

Lemma only_close_events_quit_witness :
  wf mainShown
  /\ quitCalls (final (step mist (Hide 2) mainShown)) = quitCalls mainShown.
Proof.
  assert (wf mainShown) as W
    by (apply (reachable_wf mist), run_final_reachable, reachable_initial).
  split; [exact W|].
  by apply (only_close_events_quit mist (Hide 2) mainShown W).
Defined.

(** * Windows that really close *)

(** The 'closed' event of a registered handle. *)
Lemma ev_closed_registered s k r w :
  wf s -> In (k, r) (_windows s) -> deref s r = Some w ->
  deref (ev_closed r s) r = Some (closedHandle w)
  /\ _windows (ev_closed r s) = removeWindow r (_windows s)
  /\ ~ In r (map snd (_windows (ev_closed r s)))
  /\ getByType k (ev_closed r s) = None
  /\ (forall r', r' <> r -> deref (ev_closed r s) r' = deref s r')
  /\ ((primaryOpen (ev_closed r s) /\ quitCalls (ev_closed r s) = quitCalls s)
      \/ (~ primaryOpen (ev_closed r s)
          /\ quitCalls (ev_closed r s) = S (quitCalls s))).
Proof.
  intros W Hin Hw.
  pose proof (wf_ev_closed r s W) as W'.
  destruct (wf_entries _ W k r Hin) as (w0 & Hw0 & Ht & Hc).
  assert (w0 = w) as -> by congruence.
  pose proof (ok_destroyed _ _ (wf_handles _ W r w Hw)) as Hd. rewrite Hc in Hd.
  pose proof (ev_closed_unfold _ _ _ Hw Hd) as E.
  rewrite (ok_closedOn _ _ (wf_handles _ W r w Hw)) in E. simpl in E.
  assert (_windows (ev_closed r s) = removeWindow r (_windows s)) as Hreg
    by (by rewrite E, windows_onWindowClosed).
  split; [by rewrite E, deref_onWindowClosed, deref_mutate_eq, Hw|].
  split; [done|].
  split; [rewrite Hreg; apply removeWindow_gone, wf_values, W|].
  split.
  { unfold getByType. apply _find_None. intros k' r' Hin'. unfold holds.
    destruct (wf_entries _ W' k' r' Hin') as (w' & -> & Hk' & _).
    apply String.eqb_neq. intros Heq. assert (k' = k) as -> by congruence.
    apply (removeWindow_key_gone r (_windows s) k (wf_keys _ W) (wf_values _ W) Hin).
    rewrite <- Hreg. by apply (in_map fst _ (k, r')). }
  split.
  { intros r' Hne. rewrite E, deref_onWindowClosed. by apply deref_mutate_ne. }
  rewrite E.
  destruct (onWindowClosed_quit r (mutate r closedHandle s)) as [[Hp Hq]|[Hp Hq]];
    [left|right]; by split.
Qed.

(** X5. The toolkit reports 'closed' for a registered handle of a
    well-formed state: the handle becomes closed, hidden and not ready, it
    leaves the registry -- its type can no longer be looked up -- no other
    handle changes, and [app.quit()] is called exactly when no registered
    handle that is primary, shown and open remains. *)
Theorem closed_event_unregisters (s : State) (k : string) (r : ref) :
  wf s ->
  In (k, r) (_windows s) ->
  (exists w', deref (ev_closed r s) r = Some w'
              /\ isClosed w' = true /\ isShown w' = false
              /\ isContentReady w' = false /\ bw_destroyed (window w') = true)
  /\ _windows (ev_closed r s) = removeWindow r (_windows s)
  /\ ~ In r (map snd (_windows (ev_closed r s)))
  /\ getByType k (ev_closed r s) = None
  /\ (forall r', r' <> r -> deref (ev_closed r s) r' = deref s r')
  /\ (quitCalls (ev_closed r s) = S (quitCalls s) <-> ~ primaryOpen (ev_closed r s))
  /\ (quitCalls (ev_closed r s) = quitCalls s <-> primaryOpen (ev_closed r s)).
Proof.
  intros W Hin.
  destruct (wf_entries _ W k r Hin) as (w & Hw & _).
  destruct (ev_closed_registered s k r w W Hin Hw)
    as (Hw' & Hreg & Hgone & Hget & Hothers & Hquit).
  split; [exists (closedHandle w); by repeat split|].
  do 4 (split; [done|]).
  destruct Hquit as [[Hp Hq]|[Hp Hq]]; split; split; intros; try done; lia.
Qed.

Lemma closed_event_unregisters_witness :
  In ("main", 2) (_windows mainShown)
  /\ getByType "main" (ev_closed 2 mainShown) = None
  /\ quitCalls (ev_closed 2 mainShown) = 1.
Proof.
  assert (wf mainShown) as W
    by (apply (reachable_wf mist), run_final_reachable, reachable_initial).
  assert (In ("main", 2) (_windows mainShown)) as Hin by (vm_compute; tauto).
  destruct (closed_event_unregisters mainShown "main" 2 W Hin)
    as (_ & _ & _ & Hget & _).
  split; [exact Hin|]. split; [exact Hget|reflexivity].
Defined.

(** When the handler of lines 95-105 does not veto it, the native close
    request ends in the 'closed' event. *)
Lemma ev_close_closes s k r w :
  wf s -> In (k, r) (_windows s) -> deref s r = Some w ->
  k <> "genericWindow" \/ appQuit s = true ->
  ev_close r s = ev_closed r (mutate r (native (bw_set_closeRequested false)) s).
Proof.
  intros W Hin Hw Hwhy.
  destruct (wf_entries _ W k r Hin) as (w0 & Hw0 & Ht & Hc).
  assert (w0 = w) as -> by congruence.
  pose proof (ok_destroyed _ _ (wf_handles _ W r w Hw)) as Hd. rewrite Hc in Hd.
  unfold ev_close. rewrite (on_handle_some _ _ _ _ Hw), Hd. simpl.
  destruct Hwhy as [Hne| ->].
  - rewrite Ht. apply String.eqb_neq in Hne. by rewrite Hne.
  - by rewrite andb_false_r.
Qed.

Lemma close_other r w s :
  deref s r = Some w -> type w <> "genericWindow" -> isClosed w = false ->
  close r s = mutate r (native (bw_set_closeRequested true)) s.
Proof.
  intros Hw Ht Hc. unfold close.
  apply String.eqb_neq in Ht. by rewrite (on_handle_some _ _ _ _ Hw), Hc, Ht.
Qed.

(** X6. While the application is quitting, the pooled window is still only
    hidden by its [close()] method -- the method does not look at the
    quitting flag -- whereas a native close request now goes through: the
    handle is closed, leaves the registry, and no pooled window is
    available any more. *)
Theorem genericWindow_closes_only_on_native_request_while_quitting (s : State)
  (g : ref) :
  wf s ->
  In ("genericWindow", g) (_windows s) ->
  appQuit s = true ->
  ((isClosed <$> deref (close g s) g) = Some false
   /\ (isAvailable <$> deref (close g s) g) = Some true
   /\ (isShown <$> deref (close g s) g) = Some false
   /\ _windows (close g s) = _windows s)
  /\ ((isClosed <$> deref (ev_close g s) g) = Some true
      /\ ~ In g (map snd (_windows (ev_close g s)))
      /\ getByType "genericWindow" (ev_close g s) = None
      /\ availableGeneric (ev_close g s) = None).
Proof.
  intros W Hin Hq.
  destruct (wf_entries _ W _ g Hin) as (w & Hw & Ht & Hc).
  split.
  - rewrite (close_generic g w s Hw Ht Hc), deref_mutate_eq, Hw. simpl.
    by rewrite Hc.
  - rewrite (ev_close_closes s _ g w W Hin Hw (or_intror Hq)).
    set (s1 := mutate g (native (bw_set_closeRequested false)) s).
    assert (wf s1) as W1
      by (eapply wf_quiet; [exact W|apply quiet_mutate; keeps_field]).
    assert (deref s1 g = Some (native (bw_set_closeRequested false) w)) as Hw1
      by (unfold s1; by rewrite deref_mutate_eq, Hw).
    destruct (ev_closed_registered s1 _ g _ W1 Hin Hw1)
      as (Hw' & _ & Hgone & Hget & _).
    split; [by rewrite Hw'|]. split; [done|]. split; [done|].
    unfold availableGeneric. by rewrite Hget.
Qed.

Lemma genericWindow_closes_only_on_native_request_while_quitting_witness :
  appQuit (set_appQuit true booted) = true
  /\ (isClosed <$> deref (close 1 (set_appQuit true booted)) 1) = Some false
  /\ (isClosed <$> deref (ev_close 1 (set_appQuit true booted)) 1) = Some true.
Proof.
  assert (wf (set_appQuit true booted)) as W
    by (apply (wf_same booted); [by vm_compute|by vm_compute|apply booted_wf]).
  assert (In ("genericWindow", 1) (_windows (set_appQuit true booted))) as Hin
    by (vm_compute; tauto).
  destruct (genericWindow_closes_only_on_native_request_while_quitting
              (set_appQuit true booted) 1 W Hin eq_refl)
    as ((Hc & _) & (Hc' & _)).
  split; [reflexivity|]. split; [exact Hc|exact Hc'].
Defined.

(** X7. For a registered handle of any other type than "genericWindow",
    [close()] only asks: the handle stays open and registered, its native
    window has a close request pending.  When the toolkit then delivers the
    'close' event, the handle is closed, hidden, not ready and out of the
    registry, and no other handle has changed. *)
Theorem close_then_close_event_closes (s : State) (k : string) (r : ref) :
  wf s ->
  In (k, r) (_windows s) ->
  k <> "genericWindow" ->
  ((isClosed <$> deref (close r s) r) = Some false
   /\ (bw_closeRequested ∘ window <$> deref (close r s) r) = Some true
   /\ _windows (close r s) = _windows s
   /\ quitCalls (close r s) = quitCalls s)
  /\ (exists w', deref (ev_close r (close r s)) r = Some w'
                 /\ isClosed w' = true /\ isShown w' = false
                 /\ isContentReady w' = false /\ bw_closeRequested (window w') = false)
  /\ _windows (ev_close r (close r s)) = removeWindow r (_windows s)
  /\ getByType k (ev_close r (close r s)) = None
  /\ (forall r', r' <> r -> deref (ev_close r (close r s)) r' = deref s r').
Proof.
  intros W Hin Hne.
  destruct (wf_entries _ W _ r Hin) as (w & Hw & Ht & Hc).
  assert (type w <> "genericWindow") as Hne' by (by rewrite Ht).
  rewrite (close_other r w s Hw Hne' Hc).
  set (s1 := mutate r (native (bw_set_closeRequested true)) s).
  assert (wf s1) as W1
    by (eapply wf_quiet; [exact W|apply quiet_mutate; keeps_field]).
  assert (deref s1 r = Some (native (bw_set_closeRequested true) w)) as Hw1
    by (unfold s1; by rewrite deref_mutate_eq, Hw).
  split; [rewrite Hw1; simpl; by rewrite Hc|].
  rewrite (ev_close_closes s1 k r _ W1 Hin Hw1 (or_introl Hne)).
  set (s2 := mutate r (native (bw_set_closeRequested false)) s1).
  assert (wf s2) as W2
    by (eapply wf_quiet; [exact W1|apply quiet_mutate; keeps_field]).
  assert (deref s2 r = Some (native (bw_set_closeRequested false)
                               (native (bw_set_closeRequested true) w))) as Hw2
    by (unfold s2; by rewrite deref_mutate_eq, Hw1).
  destruct (ev_closed_registered s2 k r _ W2 Hin Hw2)
    as (Hw' & Hreg & _ & Hget & Hothers & _).
  split; [eexists; split; [exact Hw'|by repeat split]|].
  split; [done|]. split; [done|].
  intros r' Hr'. rewrite (Hothers r' Hr').
  unfold s2, s1. by rewrite !deref_mutate_ne.
Qed.

Lemma close_then_close_event_closes_witness :
  In ("loading", 0) (_windows booted)
  /\ (isClosed <$> deref (close 0 booted) 0) = Some false
  /\ getByType "loading" (ev_close 0 (close 0 booted)) = None.
Proof.
  assert (In ("loading", 0) (_windows booted)) as Hin by (vm_compute; tauto).
  assert ("loading" <> "genericWindow") as Hne by discriminate.
  destruct (close_then_close_event_closes booted "loading" 0 booted_wf Hin Hne)
    as ((Hc & _) & _ & _ & Hget & _).
  split; [exact Hin|]. split; [exact Hc|exact Hget].
Defined.

(** * Visibility and closed handles *)

Lemma local_hide r s : local r s (hide r s).
Proof.
  apply local_on_handle. intros w s0.
  destruct (isClosed w); [apply local_refl|].
  eapply local_trans; apply local_mutate; try done; keeps_field.
Qed.

Lemma local_setVisible r calls s :
  local r s (fold_left (fun acc v => setVisible r v acc) calls s).
Proof.
  revert s. induction calls as [|v calls IH]; intros s; simpl; [apply local_refl|].
  eapply local_trans; [|apply IH].
  destruct v; [apply local_show|apply local_hide].
Qed.

(** X8. On an open handle, after any sequence of [show()] and [hide()]
    calls [isShown] -- and the visibility of the native window -- is what
    the last call asked for; the handle is still open and no other handle
    has changed. *)
Theorem isShown_reflects_last_call (r : ref) (w : Window) (s : State)
  (calls : list bool) (lastCall : bool) :
  deref s r = Some w ->
  isClosed w = false ->
  (exists w', deref (fold_left (fun acc v => setVisible r v acc)
                       (calls ++ [lastCall]) s) r = Some w'
              /\ isShown w' = lastCall
              /\ bw_visible (window w') = lastCall
              /\ isClosed w' = false)
  /\ (forall r', r' <> r ->
        deref (fold_left (fun acc v => setVisible r v acc) (calls ++ [lastCall]) s) r'
        = deref s r').
Proof.
  intros Hw Hc. rewrite fold_left_app. simpl.
  set (s0 := fold_left (fun acc v => setVisible r v acc) calls s).
  pose proof (local_setVisible r calls s) as L. fold s0 in L.
  destruct (quiet_keeps _ _ (local_quiet _ _ _ L) r w Hw) as (w0 & Hw0 & K).
  assert (isClosed w0 = false) as Hc0 by (by rewrite (keeps_isClosed _ _ K)).
  split.
  - destruct lastCall; simpl.
    + rewrite (show_open r w0 s0 Hw0 Hc0), deref_mutate_eq, Hw0.
      eexists. split; [reflexivity|]. by repeat split.
    + rewrite (hide_open r w0 s0 Hw0 Hc0), deref_mutate_eq, Hw0.
      eexists. split; [reflexivity|]. by repeat split.
  - intros r' Hne. rewrite <- (local_others _ _ _ L r' Hne).
    destruct lastCall; simpl.
    + by rewrite (show_open r w0 s0 Hw0 Hc0), deref_mutate_ne.
    + by rewrite (hide_open r w0 s0 Hw0 Hc0), deref_mutate_ne.
Qed.

Lemma isShown_reflects_last_call_witness :
  (isClosed <$> deref booted 0) = Some false
  /\ (isShown <$> deref (fold_left (fun acc v => setVisible 0 v acc)
                           ([true; false; true] ++ [false]) booted) 0) = Some false.
Proof.
  split; [reflexivity|].
  assert (exists w, deref booted 0 = Some w /\ isClosed w = false)
    as (w & Hw & Hc) by (vm_compute; eauto).
  destruct (isShown_reflects_last_call 0 w booted [true; false; true] false Hw Hc)
    as ((w' & Hw' & Hs & _) & _).
  by rewrite Hw', <- Hs.
Defined.

(** X9. On a closed handle the methods [load], [send], [show], [hide] and
    [close] are no-ops: any sequence of such calls returns normally and
    leaves the whole state as it was. *)
Theorem methods_on_closed_handle_do_nothing (G : Globals) (r : ref)
  (w : Window) (s : State) (tr : list action) :
  deref s r = Some w ->
  isClosed w = true ->
  forallb (methodCall r) tr = true ->
  run G tr s = Return tt s.
Proof.
  intros Hw Hc. induction tr as [|a tr IH]; simpl; [done|].
  intros Hall. apply andb_prop in Hall as [Ha Htr].
  assert (step G a s = Return tt s) as ->; [|by apply IH].
  destruct a; simpl in Ha; try discriminate;
    apply Nat.eqb_eq in Ha; subst; simpl; f_equal.
  - unfold load. by rewrite (on_handle_some _ _ _ _ Hw), Hc.
  - unfold send. by rewrite (on_handle_some _ _ _ _ Hw), Hc.
  - unfold show. by rewrite (on_handle_some _ _ _ _ Hw), Hc.
  - unfold hide. by rewrite (on_handle_some _ _ _ _ Hw), Hc.
  - unfold close. by rewrite (on_handle_some _ _ _ _ Hw), Hc.
Qed.

Lemma methods_on_closed_handle_do_nothing_witness :
  (isClosed <$> deref (ev_close 0 booted) 0) = Some true
  /\ run mist [Show 0; Load 0 "file:///x"; Send 0 "c" []; Close 0; Hide 0]
       (ev_close 0 booted) = Return tt (ev_close 0 booted).
Proof.
  split; [reflexivity|].
  assert (exists w, deref (ev_close 0 booted) 0 = Some w /\ isClosed w = true)
    as (w & Hw & Hc) by (vm_compute; eauto).
  apply (methods_on_closed_handle_do_nothing mist 0 w _ _ Hw Hc). reflexivity.
Defined.

(** * More on [create] *)

Lemma obj_set_length {A : Type} (k : string) (v : A) (o : jsobject A) :
  In k (map fst o) -> length (obj_set k v o) = length o.
Proof.
  induction o as [|[k0 v0] o IH]; simpl; [done|].
  destruct (String.eqb_spec k0 k) as [->|Hne]; simpl; [done|].
  intros [?|Hin]; [done|]. by rewrite IH.
Qed.

(** Registering a fresh handle under a type that is taken. *)
Lemma registered_supersedes G T o eo c s r :
  wf s -> In (T, r) (_windows s) ->
  In (T, length (heap s)) (_windows (registered G T o eo c s))
  /\ ~ In r (map snd (_windows (registered G T o eo c s)))
  /\ length (_windows (registered G T o eo c s)) = length (_windows s)
  /\ (forall k r', k <> T -> In (k, r') (_windows s) ->
                   In (k, r') (_windows (registered G T o eo c s))).
Proof.
  intros W Hin. unfold registered. simpl.
  split; [apply obj_set_In_new|]. split; [|split].
  - rewrite in_map_iff. intros ([k r'] & Heq & Hin'). simpl in Heq. subst r'.
    apply obj_set_In in Hin' as [[_ ->]|[Hne Hold]]; [| |apply W].
    + destruct (wf_entries _ W T _ Hin) as (w & Hw & _).
      apply deref_valid in Hw. lia.
    + apply Hne. by apply (wf_same_key s k T r).
  - apply obj_set_length. by apply (in_map fst _ (T, r)).
  - intros k r' Hne Hin'. clear Hin.
    induction (_windows s) as [|[k0 r0] ws IH]; simpl in *; [done|].
    destruct (String.eqb_spec k0 T) as [->|Hne0]; simpl.
    + destruct Hin' as [[= -> ->]|Hin']; [done|by right].
    + destruct Hin' as [Heq|Hin']; [by left|right; by apply IH].
Qed.

(** X10. [create(T, opts)] for an owner other than that of the registered
    window of type [T] goes on to the constructor.  When the merged options
    carry no [electronOptions] the constructor throws and nothing but the
    CREATE_START notice is left of the call.  Otherwise a new handle is
    constructed and overwrites the registry slot of [T]: the registry has as
    many entries as before, the earlier handle is no longer registered but
    is untouched and still open; when it is closed later, its closed event
    removes nothing from the registry. *)
Theorem create_for_other_owner_supersedes (G : Globals) (T : string)
  (opts : Opts.t) (callback' : option nat) (s : State) (r : ref) (w : Window) :
  wf s ->
  supportedMode G ->
  ownKey T ->
  In (T, r) (_windows s) ->
  deref s r = Some w ->
  ownerId w <> Opts.ownerId opts ->
  match Opts.electronOptions (createOptions G T opts) with
  | None =>
      create G T opts callback' s = Throw (dispatch (WINDOW_CREATE_START T) s)
  | Some _ =>
      exists s',
        create G T opts callback' s = Return (length (heap s)) s'
        /\ length (heap s') = S (length (heap s))
        /\ In (T, length (heap s)) (_windows s')
        /\ ~ In r (map snd (_windows s'))
        /\ length (_windows s') = length (_windows s)
        /\ deref s' r = Some w
        /\ isClosed w = false
        /\ _windows (ev_closed r s') = _windows s'
        /\ (isClosed <$> deref (ev_closed r s') r) = Some true
  end.
Proof.
  intros W _ _ Hin Hw Ho.
  destruct (wf_entries _ W T r Hin) as (w0 & Hw0 & _ & Hc).
  assert (w0 = w) as -> by congruence.
  assert (existingFor T (createOptions G T opts) s = None) as He.
  { unfold existingFor. rewrite (wf_getByType s T r W Hin). unfold holds.
    rewrite Hw, createOptions_ownerId. by rewrite bool_decide_eq_false_2. }
  rewrite (create_fresh G T opts callback' s He).
  destruct (Opts.electronOptions (createOptions G T opts)) as [eo|] eqn:Heo;
    [|by apply createFresh_throws].
  assert (wf (dispatch (WINDOW_CREATE_START T) s)) as W0
    by (eapply wf_quiet; [exact W|apply quiet_dispatch]).
  destruct (registered_supersedes G T (createOptions G T opts) eo callback'
              (dispatch (WINDOW_CREATE_START T) s) r W0 Hin)
    as (Hnew & Hgone & Hlen & _).
  set (s' := registered G T (createOptions G T opts) eo callback'
               (dispatch (WINDOW_CREATE_START T) s)) in *.
  assert (deref s' r = Some w) as Hw'
    by (apply deref_registered_old; by rewrite deref_dispatch).
  exists s'.
  split; [exact (createFresh_eq G T _ eo callback'
                   (dispatch (WINDOW_CREATE_START T) s) Heo)|].
  split; [unfold s', registered; simpl; rewrite length_app; simpl; lia|].
  do 3 (split; [done|]). split; [done|]. split; [done|].
  pose proof (ok_destroyed _ _ (wf_handles _ W r w Hw)) as Hd. rewrite Hc in Hd.
  rewrite (ev_closed_unfold r s' w Hw' Hd).
  rewrite (ok_closedOn _ _ (wf_handles _ W r w Hw)). simpl.
  rewrite windows_onWindowClosed, deref_onWindowClosed, deref_mutate_eq, Hw'.
  split; [|done]. by apply removeWindow_absent.
Qed.

(** The loading window of [booted] has no owner; asked for with owner 5, a
    second one is constructed, handle 2. *)
Lemma create_for_other_owner_supersedes_witness :
  In ("loading", 0) (_windows booted)
  /\ (exists s', create mist "loading"
                   (Opts.mk None None (Some (OwnerId 5)) None None None None None None)
                   None booted = Return 2 s'
                 /\ ~ In 0 (map snd (_windows s')))
  /\ (isClosed <$> deref booted 0) = Some false.
Proof.
  assert (exists w, deref booted 0 = Some w /\ ownerId w = None)
    as (w & Hw & Ho) by (vm_compute; eauto).
  assert (In ("loading", 0) (_windows booted)) as Hin by (vm_compute; tauto).
  assert (ownerId w <> Some (OwnerId 5)) as Hne by (by rewrite Ho).
  assert (ownKey "loading") as Hk by discriminate.
  pose proof (create_for_other_owner_supersedes mist "loading"
                (Opts.mk None None (Some (OwnerId 5)) None None None None None None)
                None booted 0 w booted_wf (or_introl eq_refl) Hk Hin Hw Hne)
    as Hx.
  simpl in Hx. destruct Hx as (s' & Hcr & _ & _ & Hgone & _ & _ & Hc & _).
  split; [exact Hin|]. split; [by exists s'|]. by rewrite Hw, <- Hc.
Defined.

(** X11. [create] is idempotent: in a well-formed state, calling it again
    with the same type and options does what the first call did and
    constructs nothing.  When the first call returned a handle -- found or
    constructed -- the second returns that handle and leaves the store and
    the registry as they are; when the constructor threw in the first call,
    it throws in the second. *)
Theorem create_again_returns_same_handle (G : Globals) (T : string)
  (opts : Opts.t) (c c' : option nat) (s : State) :
  wf s ->
  supportedMode G ->
  ownKey T ->
  match create G T opts c s with
  | Return r s1 =>
      create G T opts c' s1 = Return r (dispatch (WINDOW_CREATE_START T) s1)
  | Throw s1 =>
      create G T opts c' s1 = Throw (dispatch (WINDOW_CREATE_START T) s1)
  end.
Proof.
  intros W _ _.
  destruct (create G T opts c s) as [r s1|s1] eqn:Hc.
  - by apply (create_twice_same_handle G T opts c c' s r s1).
  - unfold create in Hc.
    destruct (existingFor T (createOptions G T opts) _) as [e|] eqn:He; [done|].
    destruct (Opts.electronOptions (createOptions G T opts)) as [eo|] eqn:Heo;
      [by rewrite (createFresh_eq _ _ _ _ _ _ Heo) in Hc|].
    rewrite (createFresh_throws _ _ _ _ _ Heo) in Hc. injection Hc as <-.
    unfold create.
    change (existingFor T (createOptions G T opts)
              (dispatch (WINDOW_CREATE_START T) (dispatch (WINDOW_CREATE_START T) s)))
      with (existingFor T (createOptions G T opts) (dispatch (WINDOW_CREATE_START T) s)).
    rewrite He. by apply createFresh_throws.
Qed.

(** "main" is created from [booted], handle 2, and asked for again. *)
Lemma create_again_returns_same_handle_witness :
  wf booted
  /\ exists s1, create mist "main" Opts.empty None booted = Return 2 s1
                /\ create mist "main" Opts.empty (Some 3) s1
                   = Return 2 (dispatch (WINDOW_CREATE_START "main") s1).
Proof.
  assert (ownKey "main") as Hk by discriminate.
  pose proof (create_again_returns_same_handle mist "main" Opts.empty None (Some 3)
                booted booted_wf (or_introl eq_refl) Hk) as Hx.
  split; [exact booted_wf|].
  destruct (create mist "main" Opts.empty None booted) as [r s1|s1] eqn:Hc;
    vm_compute in Hc; [|discriminate].
  injection Hc as <- <-.
  eexists. split; [reflexivity|exact Hx].
Defined.

(** The preset of a type that is not a case of the [switch] of
    [getDefaultOptionsForType] is empty, and merging into it gives back the
    caller's options. *)
Lemma createOptions_unknown G t opts :
  ~ In t knownTypes -> createOptions G t opts = opts.
Proof.
  intros Hnot.
  assert (getDefaultOptionsForType G t = Opts.empty) as He.
  { unfold getDefaultOptionsForType.
    repeat match goal with
           | |- context [String.eqb t ?c] =>
               destruct (String.eqb_spec t c) as [->|_];
               [exfalso; apply Hnot; simpl; tauto|]
           end.
    done. }
  unfold createOptions. rewrite He.
  destruct opts as [p ip o ia u sh w3 sd eo]. unfold Opts.deepExtend. simpl.
  by destruct p, ip, o, ia, u, sh, w3, sd, eo.
Qed.

(** X12. A type that is not a case of the [switch] of
    [getDefaultOptionsForType] has no preset, so the caller has to bring the
    [electronOptions].  With no window of that type registered:
    [create(t, opts)] without [electronOptions] throws in the constructor,
    after CREATE_START and before anything is stored or registered; with
    them, it constructs a handle from exactly the caller's options and
    registers it. *)
Theorem unknown_type_needs_electronOptions (G : Globals) (t : string)
  (opts : Opts.t) (c : option nat) (s : State) :
  ~ In t knownTypes ->
  ownKey t ->
  getByType t s = None ->
  match Opts.electronOptions opts with
  | None =>
      create G t opts c s = Throw (dispatch (WINDOW_CREATE_START t) s)
      /\ heap (final (create G t opts c s)) = heap s
      /\ _windows (final (create G t opts c s)) = _windows s
      /\ dispatched (final (create G t opts c s))
         = dispatched s ++ [WINDOW_CREATE_START t]
  | Some eo =>
      exists s' w,
        create G t opts c s = Return (length (heap s)) s'
        /\ heap s' = heap s ++ [w]
        /\ _windows s' = obj_set t (length (heap s)) (_windows s)
        /\ dispatched s'
           = dispatched s ++ [WINDOW_CREATE_START t; WINDOW_CREATE_FINISH t]
        /\ type w = t
        /\ isPrimary w = Opts.truthy (Opts.primary opts)
        /\ isPopup w = Opts.truthy (Opts.isPopup opts)
        /\ ownerId w = Opts.ownerId opts
        /\ isAvailable w = Opts.truthy (Opts.isAvailable opts)
        /\ callback w = c
        /\ bw_options (window w) = Opts.extendElectron (baseElectronOptions G) eo
  end.
Proof.
  intros Hnot _ Hg.
  pose proof (createOptions_unknown G t opts Hnot) as Hco.
  assert (existingFor t (createOptions G t opts) s = None) as He
    by (unfold existingFor; by rewrite Hg).
  rewrite (create_fresh G t opts c s He), Hco.
  destruct (Opts.electronOptions opts) as [eo|] eqn:Heo.
  - rewrite (createFresh_eq _ _ _ _ _ _ Heo).
    eexists _, (freshHandle G t opts eo c (length (heap s))).
    split; [reflexivity|]. unfold registered. simpl.
    split; [done|]. split; [done|].
    split; [by rewrite <- app_assoc|].
    unfold freshHandle, constructed.
    destruct c; simpl; repeat split;
      by destruct (Opts.truthyString (Opts.url opts)).
  - by rewrite (createFresh_throws _ _ _ _ _ Heo).
Qed.

(** A type "foo" is asked for from [booted] with nothing but
    [{primary: true}]. *)
Lemma unknown_type_needs_electronOptions_witness :
  ~ In "foo" knownTypes
  /\ getByType "foo" booted = None
  /\ create mist "foo" (Opts.mk (Some true) None None None None None None None None)
       None booted
     = Throw (dispatch (WINDOW_CREATE_START "foo") booted).
Proof.
  assert (~ In "foo" knownTypes) as Hnot
    by (simpl; intros H; repeat destruct H as [H|H]; discriminate || done).
  assert (ownKey "foo") as Hk by discriminate.
  assert (getByType "foo" booted = None) as Hg by (by vm_compute).
  split; [exact Hnot|]. split; [exact Hg|].
  apply (unknown_type_needs_electronOptions mist "foo"
           (Opts.mk (Some true) None None None None None None None None)
           None booted Hnot Hk Hg).
Defined.

(** * The pool *)

Lemma availableGeneric_taken s g w :
  wf s -> In ("genericWindow", g) (_windows s) -> deref s g = Some w ->
  isAvailable w = false -> availableGeneric s = None.
Proof.
  intros W Hin Hw Ha. unfold availableGeneric.
  rewrite (wf_getByType _ _ _ W Hin). unfold holds. by rewrite Hw, Ha.
Qed.

(** X13. The pooled window is acquired and released: once [createPopup] has
    recycled it, no generic window is available; closing it -- by
    [close()], or by a native close request while the application is not
    quitting -- makes the same handle available again.  No handle is
    constructed on the way. *)
Theorem pool_is_released_by_close (G : Globals) (type' : string)
  (options : Opts.t) (callback' : option nat) (s : State) (g : ref) :
  wf s ->
  availableGeneric s = Some g ->
  appQuit s = false ->
  availableGeneric (final (createPopup G type' options callback' s)) = None
  /\ availableGeneric (close g (final (createPopup G type' options callback' s)))
     = Some g
  /\ availableGeneric (ev_close g (final (createPopup G type' options callback' s)))
     = Some g
  /\ length (heap (close g (final (createPopup G type' options callback' s))))
     = length (heap s)
  /\ length (heap (ev_close g (final (createPopup G type' options callback' s))))
     = length (heap s).
Proof.
  intros W Ha Hq.
  destruct (availableGeneric_Some s g W Ha) as (Hin & w & Hw & Ht & _ & Hc).
  destruct (popupOptions_electron G type' options s) as (eo & He & _).
  pose proof (wf_createPopup G type' options callback' s W) as W1.
  rewrite (createPopup_recycle G type' options callback' s g w eo W Ha Hw He) in *.
  simpl in *.
  set (opts := popupOptions G type' options s) in *.
  set (s1 := mutate g (reused opts eo) (dispatch (GENERIC_WINDOW_REUSE type') s)) in *.
  assert (deref s1 g = Some (reused opts eo w)) as Hw1
    by (unfold s1; by rewrite deref_mutate_eq, deref_dispatch, Hw).
  assert (type (reused opts eo w) = "genericWindow"
          /\ isClosed (reused opts eo w) = false
          /\ isAvailable (reused opts eo w) = false
          /\ bw_destroyed (window (reused opts eo w)) = false) as (Ht1 & Hc1 & Ha1 & Hd1).
  { pose proof (ok_destroyed _ _ (wf_handles _ W g w Hw)) as Hd. rewrite Hc in Hd.
    unfold reused. by destruct (Opts.truthyString (Opts.url opts)). }
  assert (In ("genericWindow", g) (_windows s1)) as Hin1 by exact Hin.
  split; [by apply (availableGeneric_taken s1 g _ W1 Hin1 Hw1)|].
  rewrite (close_generic g _ s1 Hw1 Ht1 Hc1).
  rewrite (ev_close_generic g _ s1 Hw1 Ht1 Hc1 Hd1 Hq).
  split; [|split; [|split]].
  - apply (availableGeneric_registered _ g (pooled (reused opts eo w)));
      [|done|by rewrite deref_mutate_eq, Hw1|done].
    eapply wf_quiet; [exact W1|]. apply quiet_mutate. keeps_field.
  - apply (availableGeneric_registered _ g
             (pooled (native (bw_set_closeRequested false) (reused opts eo w))));
      [|done|by rewrite deref_mutate_eq, Hw1|done].
    eapply wf_quiet; [exact W1|]. apply quiet_mutate. keeps_field.
  - simpl. by rewrite !length_alter.
  - simpl. by rewrite !length_alter.
Qed.

Lemma pool_is_released_by_close_witness :
  wf booted
  /\ availableGeneric (final (createPopup mist "about" Opts.empty None booted)) = None
  /\ availableGeneric
       (close 1 (final (createPopup mist "about" Opts.empty None booted))) = Some 1.
Proof.
  destruct (pool_is_released_by_close mist "about" Opts.empty None booted 1
              booted_wf eq_refl eq_refl) as (Htaken & Hfree & _).
  split; [exact booted_wf|]. split; [exact Htaken|exact Hfree].
Defined.

(** A popup always asks for an owner: [null] when the caller names none. *)
Lemma popupOptions_ownerId G t options s :
  is_Some (Opts.ownerId (popupOptions G t options s)).
Proof.
  assert (Opts.ownerId (popupOptions G t options s)
          = Opts.ownerId (Opts.deepExtend
                            (Opts.deepExtend (defaultPopupOpts G t)
                               (getDefaultOptionsForType G t)) options)) as ->.
  { unfold popupOptions.
    destruct (getByType "main" s); destruct (Opts.truthy _); reflexivity. }
  simpl. rewrite preset_ownerId. simpl. destruct (Opts.ownerId options); eauto.
Qed.

(** X14. A window created without an owner ([ownerId] is [undefined]) is
    never the answer to a popup request for its type: a popup asks for the
    owner [null] at least, and [undefined === null] is false.  On the
    non-recycling path [createPopup] therefore constructs a new handle,
    which takes over the registry slot of the type; the earlier handle is
    no longer registered. *)
Theorem popup_supersedes_ownerless_window (G : Globals) (type' : string)
  (options : Opts.t) (callback' : option nat) (s s1 : State) (r : ref)
  (w : Window) :
  wf s ->
  availableGeneric s = None ->
  showLoading type' s = Some s1 ->
  In (type', r) (_windows s) ->
  deref s r = Some w ->
  ownerId w = None ->
  exists s',
    createPopup G type' options callback' s = Return (Some (length (heap s))) s'
    /\ length (heap s') = S (length (heap s))
    /\ In (type', length (heap s)) (_windows s')
    /\ ~ In r (map snd (_windows s'))
    /\ is_Some (deref s' r).
Proof.
  intros W Ha Hs Hin Hw Ho.
  pose proof (showLoading_quiet _ _ _ Hs) as Q.
  assert (wf s1) as W1 by eauto using wf_quiet.
  set (opts := popupOptions G type' options s).
  assert (ownerId w <> Opts.ownerId opts) as Hne.
  { rewrite Ho. destruct (popupOptions_ownerId G type' options s) as (o & Heq).
    unfold opts. by rewrite Heq. }
  destruct (quiet_keeps _ _ Q r w Hw) as (w1 & Hw1 & K).
  assert (In (type', r) (_windows s1)) as Hin1 by (by rewrite (quiet_windows _ _ Q)).
  assert (existingFor type' (createOptions G type' opts) s1 = None) as He.
  { unfold existingFor. rewrite (wf_getByType s1 type' r W1 Hin1). unfold holds.
    rewrite Hw1, createOptions_ownerId, (keeps_ownerId _ _ K).
    by rewrite bool_decide_eq_false_2. }
  assert (wf (dispatch (WINDOW_CREATE_START type') s1)) as W0
    by (eapply wf_quiet; [exact W1|apply quiet_dispatch]).
  destruct (createOptions_popup_electron G type' options s) as [eo Heo].
  fold opts in Heo.
  destruct (registered_supersedes G type' (createOptions G type' opts) eo callback'
              (dispatch (WINDOW_CREATE_START type') s1) r W0 Hin1)
    as (Hnew & Hgone & _).
  set (s2 := registered G type' (createOptions G type' opts) eo callback'
               (dispatch (WINDOW_CREATE_START type') s1)) in *.
  assert (deref s2 r = Some w1) as Hold
    by (apply deref_registered_old; by rewrite deref_dispatch).
  assert (create G type' opts callback' s1 = Return (length (heap s)) s2) as Hcr.
  { rewrite (create_fresh G type' opts callback' s1 He).
    rewrite <- (quiet_length _ _ Q).
    exact (createFresh_eq G type' _ eo callback'
             (dispatch (WINDOW_CREATE_START type') s1) Heo). }
  rewrite (createPopup_fresh G type' options callback' s s1 _ _ Ha Hs Hcr).
  eexists. split; [reflexivity|].
  change (heap (dispatch (WINDOW_CREATE_START type') s1)) with (heap s1) in Hnew.
  rewrite (quiet_length _ _ Q) in Hnew.
  split.
  { unfold s2, registered. simpl.
    rewrite length_alter, length_app, (quiet_length _ _ Q). simpl. lia. }
  split; [done|]. split; [done|].
  apply deref_valid in Hw.
  rewrite deref_mutate_ne by lia. rewrite Hold. eauto.
Qed.

Lemma popup_supersedes_ownerless_window_witness :
  wf busy
  /\ In ("loading", 0) (_windows busy)
  /\ (ownerId <$> deref busy 0) = Some None
  /\ exists s', createPopup mist "loading" Opts.empty None busy = Return (Some 3) s'.
Proof.
  assert (wf busy) as W
    by (apply (reachable_wf mist), run_final_reachable, reachable_initial).
  assert (exists w, deref busy 0 = Some w /\ ownerId w = None)
    as (w & Hw & Ho) by (vm_compute; eauto).
  assert (In ("loading", 0) (_windows busy)) as Hin by (vm_compute; tauto).
  destruct (popup_supersedes_ownerless_window mist "loading" Opts.empty None
              busy (show 0 busy) 0 w W eq_refl eq_refl Hin Hw Ho)
    as (s' & Hcp & _).
  split; [exact W|]. split; [exact Hin|]. split; [reflexivity|].
  exists s'. exact Hcp.
Defined.

(** * [init] *)

Lemma obj_set_In_other {A : Type} (k : string) (v : A) (o : jsobject A) k' v' :
  k' <> k -> In (k', v') o -> In (k', v') (obj_set k v o).
Proof.
  intros Hne. induction o as [|[k0 v0] o IH]; simpl; [done|].
  destruct (String.eqb_spec k0 k) as [->|Hne0]; simpl.
  - intros [[= -> ->]|Hin]; [done|by right].
  - intros [Heq|Hin]; [by left|right; by apply IH].
Qed.

Lemma create_windows G t o c s :
  _windows (final (create G t o c s)) = _windows s
  \/ _windows (final (create G t o c s)) = obj_set t (length (heap s)) (_windows s).
Proof.
  unfold create. destruct (existingFor _ _ _); [by left|].
  destruct (Opts.electronOptions (createOptions G t o)) as [eo|] eqn:He.
  - right. by rewrite (createFresh_eq _ _ _ _ _ _ He).
  - left. by rewrite (createFresh_throws _ _ _ _ _ He).
Qed.

Lemma create_heap_length G t o c s :
  length (heap s) <= length (heap (final (create G t o c s))).
Proof.
  unfold create. destruct (existingFor _ _ _); [done|].
  destruct (Opts.electronOptions (createOptions G t o)) as [eo|] eqn:He.
  - rewrite (createFresh_eq _ _ _ _ _ _ He). unfold registered. simpl.
    rewrite length_app. lia.
  - by rewrite (createFresh_throws _ _ _ _ _ He).
Qed.

(** The preset of "loading" has [electronOptions]: [init]'s first call
    returns. *)
Lemma create_loading_returns G s :
  exists l s1, create G "loading" Opts.empty None s = Return l s1.
Proof.
  unfold create. destruct (existingFor _ _ _) as [e|]; [eauto|].
  assert (is_Some (Opts.electronOptions (createOptions G "loading" Opts.empty)))
    as [eo He] by (unfold createOptions; simpl; eauto).
  rewrite (createFresh_eq _ _ _ _ _ _ He). eauto.
Qed.

Lemma create_keeps_other_types G t o c s k r :
  k <> t -> wf s ->
  (In (k, r) (_windows (final (create G t o c s))) <-> In (k, r) (_windows s)).
Proof.
  intros Hne W. destruct (create_windows G t o c s) as [-> | ->]; [done|].
  split.
  - intros Hin. apply obj_set_In in Hin as [[-> _]|[_ Hin]]; [done|done|apply W].
  - by apply obj_set_In_other.
Qed.

Lemma getByType_None_iff s t :
  wf s -> (getByType t s = None <-> forall r, ~ In (t, r) (_windows s)).
Proof.
  intros W. split.
  - intros Hg r Hin. by rewrite (wf_getByType s t r W Hin) in Hg.
  - intros Hnone. destruct (getByType t s) as [r|] eqn:Hg; [|done].
    exfalso. apply (Hnone r). by apply wf_getByType_In.
Qed.

Lemma freshHandle_fields G t o eo c wnd :
  isAvailable (freshHandle G t o eo c wnd) = Opts.truthy (Opts.isAvailable o)
  /\ isPopup (freshHandle G t o eo c wnd) = Opts.truthy (Opts.isPopup o)
  /\ isPrimary (freshHandle G t o eo c wnd) = Opts.truthy (Opts.primary o)
  /\ ownerId (freshHandle G t o eo c wnd) = Opts.ownerId o
  /\ isShown (freshHandle G t o eo c wnd) = false.
Proof. unfold freshHandle. by destruct c. Qed.

Lemma genericWindow_options G s :
  Opts.isAvailable
    (createOptions G "genericWindow"
       (popupOptions G "genericWindow" genericWindowOptions s)) = Some true
  /\ Opts.isPopup
       (createOptions G "genericWindow"
          (popupOptions G "genericWindow" genericWindowOptions s)) = Some true
  /\ Opts.primary
       (createOptions G "genericWindow"
          (popupOptions G "genericWindow" genericWindowOptions s)) = None
  /\ Opts.ownerId
       (createOptions G "genericWindow"
          (popupOptions G "genericWindow" genericWindowOptions s)) = Some OwnerNull.
Proof.
  unfold createOptions, popupOptions.
  by destruct (getByType "main" s).
Qed.

(** X15. [init] on a registry that holds no generic window returns
    normally and sets up the pool: [this.loading] is the handle registered
    under "loading", [this.genericWindow] is a newly constructed handle
    registered under "genericWindow" -- a popup, not primary, not shown,
    owned by [null] -- and it is available for recycling.  [app.quit()] is
    not called and the state is well-formed. *)
Theorem init_sets_up_the_pool (G : Globals) (s : State) :
  wf s ->
  getByType "genericWindow" s = None ->
  exists l g s' w,
    init G s = Return tt s'
    /\ loading s' = Some l
    /\ genericWindow s' = Some g
    /\ In ("loading", l) (_windows s')
    /\ In ("genericWindow", g) (_windows s')
    /\ length (heap s) <= g
    /\ availableGeneric s' = Some g
    /\ deref s' g = Some w
    /\ isPopup w = true /\ isPrimary w = false /\ isShown w = false
    /\ ownerId w = Some OwnerNull
    /\ quitCalls s' = quitCalls s
    /\ wf s'.
Proof.
  intros W Hnone.
  pose proof (wf_init G s W) as Wi.
  pose proof (quitCalls_init G s) as Hq.
  unfold init in *.
  destruct (create_loading_returns G s) as (l & s1 & Hc1).
  pose proof (wf_create G "loading" Opts.empty None s W) as W1.
  destruct (create_returned G "loading" Opts.empty None s l s1 W Hc1)
    as (lw & Hl & Hlw & _).
  pose proof (create_keeps_other_types G "loading" Opts.empty None s "genericWindow")
    as Hkeep.
  pose proof (create_heap_length G "loading" Opts.empty None s) as Hlen.
  rewrite Hc1 in *. simpl in W1, Hkeep, Hlen.
  set (s2 := set_loading (Some l) s1) in *.
  assert (wf s2) as W2 by (by apply (wf_same s1)).
  assert (getByType "genericWindow" s2 = None) as Hnone2.
  { apply (getByType_None_iff s2 _ W2). intros r Hin.
    apply (proj1 (getByType_None_iff s _ W) Hnone r).
    apply (Hkeep r); [discriminate|done|exact Hin]. }
  assert (availableGeneric s2 = None) as Ha
    by (unfold availableGeneric; by rewrite Hnone2).
  set (opts := popupOptions G "genericWindow" genericWindowOptions s2) in *.
  set (copts := createOptions G "genericWindow" opts) in *.
  assert (existingFor "genericWindow" copts s2 = None)
    as He by (unfold existingFor; by rewrite Hnone2).
  destruct (createOptions_popup_electron G "genericWindow" genericWindowOptions s2)
    as [eo Heo].
  fold opts in Heo. fold copts in Heo.
  set (s0 := dispatch (WINDOW_CREATE_START "genericWindow") s2) in *.
  set (s3 := registered G "genericWindow" copts eo None s0).
  assert (create G "genericWindow" opts None s2 = Return (length (heap s1)) s3)
    as Hcr.
  { rewrite (create_fresh G "genericWindow" opts None s2 He).
    exact (createFresh_eq G "genericWindow" copts eo None s0 Heo). }
  pose proof (createPopup_fresh G "genericWindow" genericWindowOptions None s2 s2
                _ _ Ha (showLoading_generic s2) Hcr) as Hcp.
  rewrite Hcp in Wi, Hq |- *. simpl in Wi, Hq.
  set (w := awaitReady "genericWindow"
              (freshHandle G "genericWindow" copts eo None (length (heap s1)))).
  assert (deref (mutate (length (heap s1)) (awaitReady "genericWindow") s3)
            (length (heap s1)) = Some w) as Hw.
  { rewrite deref_mutate_eq.
    change (deref s3 (length (heap s1)))
      with (deref (registered G "genericWindow" copts eo None s0) (length (heap s0))).
    by rewrite (deref_registered_new G "genericWindow" copts eo None s0). }
  assert (In ("genericWindow", length (heap s1)) (_windows s3))
    as Hg by apply obj_set_In_new.
  assert (In ("loading", l) (_windows s3))
    as Hl' by (by apply obj_set_In_other).
  destruct (freshHandle_fields G "genericWindow" copts eo
              None (length (heap s1))) as (Fa & Fp & Fpr & Fo & Fs).
  destruct (genericWindow_options G s2) as (Oa & Op & Opr & Oo).
  fold opts in Oa, Op, Opr, Oo. fold copts in Oa, Op, Opr, Oo.
  rewrite Oa in Fa. rewrite Op in Fp. rewrite Opr in Fpr. rewrite Oo in Fo.
  eexists l, (length (heap s1)), _, w.
  split; [reflexivity|].
  split; [reflexivity|].
  split; [done|]. split; [exact Hl'|]. split; [exact Hg|]. split; [exact Hlen|].
  split; [by apply (availableGeneric_registered _ _ w Wi Hg Hw)|].
  split; [exact Hw|].
  split; [exact Fp|]. split; [exact Fpr|]. split; [exact Fs|]. split; [exact Fo|].
  split; [exact Hq|exact Wi].
Qed.

Lemma init_sets_up_the_pool_witness :
  wf initial
  /\ getByType "genericWindow" initial = None
  /\ availableGeneric (final (init mist initial)) = Some 1.
Proof.
  destruct (init_sets_up_the_pool mist initial wf_initial eq_refl)
    as (l & g & s' & w & Hi & _ & _ & _ & _ & _ & Ha & _).
  split; [exact wf_initial|]. split; [reflexivity|]. by vm_compute.
Defined.

(** X16. [init] is not to be called while the pooled window is available:
    [createPopup("genericWindow")] then takes the recycling path, whose
    value is [undefined].  [init] returns normally, but [this.genericWindow]
    is [undefined] afterwards and the pooled handle, still registered, is
    no longer available. *)
Theorem init_again_takes_the_pool (G : Globals) (s : State) (g : ref) :
  wf s ->
  availableGeneric s = Some g ->
  exists s',
    init G s = Return tt s'
    /\ genericWindow s' = None
    /\ In ("genericWindow", g) (_windows s')
    /\ (isAvailable <$> deref s' g) = Some false
    /\ availableGeneric s' = None
    /\ is_Some (loading s').
Proof.
  intros W Ha.
  pose proof (wf_init G s W) as Wi.
  destruct (availableGeneric_Some s g W Ha) as (Hin & w & Hw & _ & Hav & _).
  unfold init in *.
  destruct (create_loading_returns G s) as (l & s1 & Hc1).
  pose proof (wf_create G "loading" Opts.empty None s W) as W1.
  pose proof (create_old G "loading" Opts.empty None s g w Hw) as Hw1.
  pose proof (create_keeps_other_types G "loading" Opts.empty None s
                "genericWindow" g) as Hkeep.
  rewrite Hc1 in *. simpl in W1, Hw1, Hkeep.
  set (s2 := set_loading (Some l) s1) in *.
  assert (wf s2) as W2 by (by apply (wf_same s1)).
  assert (In ("genericWindow", g) (_windows s2)) as Hin2
    by (apply Hkeep; [discriminate|done|exact Hin]).
  assert (deref s2 g = Some w) as Hw2 by exact Hw1.
  pose proof (availableGeneric_registered s2 g w W2 Hin2 Hw2 Hav) as Ha2.
  destruct (popupOptions_electron G "genericWindow" genericWindowOptions s2)
    as (eo & He & _).
  rewrite (createPopup_recycle G "genericWindow" genericWindowOptions None s2 g w eo
             W2 Ha2 Hw2 He) in *.
  simpl in Wi |- *.
  set (opts := popupOptions G "genericWindow" genericWindowOptions s2) in *.
  assert (deref (mutate g (reused opts eo)
                   (dispatch (GENERIC_WINDOW_REUSE "genericWindow") s2)) g
          = Some (reused opts eo w)) as Hw'
    by (by rewrite deref_mutate_eq, deref_dispatch, Hw2).
  assert (isAvailable (reused opts eo w) = false) as Hav'
    by (unfold reused; by destruct (Opts.truthyString (Opts.url opts))).
  eexists. split; [reflexivity|].
  split; [reflexivity|]. split; [exact Hin2|].
  split.
  { change (isAvailable <$> deref (mutate g (reused opts eo)
                                     (dispatch (GENERIC_WINDOW_REUSE "genericWindow") s2)) g
            = Some false).
    by rewrite Hw', <- Hav'. }
  split; [exact (availableGeneric_taken _ g _ Wi Hin2 Hw' Hav')|].
  simpl. eauto.
Qed.

Lemma init_again_takes_the_pool_witness :
  wf booted
  /\ availableGeneric booted = Some 1
  /\ genericWindow booted = Some 1
  /\ genericWindow (final (init mist booted)) = None.
Proof.
  destruct (init_again_takes_the_pool mist booted 1 booted_wf eq_refl)
    as (s' & Hi & Hg & _).
  split; [exact booted_wf|]. split; [reflexivity|]. split; [reflexivity|].
  by rewrite Hi.
Defined.

(** * [broadcast] *)

Lemma deref_send_other r c a s r' :
  r <> r' -> deref (send r c a s) r' = deref s r'.
Proof. intros Hne. by apply (local_others _ _ _ (local_send r c a s)). Qed.

Lemma deref_send_ready r c a s w :
  deref s r = Some w -> isClosed w = false -> isContentReady w = true ->
  deref (send r c a s) r = Some (receives [(c, a)] w).
Proof.
  intros Hw Hc Hr. unfold send.
  rewrite (on_handle_some _ _ _ _ Hw), Hc, Hr. simpl.
  by rewrite deref_mutate_eq, Hw.
Qed.

Lemma deref_send_dropped r c a s w :
  deref s r = Some w -> isClosed w = true \/ isContentReady w = false ->
  deref (send r c a s) r = Some w.
Proof.
  intros Hw Hdrop. unfold send. rewrite (on_handle_some _ _ _ _ Hw).
  destruct Hdrop as [-> | ->]; [done|]. by rewrite orb_true_r.
Qed.

Lemma broadcast_outside c a (l : jsobject ref) s r :
  ~ In r (map snd l) ->
  deref (fold_left (fun acc kv => send (snd kv) c a acc) l s) r = deref s r.
Proof.
  revert s. induction l as [|[k r0] l IH]; intros s Hnot; simpl in *; [done|].
  rewrite IH by tauto. apply deref_send_other. tauto.
Qed.

Lemma broadcast_inside c a (l : jsobject ref) s r :
  List.NoDup (map snd l) -> In r (map snd l) ->
  deref (fold_left (fun acc kv => send (snd kv) c a acc) l s) r
  = deref (send r c a s) r.
Proof.
  revert s. induction l as [|[k r0] l IH]; intros s Hnd Hin; simpl in *; [done|].
  inversion_clear Hnd as [|? ? Hnotin Hnd'].
  destruct (decide (r0 = r)) as [->|Hne].
  - by apply broadcast_outside.
  - destruct Hin as [?|Hin]; [done|].
    rewrite (IH _ Hnd' Hin).
    destruct (deref s r) as [w|] eqn:Hw.
    + assert (deref (send r0 c a s) r = Some w) as Hw'
        by (by rewrite deref_send_other).
      destruct (isClosed w) eqn:Hc;
        [by rewrite !(deref_send_dropped r c a _ w) by auto|].
      destruct (isContentReady w) eqn:Hr;
        [|by rewrite !(deref_send_dropped r c a _ w) by auto].
      by rewrite !(deref_send_ready r c a _ w).
    + assert (deref (send r0 c a s) r = None) as Hw'
        by (by rewrite deref_send_other).
      assert (forall s0, deref s0 r = None -> send r c a s0 = s0) as Hnone
        by (intros s0 H0; unfold send; by rewrite on_handle_none).
      rewrite (Hnone _ Hw'), (Hnone s Hw). congruence.
Qed.

(** X17. [broadcast] hands the message, once, to every registered handle
    whose content is ready, and to no other: a registered handle that is
    not ready yet and every handle outside the registry are left as they
    were.  The registry itself, the quit count and the identity of every
    handle are untouched. *)
Theorem broadcast_reaches_ready_registered_windows (channel : string)
  (args : list scalar) (s : State) :
  wf s ->
  (forall k r w,
     In (k, r) (_windows s) -> deref s r = Some w -> isContentReady w = true ->
     deref (broadcast channel args s) r = Some (receives [(channel, args)] w))
  /\ (forall r w,
        deref s r = Some w ->
        ~ In r (map snd (_windows s)) \/ isContentReady w = false ->
        deref (broadcast channel args s) r = Some w)
  /\ quiet s (broadcast channel args s).
Proof.
  intros W. unfold broadcast. split; [|split].
  - intros k r w Hin Hw Hr.
    destruct (wf_entries _ W k r Hin) as (w0 & Hw0 & _ & Hc).
    assert (w0 = w) as -> by congruence.
    rewrite broadcast_inside;
      [by apply deref_send_ready|by apply wf_values|by apply (in_map snd _ (k, r))].
  - intros r w Hw [Hout|Hnr].
    + by rewrite broadcast_outside.
    + destruct (in_dec Nat.eq_dec r (map snd (_windows s))) as [Hin|Hout];
        [|by rewrite broadcast_outside].
      rewrite broadcast_inside; [|by apply wf_values|done].
      apply deref_send_dropped; auto.
  - apply quiet_fold. intros kv s0. apply quiet_send.
Qed.

Lemma broadcast_reaches_ready_registered_windows_witness :
  wf (ev_didFinishLoad 0 booted)
  /\ (bw_received ∘ window <$> deref (broadcast "tick" [] (ev_didFinishLoad 0 booted)) 0)
     = Some [("tick", [])]
  /\ (bw_received ∘ window <$> deref (broadcast "tick" [] (ev_didFinishLoad 0 booted)) 1)
     = Some [].
Proof.
  assert (wf (ev_didFinishLoad 0 booted)) as W
    by (eapply wf_quiet; [apply booted_wf|apply quiet_ev_didFinishLoad, booted_wf]).
  destruct (broadcast_reaches_ready_registered_windows "tick" [] _ W)
    as (Hready & Hnot & _).
  assert (exists w, deref (ev_didFinishLoad 0 booted) 0 = Some w
                    /\ isContentReady w = true /\ bw_received (window w) = [])
    as (w & Hw & Hr & Hrecv) by (vm_compute; eauto).
  assert (In ("loading", 0) (_windows (ev_didFinishLoad 0 booted))) as Hin
    by (vm_compute; tauto).
  assert (exists w1, deref (ev_didFinishLoad 0 booted) 1 = Some w1
                     /\ isContentReady w1 = false /\ bw_received (window w1) = [])
    as (w1 & Hw1 & Hr1 & Hrecv1) by (vm_compute; eauto).
  split; [exact W|]. split.
  - rewrite (Hready "loading" 0 w Hin Hw Hr). simpl. by rewrite Hrecv.
  - rewrite (Hnot 1 w1 Hw1 (or_intror Hr1)). simpl. by rewrite Hrecv1.
Defined.

(** * The content has loaded *)

Lemma mutate_fixed r f s w : deref s r = Some w -> f w = w -> mutate r f s = s.
Proof.
  intros Hw Hf. destruct s as [h ws l g q d n].
  unfold mutate, set_heap, deref, ref in *. simpl in *. f_equal.
  apply list_eq. intros i.
  destruct (decide (r = i)) as [<-|Hne]; [|by apply list_lookup_alter_ne].
  rewrite list_lookup_alter_eq, Hw. simpl. by rewrite Hf.
Qed.

Lemma native_clear_fixed w :
  bw_finishLoadOnce (window w) = [] -> native (bw_set_finishLoadOnce []) w = w.
Proof.
  destruct w as [? ? ? ? ? ? ? ? ? [] ? ?]. simpl. by intros ->.
Qed.

Lemma receives_nil w : receives [] w = w.
Proof.
  destruct w as [? ? ? ? ? ? ? ? ? [] ? ?]. unfold receives, native. simpl.
  by rewrite app_nil_r.
Qed.

Lemma receives_receives ms1 ms2 w :
  receives ms2 (receives ms1 w) = receives (ms1 ++ ms2) w.
Proof. unfold receives, native. simpl. by rewrite app_assoc. Qed.

Lemma deref_sendInitialData_ready r d s w :
  deref s r = Some w -> isClosed w = false -> isContentReady w = true ->
  deref (sendInitialData r d s) r = Some (receives (initialMessages d) w).
Proof.
  intros Hw Hc Hr. unfold sendInitialData, initialMessages.
  destruct d as [[c|entries]|]; simpl.
  - destruct (String.eqb c ""); simpl; [by rewrite receives_nil|].
    by apply deref_send_ready.
  - revert s w Hw Hc Hr.
    induction entries as [|[k v] entries IH]; intros s w Hw Hc Hr; simpl;
      [by rewrite receives_nil|].
    rewrite (IH _ (receives [(k, [v])] w)); try done.
    + by rewrite receives_receives.
    + by apply deref_send_ready.
  - by rewrite receives_nil.
Qed.

(** The first 'did-finish-load' of a handle nobody waits for. *)
Lemma didFinishLoad_created r w d sh s :
  deref s r = Some w ->
  isClosed w = false ->
  bw_destroyed (window w) = false ->
  bw_finishLoadOnce (window w) = [OnContentLoaded d sh] ->
  readyOnce w = [] ->
  exists w',
    deref (ev_didFinishLoad r s) r = Some w'
    /\ isContentReady w' = true
    /\ bw_received (window w') = bw_received (window w) ++ initialMessages d
    /\ isShown w' = (if sh then true else isShown w)
    /\ bw_finishLoadOnce (window w') = []
    /\ bw_destroyed (window w') = false
    /\ (forall r', r' <> r -> deref (ev_didFinishLoad r s) r' = deref s r').
Proof.
  intros Hw Hc Hd Hls Hr.
  unfold ev_didFinishLoad. rewrite (on_handle_some _ _ _ _ Hw), Hd, Hls. simpl.
  set (wb := set_isContentReady true (native (bw_set_finishLoadOnce []) w)).
  set (sb := mutate r (set_isContentReady true)
               (mutate r (native (bw_set_finishLoadOnce [])) s)).
  assert (deref sb r = Some wb) as Hwb
    by (unfold sb; by rewrite !deref_mutate_eq, Hw).
  assert (forall r', r' <> r -> deref sb r' = deref s r') as Hob
    by (intros r' Hne; unfold sb; by rewrite !deref_mutate_ne).
  set (sc := sendInitialData r d sb).
  pose proof (deref_sendInitialData_ready r d sb wb Hwb Hc eq_refl) as Hwc.
  fold sc in Hwc.
  pose proof (local_others _ _ _ (local_sendInitialData r d sb)) as Hoc. fold sc in Hoc.
  set (wc := receives (initialMessages d) wb) in *.
  destruct sh.
  - rewrite (show_open r wc sc Hwc Hc).
    set (sd := mutate r (set_isShown true ∘ native (bw_set_visible true)) sc).
    assert (deref sd r = Some ((set_isShown true ∘ native (bw_set_visible true)) wc))
      as Hwd by (unfold sd; by rewrite deref_mutate_eq, Hwc).
    unfold emit_ready. rewrite (on_handle_some _ _ _ _ Hwd). simpl. rewrite Hr. simpl.
    eexists. split; [by rewrite deref_mutate_eq, Hwd|].
    repeat split; try done.
    intros r' Hne. unfold sd. rewrite !deref_mutate_ne by done.
    rewrite Hoc by done. by apply Hob.
  - unfold emit_ready. rewrite (on_handle_some _ _ _ _ Hwc). simpl. rewrite Hr. simpl.
    eexists. split; [by rewrite deref_mutate_eq, Hwc|].
    repeat split; try done.
    intros r' Hne. rewrite !deref_mutate_ne by done.
    rewrite Hoc by done. by apply Hob.
Qed.

Lemma freshHandle_blank G t o eo c wnd :
  isContentReady (freshHandle G t o eo c wnd) = false
  /\ bw_received (window (freshHandle G t o eo c wnd)) = [].
Proof.
  unfold freshHandle, constructed.
  destruct c; simpl; by destruct (Opts.truthyString (Opts.url o)).
Qed.

(** X18. [create] constructs a window -- no window of that type and owner
    is registered and the merged options carry [electronOptions] -- and the
    window finishes loading: its content is ready, it has been sent exactly
    the messages of [sendData] -- the channel alone for a string, one message
    per key, in order, for an object -- and it is shown exactly when the
    merged options say [show].  No other handle changes, and
    'did-finish-load' firing again does nothing: the handle is made ready
    once. *)
Theorem content_loaded_sends_data_once (G : Globals) (T : string)
  (opts : Opts.t) (callback' : option nat) (s : State) (eo : Opts.Electron) :
  supportedMode G ->
  existingFor T (createOptions G T opts) s = None ->
  Opts.electronOptions (createOptions G T opts) = Some eo ->
  exists s' w',
    create G T opts callback' s = Return (length (heap s)) s'
    /\ deref (ev_didFinishLoad (length (heap s)) s') (length (heap s)) = Some w'
    /\ isContentReady w' = true
    /\ bw_received (window w')
       = initialMessages (Opts.sendData (createOptions G T opts))
    /\ isShown w' = Opts.truthy (Opts.show (createOptions G T opts))
    /\ (forall r, r <> length (heap s) ->
          deref (ev_didFinishLoad (length (heap s)) s') r = deref s' r)
    /\ ev_didFinishLoad (length (heap s)) (ev_didFinishLoad (length (heap s)) s')
       = ev_didFinishLoad (length (heap s)) s'.
Proof.
  intros _ He Heo.
  set (copts := createOptions G T opts) in *.
  set (s0 := dispatch (WINDOW_CREATE_START T) s).
  set (s' := registered G T copts eo callback' s0).
  set (w := freshHandle G T copts eo callback' (length (heap s))).
  assert (create G T opts callback' s = Return (length (heap s)) s') as Hcr.
  { rewrite (create_fresh G T opts callback' s He).
    exact (createFresh_eq G T copts eo callback' s0 Heo). }
  assert (deref s' (length (heap s)) = Some w)
    as Hw by apply (deref_registered_new G T copts eo callback' s0).
  destruct (freshHandle_blank G T copts eo callback' (length (heap s)))
    as (Hnr & Hrecv).
  pose proof (freshHandle_ok G T copts eo callback' (length (heap s))) as [_ _ Hd].
  rewrite freshHandle_isClosed in Hd.
  destruct (freshHandle_fields G T copts eo callback' (length (heap s)))
    as (_ & _ & _ & _ & Hsh).
  destruct (didFinishLoad_created (length (heap s)) w _ _ _ Hw
              (freshHandle_isClosed G T copts eo callback' _) Hd
              (freshHandle_finishLoadOnce G T copts eo callback' _)
              (freshHandle_readyOnce G T copts eo callback' _))
    as (w' & Hw' & Hr' & Hrecv' & Hsh' & Hls' & Hd' & Hothers).
  exists s', w'. split; [exact Hcr|]. split; [exact Hw'|]. split; [exact Hr'|].
  split; [fold w in Hrecv; by rewrite Hrecv', Hrecv|].
  split; [fold w in Hsh; rewrite Hsh', Hsh; by destruct (Opts.truthy _)|].
  split; [exact Hothers|].
  set (s2 := ev_didFinishLoad (length (heap s)) s') in *.
  unfold ev_didFinishLoad at 1.
  rewrite (on_handle_some _ _ _ _ Hw'), Hd', Hls'. simpl.
  apply (mutate_fixed _ _ _ w' Hw'). by apply native_clear_fixed.
Qed.

(** "main" is created from [booted] with two messages to send: handle 2
    receives them when its content has loaded. *)
Lemma content_loaded_sends_data_once_witness :
  existingFor "main"
    (createOptions mist "main"
       (Opts.mk None None None None None (Some true) None
          (Some (SendObject [("uiAction_a", SNum 1); ("uiAction_b", SNum 2)])) None))
    booted = None
  /\ exists s' w',
       create mist "main"
         (Opts.mk None None None None None (Some true) None
            (Some (SendObject [("uiAction_a", SNum 1); ("uiAction_b", SNum 2)])) None)
         None booted = Return 2 s'
       /\ deref (ev_didFinishLoad 2 s') 2 = Some w'
       /\ bw_received (window w')
          = [("uiAction_a", [SNum 1]); ("uiAction_b", [SNum 2])].
Proof.
  assert (existingFor "main"
            (createOptions mist "main"
               (Opts.mk None None None None None (Some true) None
                  (Some (SendObject [("uiAction_a", SNum 1); ("uiAction_b", SNum 2)]))
                  None))
            booted = None) as He by (by vm_compute).
  split; [exact He|].
  destruct (content_loaded_sends_data_once mist "main"
              (Opts.mk None None None None None (Some true) None
                 (Some (SendObject [("uiAction_a", SNum 1); ("uiAction_b", SNum 2)]))
                 None) None booted _ (or_introl eq_refl) He eq_refl)
    as (s' & w' & Hcr & Hw' & _ & Hrecv & _).
  exists s', w'. split; [exact Hcr|]. split; [exact Hw'|exact Hrecv].
Defined.

(** * Looking a window up by the toolkit's id *)

Lemma find_registered s r :
  In r (map snd (_windows s)) ->
  _find (fun r' => Nat.eqb r' r) (_windows s) = Some r.
Proof.
  intros Hin. apply in_map_iff in Hin as ([k r0] & Heq & Hin). simpl in Heq. subst r0.
  destruct (_find_is_Some (fun r' => Nat.eqb r' r) (_windows s) k r Hin
              (Nat.eqb_refl r)) as (v & Hf).
  rewrite Hf. f_equal.
  apply _find_Some in Hf as (_ & _ & Hv). by apply Nat.eqb_eq in Hv.
Qed.

Lemma find_unregistered s r :
  ~ In r (map snd (_windows s)) ->
  _find (fun r' => Nat.eqb r' r) (_windows s) = None.
Proof.
  intros Hnot. apply _find_None. intros k v Hin.
  apply Nat.eqb_neq. intros ->. apply Hnot. by apply (in_map snd _ (k, r)).
Qed.

(** X19. When the content of a registered window reports the toolkit's id,
    the id is stored on its handle and on no other, and [getById] finds the
    handle by it as long as no other registered handle carries the same
    id.  A report from a window whose handle is not registered -- one that
    [create] has superseded, or no window of the registry at all -- is
    ignored.  [getById] only ever returns registered handles. *)
Theorem getById_finds_reported_window (s : State) (ids : Ids) (r : ref)
  (id : nat) :
  In r (map snd (_windows s)) ->
  (forall r', In r' (map snd (_windows s)) -> r' <> r -> ids r' <> Some id) ->
  onSetWindowId (Some r) id s ids r = Some id
  /\ (forall r', r' <> r -> onSetWindowId (Some r) id s ids r' = ids r')
  /\ getById (Some id) s (onSetWindowId (Some r) id s ids) = Some r
  /\ (forall b r', ~ In b (map snd (_windows s)) ->
                   onSetWindowId (Some b) id s ids r' = ids r')
  /\ (forall r', onSetWindowId None id s ids r' = ids r')
  /\ (forall i ids' r', getById i s ids' = Some r' ->
                        In r' (map snd (_windows s)) /\ ids' r' = i).
Proof.
  intros Hin Huniq.
  assert (forall r', onSetWindowId (Some r) id s ids r'
                     = if Nat.eqb r' r then Some id else ids r') as Hset
    by (intros r'; unfold onSetWindowId; by rewrite (find_registered s r Hin)).
  split; [by rewrite Hset, Nat.eqb_refl|].
  split; [intros r' Hne; rewrite Hset; by apply Nat.eqb_neq in Hne as ->|].
  split.
  { unfold getById.
    apply in_map_iff in Hin as ([k r0] & Heq & Hin0). simpl in Heq. subst r0.
    destruct (_find_is_Some
                (fun r' => bool_decide (onSetWindowId (Some r) id s ids r' = Some id))
                (_windows s) k r Hin0) as (v & Hf).
    { apply bool_decide_eq_true_2. by rewrite Hset, Nat.eqb_refl. }
    rewrite Hf. f_equal.
    apply _find_Some in Hf as (kv & Hinv & Hv). apply bool_decide_eq_true_1 in Hv.
    destruct (decide (v = r)) as [->|Hne]; [done|].
    exfalso. rewrite Hset in Hv. apply Nat.eqb_neq in Hne as Hb. rewrite Hb in Hv.
    apply (Huniq v); [by apply (in_map snd _ (kv, v))|done|done]. }
  split.
  { intros b r' Hnot. unfold onSetWindowId. by rewrite (find_unregistered s b Hnot). }
  split; [done|].
  intros i ids' r' Hg. unfold getById in Hg.
  apply _find_Some in Hg as (k & Hink & Hv). apply bool_decide_eq_true_1 in Hv.
  split; [by apply (in_map snd _ (k, r'))|done].
Qed.

Lemma getById_finds_reported_window_witness :
  In 1 (map snd (_windows booted))
  /\ getById (Some 42) booted (onSetWindowId (Some 1) 42 booted (fun _ => None))
     = Some 1.
Proof.
  assert (In 1 (map snd (_windows booted))) as Hin by (vm_compute; tauto).
  split; [exact Hin|].
  assert (forall r', In r' (map snd (_windows booted)) -> r' <> 1 ->
                     (fun _ : ref => @None nat) r' <> Some 42) as Huniq
    by (intros r' _ _; discriminate).
  destruct (getById_finds_reported_window booted (fun _ => None) 1 42 Hin Huniq)
    as (_ & _ & Hg & _).
  exact Hg.
Defined.

(** * Two sharp edges of [createPopup] *)

(** X20. [reuse] does not reset [isContentReady]: a pooled window whose
    content was ready is still ready right after [createPopup] has recycled
    it, so a [send] made before the new content has loaded is not dropped
    but handed to the web contents. *)
Theorem recycled_window_stays_ready (G : Globals) (type' : string)
  (options : Opts.t) (callback' : option nat) (s : State) (g : ref)
  (w : Window) (channel : string) (args : list scalar) :
  wf s ->
  In ("genericWindow", g) (_windows s) ->
  deref s g = Some w ->
  isAvailable w = true ->
  isContentReady w = true ->
  exists w1,
    deref (final (createPopup G type' options callback' s)) g = Some w1
    /\ isContentReady w1 = true
    /\ bw_received (window w1) = bw_received (window w)
    /\ deref (send g channel args (final (createPopup G type' options callback' s))) g
       = Some (receives [(channel, args)] w1).
Proof.
  intros W Hin Hw Ha Hr.
  pose proof (availableGeneric_registered s g w W Hin Hw Ha) as Hav.
  destruct (wf_entries _ W _ _ Hin) as (w0 & Hw0 & _ & Hc).
  assert (w0 = w) as -> by congruence.
  destruct (popupOptions_electron G type' options s) as (eo & He & _).
  rewrite (createPopup_recycle G type' options callback' s g w eo W Hav Hw He).
  simpl.
  set (opts := popupOptions G type' options s).
  set (s1 := mutate g (reused opts eo) (dispatch (GENERIC_WINDOW_REUSE type') s)).
  assert (deref s1 g = Some (reused opts eo w)) as Hw1
    by (unfold s1; by rewrite deref_mutate_eq, deref_dispatch, Hw).
  assert (isContentReady (reused opts eo w) = true
          /\ isClosed (reused opts eo w) = false
          /\ bw_received (window (reused opts eo w)) = bw_received (window w))
    as (Hr1 & Hc1 & Hrecv).
  { unfold reused. by destruct (Opts.truthyString (Opts.url opts)). }
  exists (reused opts eo w).
  split; [done|]. split; [done|]. split; [done|].
  by apply deref_send_ready.
Qed.

Lemma recycled_window_stays_ready_witness :
  wf (ev_didFinishLoad 1 booted)
  /\ (isContentReady <$> deref (ev_didFinishLoad 1 booted) 1) = Some true
  /\ (bw_received ∘ window <$>
      deref (send 1 "uiAction_x" []
               (final (createPopup mist "about" Opts.empty None
                         (ev_didFinishLoad 1 booted)))) 1)
     = Some [("uiAction_x", [])].
Proof.
  assert (wf (ev_didFinishLoad 1 booted)) as W
    by (eapply wf_quiet; [apply booted_wf|apply quiet_ev_didFinishLoad, booted_wf]).
  assert (exists w, deref (ev_didFinishLoad 1 booted) 1 = Some w
                    /\ isAvailable w = true /\ isContentReady w = true
                    /\ bw_received (window w) = [])
    as (w & Hw & Ha & Hr & Hrecv) by (vm_compute; eauto 10).
  assert (In ("genericWindow", 1) (_windows (ev_didFinishLoad 1 booted))) as Hin
    by (vm_compute; tauto).
  destruct (recycled_window_stays_ready mist "about" Opts.empty None _ 1 w
              "uiAction_x" [] W Hin Hw Ha Hr) as (w1 & _ & _ & Hrecv1 & Hsend).
  split; [exact W|]. split; [reflexivity|].
  rewrite Hsend. simpl. by rewrite Hrecv1, Hrecv.
Defined.

(** X21. The loading window can stay up.  [createPopup] on the
    non-recycling path shows it and waits for 'ready' of the handle [create]
    returns; when that is an existing handle whose content has loaded
    already, no closure is left that would emit 'ready': the loading
    window is shown when the call returns, and a further 'did-finish-load'
    of the handle does not hide it. *)
Theorem loading_stays_shown_for_loaded_window (G : Globals) (type' : string)
  (options : Opts.t) (callback' : option nat) (s : State) (l e : ref)
  (lw ew : Window) :
  wf s ->
  availableGeneric s = None ->
  type' <> "genericWindow" ->
  loading s = Some l ->
  deref s l = Some lw ->
  isClosed lw = false ->
  existingFor type' (createOptions G type' (popupOptions G type' options s)) s
  = Some e ->
  deref s e = Some ew ->
  bw_finishLoadOnce (window ew) = [] ->
  l <> e ->
  exists s',
    createPopup G type' options callback' s = Return (Some e) s'
    /\ (isShown <$> deref s' l) = Some true
    /\ (isShown <$> deref (ev_didFinishLoad e s') l) = Some true
    /\ length (heap s') = length (heap s).
Proof.
  intros W Ha Hne Hl Hlw Hc He Hew Hls Hle.
  pose proof (showLoading_other type' s l Hne Hl) as Hs.
  pose proof (showLoading_quiet _ _ _ Hs) as Q.
  set (opts := popupOptions G type' options s) in *.
  pose proof (create_cases G type' opts callback' s (show l s) W Q) as Hcase.
  rewrite He in Hcase. destruct Hcase as (Hcr & _).
  rewrite (createPopup_fresh G type' options callback' s _ _ _ Ha Hs Hcr).
  set (s1 := show l s) in *.
  assert (deref s1 l = Some ((set_isShown true ∘ native (bw_set_visible true)) lw))
    as Hlw1 by (unfold s1; by rewrite (show_open l lw s Hlw Hc), deref_mutate_eq, Hlw).
  assert (deref s1 e = Some ew) as Hew1.
  { unfold s1. rewrite (show_open l lw s Hlw Hc). by rewrite deref_mutate_ne. }
  set (s' := mutate e (awaitReady type') (dispatch (WINDOW_CREATE_START type') s1)).
  assert (deref s' l = Some ((set_isShown true ∘ native (bw_set_visible true)) lw))
    as Hlw' by (unfold s'; by rewrite deref_mutate_ne, deref_dispatch by done).
  assert (deref s' e = Some (awaitReady type' ew)) as Hew'
    by (unfold s'; by rewrite deref_mutate_eq, deref_dispatch, Hew1).
  exists s'. split; [done|]. split; [by rewrite Hlw'|]. split.
  - unfold ev_didFinishLoad. rewrite (on_handle_some _ _ _ _ Hew').
    destruct (bw_destroyed (window (awaitReady type' ew))); [by rewrite Hlw'|].
    change (bw_finishLoadOnce (window (awaitReady type' ew)))
      with (bw_finishLoadOnce (window ew)).
    rewrite Hls. simpl. by rewrite deref_mutate_ne, Hlw' by done.
  - unfold s'. simpl. rewrite length_alter. apply (quiet_length _ _ Q).
Qed.

Lemma loading_stays_shown_for_loaded_window_witness :
  wf (ev_didFinishLoad 2 busy)
  /\ exists s',
       createPopup mist "about" Opts.empty None (ev_didFinishLoad 2 busy)
       = Return (Some 2) s'
       /\ (isShown <$> deref (ev_didFinishLoad 2 s') 0) = Some true.
Proof.
  assert (wf busy) as W0
    by (apply (reachable_wf mist), run_final_reachable, reachable_initial).
  assert (wf (ev_didFinishLoad 2 busy)) as W
    by (eapply wf_quiet; [exact W0|by apply quiet_ev_didFinishLoad]).
  assert (exists lw, deref (ev_didFinishLoad 2 busy) 0 = Some lw /\ isClosed lw = false)
    as (lw & Hlw & Hc) by (vm_compute; eauto).
  assert (exists ew, deref (ev_didFinishLoad 2 busy) 2 = Some ew
                     /\ bw_finishLoadOnce (window ew) = [])
    as (ew & Hew & Hls) by (vm_compute; eauto).
  assert ("about" <> "genericWindow") as Hne by discriminate.
  assert (0 <> 2) as Hle by lia.
  destruct (loading_stays_shown_for_loaded_window mist "about" Opts.empty None
              (ev_didFinishLoad 2 busy) 0 2 lw ew W eq_refl Hne eq_refl Hlw Hc
              eq_refl Hew Hls Hle) as (s' & Hcp & _ & Hstay & _).
  split; [exact W|]. exists s'. split; [exact Hcp|exact Hstay].
Defined.
